(** * send2ue: naming utilities, scene helpers and the validation manager

    A shallow embedding of [send2ue/core/utilities.py] and
    [send2ue/core/validations.py].

    Python strings are modelled as [string], read as sequences of code points
    below 256 (the Latin-1 range); the character classes below are those of
    [str.isspace], [str.isalnum] and of the [re] module on that range.
    Python exceptions are explicit: a function that can raise returns an
    [outcome]. *)

From Stdlib Require Import String Ascii List ZArith NArith Bool Arith Lia.
From Stdlib Require Import Sorting.Sorted Sorting.Permutation.
From Stdlib Require Import DecimalString.
Import ListNotations.
Open Scope string_scope.

(* ================================================================= *)
(** ** Python values: exceptions and strings *)

Inductive py_exn : Type :=
| RuntimeError (msg : string)
| TypeError
| IndexError
| ReferenceError
| ReErrorExn.

Inductive outcome (A : Type) : Type :=
| Returned (a : A)
| Raised (e : py_exn).
Arguments Returned {A} a.
Arguments Raised {A} e.

Module PyStr.

Definition code (c : ascii) : N := N_of_ascii c.

Definition in_range (lo hi : N) (c : ascii) : bool :=
  ((lo <=? code c) && (code c <=? hi))%N.

(** [str.isspace] on one character. *)
Definition is_space (c : ascii) : bool :=
  in_range 9 13 c || in_range 28 32 c || (code c =? 133)%N || (code c =? 160)%N.

(** Decimal digits: what [int] accepts and what [\d] matches. *)
Definition is_decimal (c : ascii) : bool := in_range 48 57 c.

Definition is_ascii_letter (c : ascii) : bool :=
  in_range 65 90 c || in_range 97 122 c.

Definition is_alpha (c : ascii) : bool :=
  is_ascii_letter c
  || (code c =? 170)%N || (code c =? 181)%N || (code c =? 186)%N
  || in_range 192 214 c || in_range 216 246 c || in_range 248 255 c.

(** Characters that are numeric without being decimal digits
    (superscripts and vulgar fractions). *)
Definition is_numeric_other (c : ascii) : bool :=
  (code c =? 178)%N || (code c =? 179)%N || (code c =? 185)%N
  || in_range 188 190 c.

(** The class [\w] of the [re] module: [str.isalnum] or an underscore. *)
Definition is_word (c : ascii) : bool :=
  is_alpha c || is_decimal c || is_numeric_other c || (c =? "_")%char.

Definition is_upper (c : ascii) : bool :=
  in_range 65 90 c || in_range 192 214 c || in_range 216 222 c.

Definition is_lower_paired (c : ascii) : bool :=
  in_range 97 122 c || in_range 224 246 c || in_range 248 254 c.

(** The other case of a cased character that has one in the range. *)
Definition swapcase (c : ascii) : ascii :=
  if is_upper c then ascii_of_N (code c + 32)
  else if is_lower_paired c then ascii_of_N (code c - 32)
  else c.

(** [s.startswith(p)] *)
Fixpoint startswith (s p : string) {struct p} : bool :=
  match p, s with
  | EmptyString, _ => true
  | String _ _, EmptyString => false
  | String c p', String d s' => (d =? c)%char && startswith s' p'
  end.

(** [s[n:]] *)
Fixpoint drop (n : nat) (s : string) : string :=
  match n, s with
  | O, _ => s
  | S _, EmptyString => EmptyString
  | S n', String _ s' => drop n' s'
  end.

Fixpoint lstrip (s : string) : string :=
  match s with
  | EmptyString => EmptyString
  | String c s' => if is_space c then lstrip s' else s
  end.

Fixpoint rstrip (s : string) : string :=
  match s with
  | EmptyString => EmptyString
  | String c s' =>
      match rstrip s' with
      | EmptyString => if is_space c then EmptyString else String c EmptyString
      | r => String c r
      end
  end.

(** [s.strip()] *)
Definition strip (s : string) : string := rstrip (lstrip s).

(** [s[:-1]] *)
Fixpoint drop_last (s : string) : string :=
  match s with
  | EmptyString => EmptyString
  | String c EmptyString => EmptyString
  | String c s' => String c (drop_last s')
  end.

(** [s[-1]]; [None] stands for the IndexError on the empty string. *)
Fixpoint last_char (s : string) : option ascii :=
  match s with
  | EmptyString => None
  | String c EmptyString => Some c
  | String _ s' => last_char s'
  end.

(** [int(c)] on a one-character string; [None] stands for ValueError. *)
Definition int_of_char (c : ascii) : option Z :=
  if is_decimal c then Some (Z.of_N (code c) - 48)%Z else None.

(** The scan of [str.replace] for a non-empty [old]: occurrences are taken
    left to right and do not overlap; [skip] counts the characters of the
    occurrence just replaced that are still to be passed over. *)
Fixpoint replace_scan (old new s : string) (skip : nat) : string :=
  match s with
  | EmptyString => EmptyString
  | String c s' =>
      match skip with
      | S k => replace_scan old new s' k
      | O =>
          if startswith s old
          then new ++ replace_scan old new s' (String.length old - 1)
          else String c (replace_scan old new s' 0)
      end
  end.

(** With an empty [old], [new] is inserted before every character and at
    the end. *)
Fixpoint interleave (new s : string) : string :=
  match s with
  | EmptyString => new
  | String c s' => new ++ String c (interleave new s')
  end.

(** [s.replace(old, new)] *)
Definition replace (s old new : string) : string :=
  match old with
  | EmptyString => interleave new s
  | _ => replace_scan old new s 0
  end.

End PyStr.

(* ================================================================= *)
(** ** The [re] module as an interface *)

(** Flags are the integer bit masks of the [re] module. *)
Definition re_flags := Z.
Definition NOFLAG : re_flags := 0%Z.
Definition IGNORECASE : re_flags := 2%Z.

(** What [re.search] and [re.fullmatch] can do: raise [re.error] when the
    pattern does not compile, return [None], or return a match object, of
    which the code only reads [groups()] (one entry per capture group, [None]
    for a group that took no part in the match).  These are the outcomes
    that the code tells apart.  [re] can also raise OverflowError, on a
    repetition count beyond its limit, and RecursionError; neither is an
    [re.error], the code catches neither, and neither has an outcome here:
    what is stated for every engine is stated for the calls on which [re]
    gives one of the three. *)
Inductive re_result : Type :=
| ReError
| ReNone
| ReMatch (groups : list (option string)).

Class ReEngine : Type := {
  re_search : string -> string -> re_flags -> re_result;
  re_fullmatch : string -> string -> re_flags -> re_result
}.

(** [bool(re.fullmatch(...))] inside a [try]: [None] stands for [re.error]. *)
Definition matched (r : re_result) : option bool :=
  match r with
  | ReError => None
  | ReNone => Some false
  | ReMatch _ => Some true
  end.

(** [re.escape]: a backslash before each special character. *)
Definition re_special (c : ascii) : bool :=
  existsb (Ascii.eqb c)
    (list_ascii_of_string "()[]{}?*+-|^$\.&~# ")
  || PyStr.in_range 9 13 c.

Fixpoint re_escape (s : string) : string :=
  match s with
  | EmptyString => EmptyString
  | String c s' =>
      if re_special c then String "\" (String c (re_escape s'))
      else String c (re_escape s')
  end.

(* ================================================================= *)
(** ** A reference engine for the interface

    [MiniRe] implements the part of the pattern language that the examples
    of this development use: literals, escapes, [.], [^], [$], character
    sets, capturing and [(?:...)] groups, alternation and greedy or lazy
    repetition, matched by backtracking with the priorities of the [re]
    module.  Any other [(?...)] construct, in particular a flag group that
    is not at the start of the expression, is reported as [re.error], and
    so are [\b], [\B], [\A], [\Z] and a back-reference: [MiniRe] rejects
    patterns that [re] accepts.  It serves to evaluate the code on given
    names and patterns, each inside the part that it implements; what holds
    for every pattern is stated over [ReEngine], not over [MiniRe]. *)

Module MiniRe.
Import PyStr.

Inductive cclass : Type :=
| CChar (c : ascii)
| CRange (lo hi : ascii)
| CDigit (neg : bool)
| CWord (neg : bool)
| CSpace (neg : bool).

Inductive regex : Type :=
| REmpty
| RSet (negated : bool) (items : list cclass)
| RAny
| RBol
| REol
| RSeq (r1 r2 : regex)
| RAlt (r1 r2 : regex)
| RRepeat (r : regex) (lo : nat) (hi : option nat) (greedy : bool)
| RGroup (index : option nat) (r : regex).

(** *** Parsing *)

Definition is_ascii_alnum (c : ascii) : bool :=
  is_ascii_letter c || is_decimal c.

(** The character after a backslash. *)
Definition parse_escape (c : ascii) : option cclass :=
  if (c =? "d")%char then Some (CDigit false)
  else if (c =? "D")%char then Some (CDigit true)
  else if (c =? "w")%char then Some (CWord false)
  else if (c =? "W")%char then Some (CWord true)
  else if (c =? "s")%char then Some (CSpace false)
  else if (c =? "S")%char then Some (CSpace true)
  else if (c =? "n")%char then Some (CChar "010")
  else if (c =? "t")%char then Some (CChar "009")
  else if (c =? "r")%char then Some (CChar "013")
  else if (c =? "f")%char then Some (CChar "012")
  else if (c =? "v")%char then Some (CChar "011")
  else if (c =? "a")%char then Some (CChar "007")
  else if is_ascii_alnum c then None
  else Some (CChar c).

(** The items of a character set, up to and including the closing bracket. *)
Fixpoint parse_set_items (first : bool) (s : string) : option (list cclass * string) :=
  let item (i : cclass) (rest : string) :=
    match parse_set_items false rest with
    | Some (items, rest') => Some (i :: items, rest')
    | None => None
    end in
  match s with
  | EmptyString => None
  | String c s1 =>
      if (c =? "]")%char && negb first then Some ([], s1)
      else if (c =? "\")%char then
        match s1 with
        | EmptyString => None
        | String e s2 =>
            match parse_escape e with
            | Some i => item i s2
            | None => None
            end
        end
      else
        match s1 with
        | String d (String e s3) =>
            if (d =? "-")%char && negb (e =? "]")%char && negb (e =? "\")%char then
              if (code c <=? code e)%N then item (CRange c e) s3 else None
            else item (CChar c) s1
        | _ => item (CChar c) s1
        end
  end.

Definition parse_set (s : string) : option (regex * string) :=
  let '(neg, s') :=
    match s with
    | String c s' => if (c =? "^")%char then (true, s') else (false, s)
    | EmptyString => (false, s)
    end in
  match parse_set_items true s' with
  | Some (items, rest) => Some (RSet neg items, rest)
  | None => None
  end.

Fixpoint read_digits (s : string) (acc : option nat) : option nat * string :=
  match s with
  | String c s' =>
      if is_decimal c
      then read_digits s' (Some (10 * match acc with Some a => a | None => 0 end
                                 + N.to_nat (code c - 48)))
      else (acc, s)
  | EmptyString => (acc, s)
  end.

(** The bounds of a brace repetition, read after the opening brace; [None]
    when the text is not a repetition, in which case the brace is a literal. *)
Definition parse_bounds (s : string) : option (nat * option nat * string) :=
  let '(lo, s1) := read_digits s None in
  match s1 with
  | String c s2 =>
      if (c =? "}")%char then
        match lo with Some n => Some (n, Some n, s2) | None => None end
      else if (c =? ",")%char then
        let '(hi, s3) := read_digits s2 None in
        match s3 with
        | String c' s4 =>
            if (c' =? "}")%char
            then Some (match lo with Some n => n | None => 0 end, hi, s4)
            else None
        | EmptyString => None
        end
      else None
  | EmptyString => None
  end.

Definition is_quantifier_start (s : string) : bool :=
  match s with
  | String c s' =>
      (c =? "*")%char || (c =? "+")%char || (c =? "?")%char
      || ((c =? "{")%char
          && match parse_bounds s' with Some _ => true | None => false end)
  | EmptyString => false
  end.

(** The quantifier that may follow an atom.  The outer [option] is the
    [re.error] of a repeated anchor, of bounds in the wrong order and of a
    quantifier on a quantifier. *)
Definition parse_quantifier (atom : regex) (s : string) : option (regex * string) :=
  let bounds :=
    match s with
    | String c s' =>
        if (c =? "*")%char then Some (0, None, s')
        else if (c =? "+")%char then Some (1, None, s')
        else if (c =? "?")%char then Some (0, Some 1, s')
        else if (c =? "{")%char then parse_bounds s'
        else None
    | EmptyString => None
    end in
  match bounds with
  | None => Some (atom, s)
  | Some (lo, hi, rest) =>
      let ordered := match hi with Some h => (lo <=? h)%nat | None => true end in
      let repeatable := match atom with RBol | REol => false | _ => true end in
      let '(greedy, rest') :=
        match rest with
        | String c r => if (c =? "?")%char then (false, r) else (true, rest)
        | EmptyString => (true, rest)
        end in
      if ordered && repeatable && negb (is_quantifier_start rest')
      then Some (RRepeat atom lo hi greedy, rest')
      else None
  end.

(** Recursive descent; [n] is the index of the next capture group, numbered
    by opening parenthesis. *)
Fixpoint parse_alt (fuel : nat) (s : string) (n : nat) : option (regex * string * nat) :=
  match fuel with
  | O => None
  | S fuel' =>
      match parse_seq fuel' s n with
      | Some (r1, String c rest, n1) =>
          if (c =? "|")%char then
            match parse_alt fuel' rest n1 with
            | Some (r2, rest', n2) => Some (RAlt r1 r2, rest', n2)
            | None => None
            end
          else Some (r1, String c rest, n1)
      | other => other
      end
  end
with parse_seq (fuel : nat) (s : string) (n : nat) : option (regex * string * nat) :=
  match fuel with
  | O => None
  | S fuel' =>
      match s with
      | EmptyString => Some (REmpty, s, n)
      | String c _ =>
          if (c =? "|")%char || (c =? ")")%char then Some (REmpty, s, n)
          else
            match parse_atom fuel' s n with
            | Some (a, rest, n1) =>
                match parse_quantifier a rest with
                | Some (q, rest') =>
                    match parse_seq fuel' rest' n1 with
                    | Some (REmpty, rest'', n2) => Some (q, rest'', n2)
                    | Some (r, rest'', n2) => Some (RSeq q r, rest'', n2)
                    | None => None
                    end
                | None => None
                end
            | None => None
            end
      end
  end
with parse_atom (fuel : nat) (s : string) (n : nat) : option (regex * string * nat) :=
  match fuel with
  | O => None
  | S fuel' =>
      match s with
      | EmptyString => None
      | String c s1 =>
          if (c =? "(")%char then
            let close (index : option nat) (inner : string) (n' : nat) :=
              match parse_alt fuel' inner n' with
              | Some (r, String c' rest, n2) =>
                  if (c' =? ")")%char
                  then Some (RGroup index r, rest, n2)
                  else None
              | _ => None
              end in
            match s1 with
            | String q s2 =>
                if (q =? "?")%char then
                  match s2 with
                  | String k s3 => if (k =? ":")%char then close None s3 n else None
                  | EmptyString => None
                  end
                else close (Some n) s1 (S n)
            | EmptyString => None
            end
          else if (c =? "[")%char then
            match parse_set s1 with
            | Some (r, rest) => Some (r, rest, n)
            | None => None
            end
          else if (c =? "\")%char then
            match s1 with
            | String e rest =>
                match parse_escape e with
                | Some i => Some (RSet false [i], rest, n)
                | None => None
                end
            | EmptyString => None
            end
          else if (c =? ".")%char then Some (RAny, s1, n)
          else if (c =? "^")%char then Some (RBol, s1, n)
          else if (c =? "$")%char then Some (REol, s1, n)
          else if (c =? "*")%char || (c =? "+")%char || (c =? "?")%char then None
          else Some (RSet false [CChar c], s1, n)
      end
  end.

(** [re.compile]: the syntax tree and the number of capture groups. *)
Definition parse (pattern : string) : option (regex * nat) :=
  match parse_alt (3 * String.length pattern + 3) pattern 1 with
  | Some (r, EmptyString, n) => Some (r, n - 1)
  | _ => None
  end.

(** The closing of a group, as [parse_atom] does it. *)
Definition close_group (fuel : nat) (index : option nat) (inner : string) (n' : nat)
  : option (regex * string * nat) :=
  match parse_alt fuel inner n' with
  | Some (r, String c' rest, n2) =>
      if (c' =? ")")%char
      then Some (RGroup index r, rest, n2)
      else None
  | _ => None
  end.

(** The text starts with a character that could open a quantifier. *)
Definition quantifier_ahead (s : string) : bool :=
  match s with
  | String c _ => (c =? "*")%char || (c =? "+")%char || (c =? "?")%char || (c =? "{")%char
  | EmptyString => false
  end.

(** *** Matching *)

Definition item_match (a : ascii) (i : cclass) : bool :=
  match i with
  | CChar c => (a =? c)%char
  | CRange lo hi => ((code lo <=? code a) && (code a <=? code hi))%N
  | CDigit neg => xorb neg (is_decimal a)
  | CWord neg => xorb neg (is_word a)
  | CSpace neg => xorb neg (is_space a)
  end.

Definition set_match (ic negated : bool) (items : list cclass) (a : ascii) : bool :=
  xorb negated
    (existsb (item_match a) items
     || (ic && existsb (item_match (swapcase a)) items)).

Definition caps := list (option (nat * nat)).

Fixpoint set_cap (i : nat) (v : nat * nat) (c : caps) : caps :=
  match i, c with
  | _, [] => []
  | O, _ :: c' => Some v :: c'
  | S i', x :: c' => x :: set_cap i' v c'
  end.

Definition at_end (s : string) : bool :=
  match s with
  | EmptyString => true
  | String c EmptyString => (c =? "010")%char
  | _ => false
  end.

Definition kont := string -> nat -> caps -> option caps.

(** The loop of a repetition whose body is matched by [body].  [count]
    iterations are done; below [lo] another one is mandatory, from [lo] on a
    greedy loop tries another one before the continuation and a lazy one
    after it.  An iteration beyond the lower bound that consumed nothing
    ends the repetition. *)
Fixpoint repeat_loop (body : string -> nat -> caps -> kont -> option caps)
  (lo : nat) (hi : option nat) (greedy : bool) (k : kont)
  (fuel count : nat) (s : string) (pos : nat) (c : caps) {struct fuel}
  : option caps :=
  match fuel with
  | O => None
  | S fuel' =>
      if (count <? lo)%nat then
        body s pos c
          (fun s' p' c' => repeat_loop body lo hi greedy k fuel' (S count) s' p' c')
      else
        let again :=
          if match hi with Some h => (count <? h)%nat | None => true end
          then body s pos c
                 (fun s' p' c' =>
                    if (p' =? pos)%nat then k s' p' c'
                    else repeat_loop body lo hi greedy k fuel' (S count) s' p' c')
          else None in
        if greedy then
          match again with
          | Some res => Some res
          | None => k s pos c
          end
        else
          match k s pos c with
          | Some res => Some res
          | None => again
          end
  end.

(** Backtracking matcher in continuation-passing style: [s] is the rest of
    the subject, [pos] its offset in the subject, [c] the captures so far. *)
Fixpoint run (ic : bool) (r : regex) (s : string) (pos : nat) (c : caps) (k : kont)
  {struct r} : option caps :=
  match r with
  | REmpty => k s pos c
  | RSet negated items =>
      match s with
      | String a s' => if set_match ic negated items a then k s' (S pos) c else None
      | EmptyString => None
      end
  | RAny =>
      match s with
      | String a s' => if (a =? "010")%char then None else k s' (S pos) c
      | EmptyString => None
      end
  | RBol => if (pos =? 0)%nat then k s pos c else None
  | REol => if at_end s then k s pos c else None
  | RSeq r1 r2 => run ic r1 s pos c (fun s' p' c' => run ic r2 s' p' c' k)
  | RAlt r1 r2 =>
      match run ic r1 s pos c k with
      | Some res => Some res
      | None => run ic r2 s pos c k
      end
  | RGroup index r1 =>
      run ic r1 s pos c
        (fun s' p' c' =>
           k s' p' match index with
                   | Some i => set_cap (i - 1) (pos, p') c'
                   | None => c'
                   end)
  | RRepeat r1 lo hi greedy =>
      repeat_loop (run ic r1) lo hi greedy k (lo + String.length s + 1) 0 s pos c
  end.

Definition ignorecase (flags : re_flags) : bool := Z.testbit flags 1.

Definition groups_of (subject : string) (c : caps) : list (option string) :=
  map (option_map (fun se : nat * nat =>
                     substring (fst se) (snd se - fst se) subject)) c.

(** The leftmost position from which the pattern matches. *)
Fixpoint search_from (ic : bool) (r : regex) (ngroups : nat) (s : string) (pos : nat)
  : option caps :=
  match run ic r s pos (repeat None ngroups) (fun _ _ c => Some c) with
  | Some c => Some c
  | None =>
      match s with
      | EmptyString => None
      | String _ s' => search_from ic r ngroups s' (S pos)
      end
  end.

Definition search (pattern subject : string) (flags : re_flags) : re_result :=
  match parse pattern with
  | None => ReError
  | Some (r, ngroups) =>
      match search_from (ignorecase flags) r ngroups subject 0 with
      | Some c => ReMatch (groups_of subject c)
      | None => ReNone
      end
  end.

Definition fullmatch (pattern subject : string) (flags : re_flags) : re_result :=
  match parse pattern with
  | None => ReError
  | Some (r, ngroups) =>
      match run (ignorecase flags) r subject 0 (repeat None ngroups)
              (fun s' _ c => match s' with EmptyString => Some c | _ => None end) with
      | Some c => ReMatch (groups_of subject c)
      | None => ReNone
      end
  end.

(** The end of a match that starts at [pos]; with [must_advance] an empty
    match is refused.  The span of the whole match is kept in one more
    capture slot after those of the groups. *)
Definition match_end (ic : bool) (r : regex) (ngroups : nat) (s : string) (pos : nat)
  (must_advance : bool) : option nat :=
  match run ic r s pos (repeat None (S ngroups))
          (fun _ p' c =>
             if must_advance && (p' =? pos)%nat then None
             else Some (set_cap ngroups (pos, p') c)) with
  | Some c =>
      match nth ngroups c None with
      | Some (_, e) => Some e
      | None => None
      end
  | None => None
  end.

(** The scan of [re.sub] with a constant replacement: the leftmost match
    from the current position is replaced and the scan goes on from its
    end; after an empty match the next one has to advance. *)
Fixpoint sub_scan (ic : bool) (r : regex) (ngroups : nat) (repl : string)
  (fuel : nat) (s : string) (pos : nat) (must_advance : bool) : string :=
  match fuel with
  | O => s
  | S fuel' =>
      match match_end ic r ngroups s pos must_advance with
      | Some e =>
          repl ++ sub_scan ic r ngroups repl fuel' (drop (e - pos) s) e (e =? pos)%nat
      | None =>
          match s with
          | EmptyString => EmptyString
          | String a s' => String a (sub_scan ic r ngroups repl fuel' s' (S pos) false)
          end
      end
  end.

(** [re.sub(pattern, repl, subject, flags=flags)] for a replacement without
    group references; [None] stands for [re.error]. *)
Definition sub (pattern repl subject : string) (flags : re_flags) : option string :=
  match parse pattern with
  | None => None
  | Some (r, ngroups) =>
      Some (sub_scan (ignorecase flags) r ngroups repl
              (2 * String.length subject + 2) subject 0 false)
  end.

End MiniRe.

#[export] Instance mini_engine : ReEngine :=
  {| re_search := MiniRe.search; re_fullmatch := MiniRe.fullmatch |}.

(* ================================================================= *)
(** ** utilities.py: naming *)

(** The fields of the add-on's property group that the embedded code reads. *)
Record PropertyData : Type := {
  import_lods : bool;
  import_grooms : bool;
  lod_regex : string
}.

(** Modelled from the spec: [RegexPresets.INVALID_NAME_CHARACTERS] of
    constants.py, which is not among the sources.  The spec has names
    normalised by "stripping characters outside an allowed set", and the
    message of [validate_object_names] gives the set: word characters, ["+"]
    and ["-"].  The pattern is a repeated negated set, so [re.sub] replaces
    each maximal run of characters outside the set. *)
Definition invalid_name_character (c : ascii) : bool :=
  negb (PyStr.is_word c || (c =? "+")%char || (c =? "-")%char).

(** [re.sub(RegexPresets.INVALID_NAME_CHARACTERS, "_", s)]; [in_run] tells
    that the previous character belonged to the run being replaced. *)
Fixpoint sub_invalid_runs (s : string) (in_run : bool) : string :=
  match s with
  | EmptyString => EmptyString
  | String c s' =>
      if invalid_name_character c then
        if in_run then sub_invalid_runs s' true
        else String "_" (sub_invalid_runs s' true)
      else String c (sub_invalid_runs s' false)
  end.

Definition sub_invalid_name_characters (s : string) : string :=
  sub_invalid_runs s false.

Fixpoint skip_ascii_letters (s : string) : string :=
  match s with
  | EmptyString => EmptyString
  | String c s' => if PyStr.is_ascii_letter c then skip_ascii_letters s' else s
  end.

(** [re.sub(r'^\(\?[a-zA-Z]*\)', '', pattern)]: the pattern is anchored, so
    at most the one group at the start is removed. *)
Definition sub_leading_flag_group (pattern : string) : string :=
  if PyStr.startswith pattern "(?" then
    match skip_ascii_letters (PyStr.drop 2 pattern) with
    | String c rest => if (c =? ")")%char then rest else pattern
    | EmptyString => pattern
    end
  else pattern.

Definition _extract_regex_flags (pattern : string) : string * re_flags :=
  let flags := NOFLAG in
  (* Handle case-insensitive flag *)
  let '(pattern, flags) :=
    if PyStr.startswith pattern "(?i)"
    then (PyStr.drop 4 pattern, Z.lor flags IGNORECASE)
    else (pattern, flags) in
  (* Remove any other flags that might cause issues *)
  (sub_leading_flag_group pattern, flags).

Section Naming.
Context {engine : ReEngine}.

Definition get_lod0_name (asset_name : string) (properties : PropertyData)
  : outcome string :=
  let '(lod_regex, flags) := _extract_regex_flags (lod_regex properties) in
  match re_search ("(" ++ lod_regex ++ ")") asset_name flags with
  | ReMatch groups =>
      match last groups None, groups with
      | _, [] => Returned asset_name            (* IndexError, caught *)
      | None, _ => Raised TypeError             (* None[:-1] *)
      | Some lod, _ =>
          Returned (PyStr.replace asset_name lod (PyStr.drop_last lod ++ "0"))
      end
  | ReNone => Returned asset_name
  | ReError => Returned asset_name              (* re.error, caught *)
  end.

Definition get_lod_index (asset_name : string) (properties : PropertyData)
  : outcome Z :=
  let '(lod_regex, flags) := _extract_regex_flags (lod_regex properties) in
  match re_search ("(" ++ lod_regex ++ ")") asset_name flags with
  | ReMatch groups =>
      match last groups None, groups with
      | _, [] => Returned 0%Z                    (* IndexError, caught *)
      | None, _ => Raised TypeError              (* None[-1] *)
      | Some lod, _ =>
          match PyStr.last_char lod with
          | None => Returned 0%Z                 (* IndexError, caught *)
          | Some c =>
              match PyStr.int_of_char c with
              | Some i => Returned i
              | None => Returned 0%Z             (* ValueError, caught *)
              end
          end
      end
  | ReNone => Returned 0%Z
  | ReError => Returned 0%Z                      (* re.error, caught *)
  end.

Definition get_asset_name (asset_name : string) (properties : PropertyData)
  (lod : bool) : outcome string :=
  let asset_name := sub_invalid_name_characters (PyStr.strip asset_name) in
  if import_lods properties then
    (* Extract flags and clean pattern from lod_regex *)
    let '(lod_regex, flags) := _extract_regex_flags (lod_regex properties) in
    (* remove the lod name from the asset *)
    match re_search ("(" ++ lod_regex ++ ")") asset_name flags with
    | ReMatch groups =>
        if negb lod then
          match groups with
          | Some g :: _ => Returned (PyStr.replace asset_name g "")
          | None :: _ => Raised TypeError        (* replace(None, '') *)
          | [] => Raised IndexError              (* only re.error is caught *)
          end
        else Returned asset_name
    | ReNone => Returned asset_name
    | ReError => Returned asset_name             (* malformed: skip LOD processing *)
    end
  else Returned asset_name.

Definition basic_collision_pattern (asset_name : string) : string :=
  "U(BX|CP|SP|CX)_" ++ re_escape asset_name ++ "(_\d+)?".

Definition lod_collision_pattern (asset_name lod_regex : string) : string :=
  "U(BX|CP|SP|CX)_" ++ re_escape asset_name ++ lod_regex ++ "(_\d+)?".

Definition is_collision_of (asset_name mesh_object_name : string)
  (properties : PropertyData) : outcome bool :=
  let mesh_object_name := PyStr.strip mesh_object_name in
  (* Check basic collision pattern *)
  let basic_pattern := basic_collision_pattern asset_name in
  match matched (re_fullmatch basic_pattern mesh_object_name NOFLAG) with
  | None => Raised ReErrorExn                    (* outside the try *)
  | Some true => Returned true
  | Some false =>
      (* Check collision pattern with LOD *)
      let '(lod_regex, flags) := _extract_regex_flags (lod_regex properties) in
      let lod_pattern := lod_collision_pattern asset_name lod_regex in
      match matched (re_fullmatch lod_pattern mesh_object_name flags) with
      | Some b => Returned b
      | None =>
          (* Fallback to basic pattern if regex is malformed *)
          match matched (re_fullmatch basic_pattern mesh_object_name NOFLAG) with
          | Some b => Returned b
          | None => Raised ReErrorExn
          end
      end
  end.

End Naming.

(* ================================================================= *)
(** ** The host state that the embedded code reads and writes *)

(** A scene object.  Blender keeps object names unique, so a Python
    reference to an object is modelled by the object's name. *)
Record BObject : Type := {
  ob_name : string;
  ob_type : string;
  ob_visible : bool;                 (* visible_get() *)
  ob_select : bool                   (* select_get() *)
}.

Record Blender : Type := {
  environ_SEND2UE_DEV : option string;         (* os.environ *)
  error_message : string;                      (* window_manager.send2ue *)
  error_message_details : string;
  popup_menus : list string;                   (* titles of the popups shown *)
  stdout : list string;
  collections : list (string * list BObject);  (* bpy.data.collections: all_objects *)
  scene_objects : list BObject;                (* bpy.context.scene.objects *)
  active_object : option string;               (* view_layer.objects.active *)
  frame_current : Z
}.

Definition set_error (message details : string) (b : Blender) : Blender :=
  {| environ_SEND2UE_DEV := environ_SEND2UE_DEV b;
     error_message := message;
     error_message_details := details;
     popup_menus := popup_menus b ++ ["Error"];
     stdout := stdout b;
     collections := collections b;
     scene_objects := scene_objects b;
     active_object := active_object b;
     frame_current := frame_current b |}.

Definition print (line : string) (b : Blender) : Blender :=
  {| environ_SEND2UE_DEV := environ_SEND2UE_DEV b;
     error_message := error_message b;
     error_message_details := error_message_details b;
     popup_menus := popup_menus b;
     stdout := stdout b ++ [line];
     collections := collections b;
     scene_objects := scene_objects b;
     active_object := active_object b;
     frame_current := frame_current b |}.

(* ================================================================= *)
(** ** utilities.py: error reporting *)

(** The first argument of [report_error]: a text, or the set [{'WARNING'}]
    that operator reports pass along. *)
Inductive message : Type :=
| Text (s : string)
| WarningSet.

(** Truth value of [os.environ.get('SEND2UE_DEV', raise_exception)]: the
    variable's value when it is set (a string, true unless empty), the
    argument otherwise. *)
Definition environ_get_truth (value : option string) (default : bool) : bool :=
  match value with
  | Some v => negb (v =? "")
  | None => default
  end.

Definition report_error (msg : message) (details : string) (raise_exception : bool)
  (b : Blender) : Blender * outcome unit :=
  match msg with
  | WarningSet =>
      (* if a warning is received, then don't raise an error *)
      (print ("{'WARNING'} " ++ details) b, Returned tt)
  | Text m =>
      if environ_get_truth (environ_SEND2UE_DEV b) raise_exception
      then (b, Raised (RuntimeError (m ++ details)))
      else (set_error m details b, Returned tt)
  end.

(* ================================================================= *)
(** ** utilities.py: the export collection *)

(** Python's order on strings, by code point. *)
Definition str_le (a b : string) : bool := String.leb a b.

(** [sorted(objects, key=lambda obj: obj.name)]: a stable sort, written as
    an insertion sort that places an object before the first one whose name
    is not smaller. *)
Fixpoint insert_by_name (o : BObject) (l : list BObject) : list BObject :=
  match l with
  | [] => [o]
  | x :: l' =>
      if str_le (ob_name o) (ob_name x) then o :: l
      else x :: insert_by_name o l'
  end.

Definition sorted_by_name (l : list BObject) : list BObject :=
  fold_right insert_by_name [] l.

Definition name_le (a b : BObject) : Prop := str_le (ob_name a) (ob_name b) = true.

(** [bpy.data.collections.get(name)] *)
Fixpoint collections_get (name : string) (cs : list (string * list BObject))
  : option (list BObject) :=
  match cs with
  | [] => None
  | (n, objs) :: cs' => if n =? name then Some objs else collections_get name cs'
  end.

Section Collections.
(** [ToolInfo.EXPORT_COLLECTION.value] and the values of the [PreFixToken]
    enumeration come from constants.py, which is not among the sources. *)
Variable EXPORT_COLLECTION : string.
Variable PreFixToken : list string.

(** [any(name.startswith(f'{token.value}_') for token in PreFixToken)] *)
Definition has_prefix_token (name : string) : bool :=
  existsb (fun token => PyStr.startswith name (token ++ "_")) PreFixToken.

Definition exportable (object_type : string) (o : BObject) : bool :=
  (ob_type o =? object_type) && ob_visible o && negb (has_prefix_token (ob_name o)).

Definition get_from_collection (object_type : string) (b : Blender) : list BObject :=
  let collection_objects :=
    match collections_get EXPORT_COLLECTION (collections b) with
    | Some all_objects => filter (exportable object_type) all_objects
    | None => []
    end in
  sorted_by_name collection_objects.

End Collections.

(* ================================================================= *)
(** ** utilities.py: saving and restoring the context *)

(** An object as the context functions see it.  A Python reference to an
    object is the key under which the blend file holds the object: the
    reference stays the same when the object is renamed, hidden or unlinked
    from the scene, and a key that the file no longer holds is a reference
    to a removed object, whose attributes raise ReferenceError.  Blender
    keeps the names of the objects of a file distinct.  These functions
    read of an object what [BObject] does not carry, its identity and
    whether the view layer holds it, and so they work on a store of their
    own. *)
Record SceneObject : Type := {
  so_name : string;
  so_in_scene : bool;                (* linked to the scene and its view layer *)
  so_visible : bool;                 (* visible_get() *)
  so_select : bool                   (* select_get() *)
}.

Definition ObjectStore : Type := list (nat * SceneObject).   (* bpy.data.objects *)

Record Scene : Type := {
  data_objects : ObjectStore;
  view_layer_active : option nat;    (* bpy.context.view_layer.objects.active *)
  scene_frame_current : Z            (* bpy.context.scene.frame_current *)
}.

(** The object that a reference denotes, if it has not been removed. *)
Fixpoint lookup_object (r : nat) (objects : ObjectStore) : option SceneObject :=
  match objects with
  | [] => None
  | (key, o) :: rest => if (key =? r)%nat then Some o else lookup_object r rest
  end.

Definition with_select (state : bool) (o : SceneObject) : SceneObject :=
  {| so_name := so_name o; so_in_scene := so_in_scene o;
     so_visible := so_visible o; so_select := state |}.

Fixpoint update_object (r : nat) (f : SceneObject -> SceneObject)
  (objects : ObjectStore) : ObjectStore :=
  match objects with
  | [] => []
  | (key, o) :: rest =>
      if (key =? r)%nat then (key, f o) :: rest
      else (key, o) :: update_object r f rest
  end.

(** The dictionary built by [get_current_context]; a field is [None] when
    the key is absent (or, for the active object, when its value is [None]).
    The objects are held by reference. *)
Record ContextData : Type := {
  ctx_active_object : option nat;
  ctx_selected_objects : option (list nat);
  ctx_current_frame : option Z;
  ctx_visible_objects : option (list nat)
}.

(** The references of the objects of the scene that satisfy [p]. *)
Definition scene_references (p : SceneObject -> bool) (objects : ObjectStore)
  : list nat :=
  map fst (filter (fun entry => so_in_scene (snd entry) && p (snd entry)) objects).

Definition get_current_context (s : Scene) : ContextData :=
  {| ctx_active_object := view_layer_active s;
     (* bpy.context.selected_objects: selected and visible *)
     ctx_selected_objects :=
       Some (scene_references (fun o => so_visible o && so_select o) (data_objects s));
     ctx_current_frame := Some (scene_frame_current s);
     ctx_visible_objects := Some (scene_references so_visible (data_objects s)) |}.

(** [scene_object.select_set(state)]: selecting an object that is hidden
    does nothing; an object outside the view layer cannot be selected, and
    deselecting it does nothing. *)
Definition select_set (r : nat) (state : bool) (objects : ObjectStore)
  : ObjectStore * outcome unit :=
  match lookup_object r objects with
  | None => (objects, Raised ReferenceError)
  | Some o =>
      if so_in_scene o then
        (update_object r
           (fun o => with_select (if state then so_visible o || so_select o else false) o)
           objects,
         Returned tt)
      else if state then
        (objects,
         Raised (RuntimeError
                   ("Object '" ++ so_name o
                    ++ "' can't be selected because it is not in the view layer")))
      else (objects, Returned tt)
  end.

(** [for scene_object in bpy.context.scene.objects: scene_object.select_set(False)] *)
Definition deselect_all_objects (objects : ObjectStore) : ObjectStore :=
  map (fun entry =>
         if so_in_scene (snd entry) then (fst entry, with_select false (snd entry))
         else entry)
    objects.

(** [name in bpy.context.scene.objects] *)
Definition name_in_scene (name : string) (objects : ObjectStore) : bool :=
  existsb (fun entry => so_in_scene (snd entry) && (so_name (snd entry) =? name)) objects.

(** The loop of [set_context] over the captured selection. *)
Fixpoint restore_selection (selected_objects : list nat) (objects : ObjectStore)
  : ObjectStore * outcome unit :=
  match selected_objects with
  | [] => (objects, Returned tt)
  | scene_object :: rest =>
      match lookup_object scene_object objects with
      | None => (objects, Raised ReferenceError)      (* scene_object.name *)
      | Some o =>
          if name_in_scene (so_name o) objects then
            match select_set scene_object true objects with
            | (objects', Returned _) => restore_selection rest objects'
            | (objects', Raised e) => (objects', Raised e)
            end
          else restore_selection rest objects
      end
  end.

(** [if active_object and active_object.name in bpy.context.scene.objects:
    bpy.context.view_layer.objects.active = active_object]; the view layer
    refuses an object that it does not hold. *)
Definition restore_active (active_object : option nat) (objects : ObjectStore)
  (active : option nat) : option nat * outcome unit :=
  match active_object with
  | None => (active, Returned tt)
  | Some r =>
      match lookup_object r objects with
      | None => (active, Raised ReferenceError)       (* active_object.name *)
      | Some o =>
          if name_in_scene (so_name o) objects then
            if so_in_scene o then (Some r, Returned tt)
            else
              (active,
               Raised (RuntimeError
                         ("ViewLayer does not contain object '" ++ so_name o ++ "'")))
          else (active, Returned tt)
      end
  end.

Definition set_context (context_data : ContextData) (s : Scene)
  : Scene * outcome unit :=
  (* deselect all objects first *)
  let objects := deselect_all_objects (data_objects s) in
  (* restore selected objects *)
  let selected_objects :=
    match ctx_selected_objects context_data with Some l => l | None => [] end in
  match restore_selection selected_objects objects with
  | (objects, Raised e) =>
      ({| data_objects := objects;
          view_layer_active := view_layer_active s;
          scene_frame_current := scene_frame_current s |}, Raised e)
  | (objects, Returned _) =>
      (* restore active object *)
      match restore_active (ctx_active_object context_data) objects
              (view_layer_active s) with
      | (active, Raised e) =>
          ({| data_objects := objects;
              view_layer_active := active;
              scene_frame_current := scene_frame_current s |}, Raised e)
      | (active, Returned _) =>
          (* restore current frame *)
          ({| data_objects := objects;
              view_layer_active := active;
              scene_frame_current :=
                match ctx_current_frame context_data with
                | Some current_frame => current_frame
                | None => scene_frame_current s
                end |}, Returned tt)
      end
  end.

(* ================================================================= *)
(** ** validations.py: the validation manager *)

(** A validation method: it reads and may write the host state, and returns
    a boolean or raises. *)
Definition check (St : Type) : Type := St -> St * outcome bool.

(** The loop of [run_pre_validations]. *)
Fixpoint run_validations {St : Type} (validations : list (check St)) (s : St)
  : St * outcome bool :=
  match validations with
  | [] => (s, Returned true)
  | validation :: rest =>
      match validation s with
      | (s', Returned true) => run_validations rest s'
      | (s', Returned false) => (s', Returned false)
      | (s', Raised e) => (s', Raised e)
      end
  end.

(** The methods of [ValidationManager] that the pipeline calls. *)
Record ValidationManager (St : Type) : Type := {
  validate_scene_scale : check St;
  validate_frame_rate : check St;
  validate_armature_transforms : check St;
  validate_export_objects_exist : check St;
  validate_lod_groups : check St;
  validate_project_settings : check St;
  validate_disk_folders : check St;
  validate_unreal_folders : check St;
  validate_unreal_asset_paths : check St;
  validate_materials : check St;
  validate_lod_names : check St;
  validate_texture_references : check St;
  validate_object_names : check St;
  validate_meshes_for_vertex_groups : check St
}.
Arguments validate_scene_scale {St}.
Arguments validate_frame_rate {St}.
Arguments validate_armature_transforms {St}.
Arguments validate_export_objects_exist {St}.
Arguments validate_lod_groups {St}.
Arguments validate_project_settings {St}.
Arguments validate_disk_folders {St}.
Arguments validate_unreal_folders {St}.
Arguments validate_unreal_asset_paths {St}.
Arguments validate_materials {St}.
Arguments validate_lod_names {St}.
Arguments validate_texture_references {St}.
Arguments validate_object_names {St}.
Arguments validate_meshes_for_vertex_groups {St}.

Definition validations {St : Type} (self : ValidationManager St) : list (check St) :=
  [ validate_scene_scale self;
    validate_frame_rate self;
    validate_armature_transforms self;
    validate_export_objects_exist self;
    validate_lod_groups self;
    validate_project_settings self;
    validate_disk_folders self;
    validate_unreal_folders self;
    validate_unreal_asset_paths self;
    validate_materials self;
    validate_lod_names self;
    validate_texture_references self;
    validate_object_names self;
    validate_meshes_for_vertex_groups self ].

Definition run_pre_validations {St : Type} (self : ValidationManager St) : check St :=
  run_validations (validations self).

Definition validation_names : list string :=
  [ "validate_scene_scale"; "validate_frame_rate"; "validate_armature_transforms";
    "validate_export_objects_exist"; "validate_lod_groups";
    "validate_project_settings"; "validate_disk_folders"; "validate_unreal_folders";
    "validate_unreal_asset_paths"; "validate_materials"; "validate_lod_names";
    "validate_texture_references"; "validate_object_names";
    "validate_meshes_for_vertex_groups" ].

(** Call instrumentation: the state is paired with a log, and a method, when
    called, first appends its name to the log. *)
Definition logged {St : Type} (name : string) (v : check St) : check (St * list string) :=
  fun sl =>
    let '(s', r) := v (fst sl) in ((s', (snd sl ++ [name])%list), r).

Definition instrumented {St : Type} (self : ValidationManager St)
  : ValidationManager (St * list string) :=
  {| validate_scene_scale := logged "validate_scene_scale" (validate_scene_scale self);
     validate_frame_rate := logged "validate_frame_rate" (validate_frame_rate self);
     validate_armature_transforms :=
       logged "validate_armature_transforms" (validate_armature_transforms self);
     validate_export_objects_exist :=
       logged "validate_export_objects_exist" (validate_export_objects_exist self);
     validate_lod_groups := logged "validate_lod_groups" (validate_lod_groups self);
     validate_project_settings :=
       logged "validate_project_settings" (validate_project_settings self);
     validate_disk_folders := logged "validate_disk_folders" (validate_disk_folders self);
     validate_unreal_folders :=
       logged "validate_unreal_folders" (validate_unreal_folders self);
     validate_unreal_asset_paths :=
       logged "validate_unreal_asset_paths" (validate_unreal_asset_paths self);
     validate_materials := logged "validate_materials" (validate_materials self);
     validate_lod_names := logged "validate_lod_names" (validate_lod_names self);
     validate_texture_references :=
       logged "validate_texture_references" (validate_texture_references self);
     validate_object_names := logged "validate_object_names" (validate_object_names self);
     validate_meshes_for_vertex_groups :=
       logged "validate_meshes_for_vertex_groups"
         (validate_meshes_for_vertex_groups self) |}.

(** The checks [pre] all return true when run in sequence from [s], and
    leave the state [s']. *)
Inductive all_pass {St : Type} : list (check St) -> St -> St -> Prop :=
| all_pass_nil : forall s, all_pass [] s s
| all_pass_cons : forall v vs s s' s'',
    v s = (s', Returned true) -> all_pass vs s' s'' -> all_pass (v :: vs) s s''.

(** *** The manager of the add-on

    The state that [__init__] sets, and the methods whose bodies only read
    that state, the property group and the names of the objects.  The
    remaining methods read host data that is not modelled (scene units,
    frame rate, matrices, materials, textures, modifiers, the editor
    connection) and are taken as given. *)

Record ManagerState : Type := {
  self_properties : PropertyData;
  self_mesh_objects : list BObject;
  self_rig_objects : list BObject;
  self_hair_objects : list BObject
}.

(** [utilities.report_error(message); return False] *)
Definition report_and_fail (text : string) : check Blender :=
  fun b =>
    match report_error (Text text) "" true b with
    | (b', Raised e) => (b', Raised e)
    | (b', Returned _) => (b', Returned false)
    end.

Definition dquote : string := String "034" EmptyString.

Section Manager.
Context {engine : ReEngine}.
(** Values of [ToolInfo], [PreFixToken] and [BlenderTypes] in constants.py,
    which is not among the sources. *)
Variable EXPORT_COLLECTION : string.
Variable PreFixToken : list string.
Variables MESH SKELETON CURVES : string.

Definition get_hair_objects (properties : PropertyData) (b : Blender) : list BObject :=
  if import_grooms properties
  then get_from_collection EXPORT_COLLECTION PreFixToken CURVES b
  else [].

(** [ValidationManager.__init__] *)
Definition init (properties : PropertyData) (b : Blender) : ManagerState :=
  {| self_properties := properties;
     self_mesh_objects := get_from_collection EXPORT_COLLECTION PreFixToken MESH b;
     self_rig_objects := get_from_collection EXPORT_COLLECTION PreFixToken SKELETON b;
     self_hair_objects := get_hair_objects properties b |}.

Definition is_nil {A : Type} (l : list A) : bool :=
  match l with [] => true | _ => false end.

Definition validate_export_objects_exist_impl (self : ManagerState) : check Blender :=
  fun b =>
    (* if there are objects to export, then continue with the validations *)
    if negb (is_nil (self_mesh_objects self))
       || negb (is_nil (self_rig_objects self))
       || negb (is_nil (self_hair_objects self))
    then (b, Returned true)
    else
      (* otherwise report an error *)
      report_and_fail
        ("No objects found in the " ++ dquote ++ EXPORT_COLLECTION ++ dquote
         ++ " collection! Create and populate the " ++ dquote ++ EXPORT_COLLECTION
         ++ dquote ++ " collection, or use the operator " ++ dquote
         ++ "Create Pre-defined Collections" ++ dquote
         ++ " under the utilities menu.") b.

Definition validate_lod_groups_impl (self : ManagerState) : check Blender :=
  fun b =>
    if import_lods (self_properties self) && import_grooms (self_properties self)
    then
      report_and_fail
        ("Groom LODs are currently unsupported at this time. "
         ++ "Please disable either import LODs or import groom.") b
    else (b, Returned true).

(** The loop of [validate_lod_names] over the mesh objects. *)
Fixpoint check_lod_names (raw_regex lod_regex : string) (flags : re_flags)
  (mesh_objects : list BObject) : check Blender :=
  fun b =>
    match mesh_objects with
    | [] => (b, Returned true)
    | mesh_object :: rest =>
        match re_search ("(" ++ lod_regex ++ ")") (ob_name mesh_object) flags with
        | ReMatch _ => check_lod_names raw_regex lod_regex flags rest b
        | ReNone =>
            report_and_fail
              ("Object " ++ dquote ++ ob_name mesh_object ++ dquote
               ++ " does not follow the correct lod naming convention defined in the "
               ++ "import setting by the lod regex.") b
        | ReError =>
            report_and_fail
              ("Invalid lod_regex pattern: " ++ dquote ++ raw_regex ++ dquote
               ++ ". Please check your regex syntax.") b
        end
    end.

Definition validate_lod_names_impl (self : ManagerState) : check Blender :=
  fun b =>
    if import_lods (self_properties self) then
      (* Extract flags and clean pattern from lod_regex *)
      let raw_regex := lod_regex (self_properties self) in
      let '(lod_regex, flags) := _extract_regex_flags raw_regex in
      check_lod_names raw_regex lod_regex flags (self_mesh_objects self) b
    else (b, Returned true).

(** The manager: the three methods above, and the others from [host]. *)
Definition send2ue_manager (host : ValidationManager Blender) (self : ManagerState)
  : ValidationManager Blender :=
  {| validate_scene_scale := validate_scene_scale host;
     validate_frame_rate := validate_frame_rate host;
     validate_armature_transforms := validate_armature_transforms host;
     validate_export_objects_exist := validate_export_objects_exist_impl self;
     validate_lod_groups := validate_lod_groups_impl self;
     validate_project_settings := validate_project_settings host;
     validate_disk_folders := validate_disk_folders host;
     validate_unreal_folders := validate_unreal_folders host;
     validate_unreal_asset_paths := validate_unreal_asset_paths host;
     validate_materials := validate_materials host;
     validate_lod_names := validate_lod_names_impl self;
     validate_texture_references := validate_texture_references host;
     validate_object_names := validate_object_names host;
     validate_meshes_for_vertex_groups := validate_meshes_for_vertex_groups host |}.

End Manager.

(** Pairing each method of a list with its name and instrumenting it. *)
Fixpoint zip_logged {St : Type} (names : list string) (vs : list (check St))
  : list (check (St * list string)) :=
  match names, vs with
  | name :: names', v :: vs' => logged name v :: zip_logged names' vs'
  | _, _ => []
  end.

(** A manager of stubs: every method leaves the state alone and returns the
    boolean that the table gives for its position in the pipeline. *)
Definition stub (answers : list bool) (i : nat) : check unit :=
  fun s => (s, Returned (nth i answers true)).

Definition stub_manager (answers : list bool) : ValidationManager unit :=
  {| validate_scene_scale := stub answers 0;
     validate_frame_rate := stub answers 1;
     validate_armature_transforms := stub answers 2;
     validate_export_objects_exist := stub answers 3;
     validate_lod_groups := stub answers 4;
     validate_project_settings := stub answers 5;
     validate_disk_folders := stub answers 6;
     validate_unreal_folders := stub answers 7;
     validate_unreal_asset_paths := stub answers 8;
     validate_materials := stub answers 9;
     validate_lod_names := stub answers 10;
     validate_texture_references := stub answers 11;
     validate_object_names := stub answers 12;
     validate_meshes_for_vertex_groups := stub answers 13 |}.

(* ================================================================= *)
(** ** Sample data *)

(** A host with nothing in it and no environment override. *)
Definition empty_host : Blender :=
  {| environ_SEND2UE_DEV := None;
     error_message := "";
     error_message_details := "";
     popup_menus := [];
     stdout := [];
     collections := [];
     scene_objects := [];
     active_object := None;
     frame_current := 1 |}.

(** The same host with the developer variable set to [value]. *)
Definition with_environ (value : option string) (b : Blender) : Blender :=
  {| environ_SEND2UE_DEV := value;
     error_message := error_message b;
     error_message_details := error_message_details b;
     popup_menus := popup_menus b;
     stdout := stdout b;
     collections := collections b;
     scene_objects := scene_objects b;
     active_object := active_object b;
     frame_current := frame_current b |}.

(** Host methods that find nothing to report. *)
Definition pass : check Blender := fun b => (b, Returned true).

Definition passing_host : ValidationManager Blender :=
  {| validate_scene_scale := pass;
     validate_frame_rate := pass;
     validate_armature_transforms := pass;
     validate_export_objects_exist := pass;
     validate_lod_groups := pass;
     validate_project_settings := pass;
     validate_disk_folders := pass;
     validate_unreal_folders := pass;
     validate_unreal_asset_paths := pass;
     validate_materials := pass;
     validate_lod_names := pass;
     validate_texture_references := pass;
     validate_object_names := pass;
     validate_meshes_for_vertex_groups := pass |}.

(** A configuration with both LOD import and groom import enabled. *)
Definition lods_and_grooms : PropertyData :=
  {| import_lods := true; import_grooms := true; lod_regex := "(?i)(_LOD\d)" |}.

(** A small export collection, its objects in two different orders. *)
Definition mesh (name : string) (visible : bool) : BObject :=
  {| ob_name := name; ob_type := "MESH"; ob_visible := visible; ob_select := false |}.

Definition sample_objects : list BObject :=
  [ mesh "Table" true; mesh "UCX_Chair_01" true; mesh "Chair" true;
    {| ob_name := "Rig"; ob_type := "ARMATURE";
       ob_visible := true; ob_select := false |};
    mesh "Bench" false ].

Definition host_with_export (objects : list BObject) : Blender :=
  {| environ_SEND2UE_DEV := None;
     error_message := "";
     error_message_details := "";
     popup_menus := [];
     stdout := [];
     collections := [("Export", objects)];
     scene_objects := objects;
     active_object := None;
     frame_current := 1 |}.

(** What an object is apart from its selection: [set_context] is judged on
    what it leaves of it. *)
Definition unselected (objects : ObjectStore) : ObjectStore :=
  map (fun entry => (fst entry, with_select false (snd entry))) objects.

(** A scene with one visible, selected, active cube at frame 1; the same
    scene after [cube.hide_set(True)] and a move to frame 10; the scene
    with the cube renamed instead; and the scene after the cube was removed
    from the file. *)
Definition cube (name : string) (visible selected : bool) : SceneObject :=
  {| so_name := name; so_in_scene := true;
     so_visible := visible; so_select := selected |}.

Definition scene_before : Scene :=
  {| data_objects := [(1, cube "Cube" true true)];
     view_layer_active := Some 1; scene_frame_current := 1 |}.

Definition scene_hidden : Scene :=
  {| data_objects := [(1, cube "Cube" false false)];
     view_layer_active := Some 1; scene_frame_current := 10 |}.

Definition scene_renamed : Scene :=
  {| data_objects := [(1, cube "Box" true false)];
     view_layer_active := None; scene_frame_current := 10 |}.

Definition scene_removed : Scene :=
  {| data_objects := []; view_layer_active := None; scene_frame_current := 10 |}.

(** Property configurations that differ in the LOD settings only. *)
Definition lod_props (enabled : bool) (regex : string) : PropertyData :=
  {| import_lods := enabled; import_grooms := false; lod_regex := regex |}.

(** Every character of [s] is allowed in an asset name. *)
Fixpoint all_valid (s : string) : bool :=
  match s with
  | EmptyString => true
  | String c s' => negb (invalid_name_character c) && all_valid s'
  end.

(** [old] occurs in [s] at offset [i]. *)
Definition occurs_at (old s : string) (i : nat) : bool :=
  PyStr.startswith (PyStr.drop i s) old.


(** The search that the LOD utilities run on a name: the pattern cleaned of
    its flag groups, in parentheses, with the extracted flags. *)
Definition lod_search {engine : ReEngine} (asset_name : string)
  (properties : PropertyData) : re_result :=
  re_search ("(" ++ fst (_extract_regex_flags (lod_regex properties)) ++ ")")
    asset_name (snd (_extract_regex_flags (lod_regex properties))).

(* ================================================================= *)
(** ** The first collision form, read off its shape *)

Fixpoint all_digits (s : string) : bool :=
  match s with
  | EmptyString => true
  | String c s' => PyStr.is_decimal c && all_digits s'
  end.

(** Nothing, or an underscore followed by one or more decimal digits. *)
Definition is_number_suffix (s : string) : bool :=
  match s with
  | EmptyString => true
  | String c digits =>
      (c =? "_")%char && negb (digits =? "") && all_digits digits
  end.

Definition is_collision_kind (x y : ascii) : bool :=
  existsb (String.eqb (String x (String y ""))) ["BX"; "CP"; "SP"; "CX"].

(** The first form as the spec writes it, [U(BX|CP|SP|CX)_<asset name>]
    with an optional [_<digits>], decided on the characters of the name
    without any regular expression. *)
Definition first_form_by_shape (asset_name name : string) : bool :=
  match name with
  | String u (String x (String y (String v rest))) =>
      (u =? "U")%char && is_collision_kind x y && (v =? "_")%char
      && PyStr.startswith rest asset_name
      && is_number_suffix (PyStr.drop (String.length asset_name) rest)
  | _ => false
  end.

(** The syntax tree that the reference engine builds for the first form. *)
Module CollisionAst.
Import MiniRe.

Definition lit (c : ascii) : regex := RSet false [CChar c].

Fixpoint lits (a : string) (tail : regex) : regex :=
  match a with
  | EmptyString => tail
  | String c a' => RSeq (lit c) (lits a' tail)
  end.

Definition kinds : regex :=
  RGroup (Some 1)
    (RAlt (RSeq (lit "B") (lit "X"))
       (RAlt (RSeq (lit "C") (lit "P"))
          (RAlt (RSeq (lit "S") (lit "P")) (RSeq (lit "C") (lit "X"))))).

Definition digits_plus : regex := RRepeat (RSet false [CDigit false]) 1 None true.

Definition number_suffix : regex :=
  RRepeat (RGroup (Some 2) (RSeq (lit "_") digits_plus)) 0 (Some 1) true.

Definition basic (asset_name : string) : regex :=
  RSeq (lit "U") (RSeq kinds (RSeq (lit "_") (lits asset_name number_suffix))).

(** What a continuation accepts, whatever the position and the captures. *)
Definition is_some {A : Type} (o : option A) : bool :=
  match o with Some _ => true | None => false end.

Definition accepts (k : kont) (P : string -> bool) : Prop :=
  forall s p c, is_some (k s p c) = P s.

(** One or more digits, then [P]; and any number of digits, then [P]. *)
Fixpoint digits_star_then (P : string -> bool) (s : string) : bool :=
  match s with
  | String d s' => (PyStr.is_decimal d && digits_star_then P s') || P s
  | EmptyString => P s
  end.

Definition digits_plus_then (P : string -> bool) (s : string) : bool :=
  match s with
  | String d s' => PyStr.is_decimal d && digits_star_then P s'
  | EmptyString => false
  end.

Definition is_empty (s : string) : bool :=
  match s with EmptyString => true | _ => false end.

End CollisionAst.

(* ================================================================= *)
(** ** The two constant patterns of the naming utilities *)

(** The number of leading characters of [s] that are not allowed in a name,
    and the number of its leading ASCII letters. *)
Fixpoint invalid_run_length (s : string) : nat :=
  match s with
  | String c s' => if invalid_name_character c then S (invalid_run_length s') else 0
  | EmptyString => 0
  end.

Fixpoint letters_count (s : string) : nat :=
  match s with
  | String c s' => if PyStr.is_ascii_letter c then S (letters_count s') else 0
  | EmptyString => 0
  end.

Module PatternAst.
Import MiniRe.

(** The syntax trees of [[^-+\w]+] and of [^\(\?[a-zA-Z]*\)]. *)
Definition invalid_set : regex := RSet true [CChar "-"; CChar "+"; CWord false].

Definition invalid_runs : regex := RRepeat invalid_set 1 None true.

Definition letter_set : regex := RSet false [CRange "a" "z"; CRange "A" "Z"].

Definition flag_group : regex :=
  RSeq RBol
    (RSeq (RSet false [CChar "("])
       (RSeq (RSet false [CChar "?"])
          (RSeq (RRepeat letter_set 0 None true) (RSet false [CChar ")"])))).

(** The final continuation of [match_end] for a pattern without groups. *)
Definition record_end (start : nat) (must_advance : bool) : kont :=
  fun _ p' c =>
    if must_advance && (p' =? start)%nat then None
    else Some (set_cap 0 (start, p') c).

End PatternAst.

(* ================================================================= *)
(** ** utilities.py: meshes, rigs and curves *)

(** The members of the [UnrealTypes] enumeration that the code names. *)
Inductive UnrealTypes : Type :=
| STATIC_MESH
| SKELETAL_MESH
| ANIM_SEQUENCE
| GROOM.

(** A modifier, with the attributes that the code reads.  A reference to
    another object is kept as that object; two references denote the same
    object when the names agree. *)
Record Modifier : Type := {
  md_type : string;
  md_object : option BObject;        (* modifier.object *)
  md_target : option BObject;        (* modifier.target *)
  md_use_vertex_groups : bool
}.

Definition same_object (a b : BObject) : bool := ob_name a =? ob_name b.

(** A loop that keeps the elements for which [p] returns true and stops at
    the first call that raises. *)
Fixpoint filter_raising {A : Type} (p : A -> outcome bool) (l : list A)
  : outcome (list A) :=
  match l with
  | [] => Returned []
  | x :: rest =>
      match p x with
      | Raised e => Raised e
      | Returned keep =>
          match filter_raising p rest with
          | Raised e => Raised e
          | Returned kept => Returned (if keep then x :: kept else kept)
          end
      end
  end.

Section ObjectData.
Context {engine : ReEngine}.
(** The attributes [modifiers] and [parent] of an object are read from the
    host.  [EXPORT_COLLECTION], [PreFixToken] and the values of
    [BlenderTypes] come from constants.py. *)
Variable modifiers : BObject -> list Modifier.
Variable parent : BObject -> option BObject.
Variable EXPORT_COLLECTION : string.
Variable PreFixToken : list string.
Variables MESH SKELETON : string.

(** The loop of [get_armature_modifier_rig_object]. *)
Fixpoint armature_modifier_object (ms : list Modifier) : option BObject :=
  match ms with
  | [] => None
  | modifier :: rest =>
      if md_type modifier =? "ARMATURE" then
        (* get the object armature that is attached to this modifier *)
        match md_object modifier with
        | Some rig => Some rig
        | None => armature_modifier_object rest
        end
      else armature_modifier_object rest
  end.

Definition get_armature_modifier_rig_object (mesh_object : BObject) : option BObject :=
  armature_modifier_object (modifiers mesh_object).

Definition is_child_of_armature (scene_object : BObject) : bool :=
  match parent scene_object with
  | Some p => ob_type p =? SKELETON
  | None => false
  end.

Definition get_mesh_unreal_type (mesh_object : BObject) : UnrealTypes :=
  if match get_armature_modifier_rig_object mesh_object with
     | Some _ => true
     | None => is_child_of_armature mesh_object
     end
  then SKELETAL_MESH
  else STATIC_MESH.

(** The loop of [get_mesh_object_from_curves]. *)
Fixpoint surface_deform_target (ms : list Modifier) : option BObject :=
  match ms with
  | [] => None
  | modifier :: rest =>
      if md_type modifier =? "SURFACE_DEFORM" then
        match md_target modifier with
        | Some target =>
            if ob_type target =? MESH then Some target
            else surface_deform_target rest
        | None => surface_deform_target rest
        end
      else surface_deform_target rest
  end.

Definition get_mesh_object_from_curves (curves_object : BObject) : option BObject :=
  (* curves object can have modifiers like surfaces deform which attach them to meshes *)
  match surface_deform_target (modifiers curves_object) with
  | Some target => Some target
  | None =>
      (* if no modifiers check if the curves object is the child of a mesh *)
      match parent curves_object with
      | Some p => if ob_type p =? MESH then Some p else None
      | None => None
      end
  end.

Definition get_groom_object_name (curves_object : BObject) (properties : PropertyData)
  : outcome string :=
  match get_mesh_object_from_curves curves_object with
  | Some mesh_object => get_asset_name (ob_name mesh_object) properties false
  | None =>
      (* default to the curves object name if no mesh parent is found *)
      get_asset_name (ob_name curves_object) properties false
  end.

Definition get_meshes_using_armature_modifier (rig_object : BObject) (b : Blender)
  : list BObject :=
  let mesh_objects := get_from_collection EXPORT_COLLECTION PreFixToken MESH b in
  filter
    (fun mesh_object =>
       match get_armature_modifier_rig_object mesh_object with
       | Some rig => same_object rig_object rig
       | None => false
       end)
    mesh_objects.

Definition is_lod_of (asset_name mesh_object_name : string) (properties : PropertyData)
  : outcome bool :=
  match get_asset_name mesh_object_name properties false with
  | Returned name => Returned (asset_name =? name)
  | Raised e => Raised e
  end.

Definition get_asset_collisions (asset_name : string) (properties : PropertyData)
  (b : Blender) : outcome (list BObject) :=
  let mesh_objects := get_from_collection EXPORT_COLLECTION PreFixToken MESH b in
  filter_raising
    (fun mesh_object => is_collision_of asset_name (ob_name mesh_object) properties)
    mesh_objects.

Definition get_asset_lods (asset_name : string) (properties : PropertyData)
  (b : Blender) : outcome (list BObject) :=
  let mesh_objects := get_from_collection EXPORT_COLLECTION PreFixToken MESH b in
  filter_raising
    (fun mesh_object => is_lod_of asset_name (ob_name mesh_object) properties)
    mesh_objects.

End ObjectData.

(** An export collection with a chair, one of its LODs and two collision
    meshes, the second with a space before its name. *)
Definition collision_objects : list BObject :=
  [ mesh "UCX_Chair_01" true; mesh " UCX_Chair_02" true;
    mesh "Chair_LOD1" true; mesh "Chair" true ].

Definition collision_tokens : list string := ["UBX"; "UCP"; "USP"; "UCX"].

(** A rig, and the modifiers and parents of a few meshes bound to it:
    [Body] by its second armature modifier, the first one being unbound,
    [Hat] by an armature modifier that comes after one bound to another
    rig, [Sword] by parenting only. *)
Definition armature (name : string) : BObject :=
  {| ob_name := name; ob_type := "ARMATURE"; ob_visible := true; ob_select := false |}.

Definition armature_modifier (rig : option BObject) : Modifier :=
  {| md_type := "ARMATURE"; md_object := rig; md_target := None;
     md_use_vertex_groups := true |}.

Definition rig_modifiers (o : BObject) : list Modifier :=
  if ob_name o =? "Body" then [armature_modifier None; armature_modifier (Some (armature "Rig"))]
  else if ob_name o =? "Hat"
       then [armature_modifier (Some (armature "Other")); armature_modifier (Some (armature "Rig"))]
       else [].

Definition rig_parent (o : BObject) : option BObject :=
  if ob_name o =? "Sword" then Some (armature "Rig") else None.

Definition rigged_objects : list BObject :=
  [ mesh "Sword" true; mesh "Hat" true; mesh "Body" true; armature "Rig" ].

(* ================================================================= *)
(** ** validations.py: materials, object names and vertex groups *)

(** [str(n)] for a non-negative integer. *)
Definition str_of_nat (n : nat) : string := NilEmpty.string_of_uint (Nat.to_uint n).

Definition newline : string := String "010" EmptyString.

(** [s.lower()] on the code points below 256. *)
Fixpoint lower (s : string) : string :=
  match s with
  | EmptyString => EmptyString
  | String c s' =>
      String (if PyStr.is_upper c then ascii_of_N (PyStr.code c + 32) else c) (lower s')
  end.

(** [re.search(RegexPresets.INVALID_NAME_CHARACTERS, s)] as a truth value:
    the pattern is a repeated negated set, so there is a match when some
    character of [s] is outside the set. *)
Fixpoint search_invalid_name_characters (s : string) : bool :=
  match s with
  | EmptyString => false
  | String c s' => invalid_name_character c || search_invalid_name_characters s'
  end.

(** The continuation of a search: any end of the match will do. *)
Definition search_found : MiniRe.kont := fun _ _ c => Some c.

(** [l.remove(x)] for an [x] that is in [l]: the first occurrence goes. *)
Fixpoint remove_first (x : string) (l : list string) : list string :=
  match l with
  | [] => []
  | y :: l' => if y =? x then l' else y :: remove_first x l'
  end.

(** A polygon of a mesh: its index and the index of its material slot. *)
Record Polygon : Type := {
  pg_index : nat;
  pg_material_index : nat
}.

(** The settings of the property group that the methods below read besides
    those of [PropertyData]. *)
Record ValidationSettings : Type := {
  prop_validate_materials : bool;
  prop_validate_object_names : bool;
  prop_import_meshes : bool;
  prop_validate_meshes_for_vertex_groups : bool
}.

(** [utilities.report_error(message, details); return False] *)
Definition report_details_and_fail (text details : string) : check Blender :=
  fun b =>
    match report_error (Text text) details true b with
    | (b', Raised e) => (b', Raised e)
    | (b', Returned _) => (b', Returned false)
    end.

(** The loop of [validate_materials] over the polygons of one mesh: the
    slot names that no polygon has used up, or the first polygon whose
    material index is out of bounds. *)
Fixpoint unused_materials (slots material_slots : list string) (polygons : list Polygon)
  : list string + Polygon :=
  match polygons with
  | [] => inl material_slots
  | polygon :: rest =>
      if (List.length slots <=? pg_material_index polygon)%nat then inr polygon
      else
        let material := nth (pg_material_index polygon) slots "" in
        (* remove used material names from the list of unused material names *)
        unused_materials slots
          (if existsb (String.eqb material) material_slots
           then remove_first material material_slots
           else material_slots)
          rest
  end.

(** The loop of [validate_object_names]: the name of the first object
    called none, or the quoted names that hold an invalid character. *)
Fixpoint invalid_object_names (export_objects : list BObject) (found : list string)
  : string + list string :=
  match export_objects with
  | [] => inr found
  | blender_object :: rest =>
      if existsb (String.eqb (lower (ob_name blender_object))) ["none"]
      then inl (ob_name blender_object)
      else
        invalid_object_names rest
          (if search_invalid_name_characters (ob_name blender_object)
           then (found ++ [(dquote ++ ob_name blender_object ++ dquote)%string])%list
           else found)
  end.

Section ManagerChecks.
(** The material slots (by name), the polygons, the modifiers and the
    vertex groups of an object are read from the host. *)
Variable material_slots : BObject -> list string.
Variable polygons : BObject -> list Polygon.
Variable modifiers : BObject -> list Modifier.
Variable vertex_groups : BObject -> list string.

(** The loop of [validate_materials] over the mesh objects. *)
Fixpoint check_materials (mesh_objects : list BObject) : check Blender :=
  fun b =>
    match mesh_objects with
    | [] => (b, Returned true)
    | mesh_object :: rest =>
        let slots := material_slots mesh_object in
        if (0 <? List.length slots)%nat then
          (* for each polygon check for its material index *)
          match unused_materials slots slots (polygons mesh_object) with
          | inr polygon =>
              report_details_and_fail "Material index out of bounds!"
                ("Object " ++ dquote ++ ob_name mesh_object ++ dquote
                 ++ " at polygon #" ++ str_of_nat (pg_index polygon)
                 ++ " references invalid material index #"
                 ++ str_of_nat (pg_material_index polygon) ++ ".") b
          | inl [] => check_materials rest b
          | inl (material_slot :: _) =>
              (* iterate over unused materials and report about them *)
              report_and_fail
                ("Mesh " ++ dquote ++ ob_name mesh_object ++ dquote
                 ++ " has a unused material " ++ dquote ++ material_slot ++ dquote) b
          end
        else check_materials rest b
    end.

Definition validate_materials_impl (settings : ValidationSettings) (self : ManagerState)
  : check Blender :=
  fun b =>
    if prop_validate_materials settings
    then check_materials (self_mesh_objects self) b
    else (b, Returned true).

Definition export_objects (settings : ValidationSettings) (self : ManagerState)
  : list BObject :=
  ((if import_grooms (self_properties self) then self_hair_objects self else [])
   ++ (if prop_import_meshes settings
       then self_mesh_objects self ++ self_rig_objects self
       else []))%list.

Definition validate_object_names_impl (settings : ValidationSettings)
  (self : ManagerState) : check Blender :=
  fun b =>
    if prop_validate_object_names settings then
      match invalid_object_names (export_objects settings self) [] with
      | inl name =>
          report_and_fail
            ("Object " ++ dquote ++ name ++ dquote
             ++ " has an invalid name. Please rename it.") b
      | inr [] => (b, Returned true)
      | inr names =>
          report_and_fail
            ("The following blender object(s) contain special characters or "
             ++ "a white space in the name(s):" ++ newline
             ++ String.concat "," names ++ newline
             ++ "Note: the only valid special characters "
             ++ "are " ++ dquote ++ "+" ++ dquote ++ ", " ++ dquote ++ "-" ++ dquote
             ++ " and " ++ dquote ++ "_" ++ dquote ++ ".") b
      end
    else (b, Returned true).

(** The names that [validate_meshes_for_vertex_groups] collects: one entry
    for each armature modifier that uses vertex groups on a mesh without
    vertex groups. *)
Definition missing_vertex_groups (mesh_objects : list BObject) : list string :=
  flat_map
    (fun mesh_object =>
       flat_map
         (fun modifier =>
            if (md_type modifier =? "ARMATURE")
               && (md_use_vertex_groups modifier
                   && is_nil (vertex_groups mesh_object))
            then [ob_name mesh_object]
            else [])
         (modifiers mesh_object))
    mesh_objects.

Definition validate_meshes_for_vertex_groups_impl (settings : ValidationSettings)
  (self : ManagerState) : check Blender :=
  fun b =>
    let missing :=
      if prop_validate_meshes_for_vertex_groups settings
      then missing_vertex_groups (self_mesh_objects self)
      else [] in
    match missing with
    | [] => (b, Returned true)
    | _ =>
        let mesh_names :=
          String.concat "" (map (fun mesh_name => dquote ++ mesh_name ++ dquote) missing) in
        report_and_fail
          ("The following blender object(s) " ++ mesh_names
           ++ " have an armature modifier that "
           ++ "that should be assigned to vertex groups, yet no vertex groups were found. "
           ++ "To fix this, assign "
           ++ "the vertices on your rig's mesh to vertex groups that match the armature's "
           ++ "bone names. "
           ++ "Otherwise disable this validation.") b
    end.

End ManagerChecks.

(** Every polygon points at a slot, and every slot name is used by at least
    as many polygons as there are slots of that name. *)
Definition materials_covered (slots : list string) (polygons : list Polygon) : Prop :=
  (forall polygon, In polygon polygons ->
                   (pg_material_index polygon < List.length slots)%nat)
  /\ forall name,
      (count_occ string_dec slots name
       <= count_occ string_dec
            (map (fun polygon => nth (pg_material_index polygon) slots "") polygons)
            name)%nat.

(** A method that either passes, leaving the host alone, or ends in a call
    of [report_error] with the default [raise_exception] followed by
    [return False]. *)
Definition passes_or_reports (validation : check Blender) : Prop :=
  forall b,
    validation b = (b, Returned true)
    \/ exists text details, validation b = report_details_and_fail text details b.

(** Sample meshes: a cube whose two slots hold the same material, used by
    one polygon only, and a plane without slots. *)
Definition material_slots_of (o : BObject) : list string :=
  if ob_name o =? "Cube" then ["Wood"; "Wood"] else [].

Definition polygons_of (o : BObject) : list Polygon :=
  if ob_name o =? "Cube" then [ {| pg_index := 0; pg_material_index := 0 |} ]
  else [ {| pg_index := 0; pg_material_index := 3 |} ].

Definition all_checks : ValidationSettings :=
  {| prop_validate_materials := true;
     prop_validate_object_names := true;
     prop_import_meshes := true;
     prop_validate_meshes_for_vertex_groups := true |}.

Definition manager_of (meshes : list BObject) : ManagerState :=
  {| self_properties := lod_props false "";
     self_mesh_objects := meshes;
     self_rig_objects := [];
     self_hair_objects := [] |}.

(** Vertex groups and modifiers of the sample meshes: [Body] and [Hat]
    carry armature modifiers, and only [Body] has vertex groups. *)
Definition vertex_groups_of (o : BObject) : list string :=
  if ob_name o =? "Body" then ["spine"] else [].

(** The methods of the manager that are embedded in full and call the [re]
    module with a constant pattern only or not at all. *)
Definition embedded_validations (EXPORT_COLLECTION : string)
  (material_slots : BObject -> list string) (polygons : BObject -> list Polygon)
  (modifiers : BObject -> list Modifier) (vertex_groups : BObject -> list string)
  (settings : ValidationSettings) (self : ManagerState) : list (check Blender) :=
  [ validate_export_objects_exist_impl EXPORT_COLLECTION self;
    validate_lod_groups_impl self;
    validate_materials_impl material_slots polygons settings self;
    validate_object_names_impl settings self;
    validate_meshes_for_vertex_groups_impl modifiers vertex_groups settings self ].

(* ================================================================= *)
(** ** utilities.py: the collection tree *)

(** A collection: its name, the objects linked to it directly (by name) and
    its child collections. *)
#[warnings="-register-all"] Inductive Collection : Type :=
| Coll (name : string) (objects : list string) (children : list Collection).

Definition coll_name (c : Collection) : string :=
  match c with Coll name _ _ => name end.

Definition coll_objects (c : Collection) : list string :=
  match c with Coll _ objects _ => objects end.

Definition coll_children (c : Collection) : list Collection :=
  match c with Coll _ _ children => children end.

(** [scene_object] is one of [collection.objects]. *)
Definition holds_object (scene_object : string) (collection : Collection) : bool :=
  existsb (String.eqb scene_object) (coll_objects collection).

(** The walk of [get_parent_collection]: the children are visited in order;
    a child that holds the object gives its name, otherwise the walk goes
    into the child and goes on with the next child when that returns
    nothing or an empty name. *)
Fixpoint get_parent_collection (scene_object : string) (collection : Collection)
  : option string :=
  match collection with
  | Coll _ _ children =>
      (fix walk (cs : list Collection) : option string :=
         match cs with
         | [] => None
         | child_collection :: rest =>
             if holds_object scene_object child_collection
             then Some (coll_name child_collection)
             else
               match get_parent_collection scene_object child_collection with
               | Some parent_collection =>
                   if negb (parent_collection =? "") then Some parent_collection
                   else walk rest
               | None => walk rest
               end
         end) children
  end.

(** The collections below a collection, parents before children and
    siblings in order. *)
Fixpoint descendants (collection : Collection) : list Collection :=
  match collection with
  | Coll _ _ children =>
      flat_map (fun child => child :: descendants child) children
  end.

(** Induction on a collection with the property known of all children. *)
Section CollectionInduction.
Variable P : Collection -> Prop.
Hypothesis step :
  forall name objects children, Forall P children -> P (Coll name objects children).

Fixpoint Collection_forall_ind (c : Collection) : P c :=
  match c with
  | Coll name objects children =>
      step name objects children
        ((fix all (cs : list Collection) : Forall P cs :=
            match cs with
            | [] => Forall_nil P
            | c' :: cs' => Forall_cons c' (Collection_forall_ind c') (all cs')
            end) children)
  end.

End CollectionInduction.

(** A scene collection with the export collection and a nested one. *)
Definition scene_collection : Collection :=
  Coll "Scene Collection" ["Camera"]
    [ Coll "Export" ["Chair"]
        [ Coll "Props" ["Lamp"] []; Coll "Spare" ["Lamp"; "Table"] [] ];
      Coll "Rigs" ["Rig"; "Table"] [] ].

(* ================================================================= *)
(** ** utilities.py: asset ids *)

Module PyBytes.

(** A [bytes] object is a list of numbers below 256. *)
Definition is_bytes (data : list N) : Prop := Forall (fun b => (b < 256)%N) data.

(** [s.encode('utf-8')] on code points below 256: one byte for a code
    point below 128, a lead byte and a continuation byte otherwise. *)
Definition utf8_encode_char (c : ascii) : list N :=
  let n := N_of_ascii c in
  if (n <? 128)%N then [n] else [(192 + n / 64)%N; (128 + n mod 64)%N].

Fixpoint utf8_encode (s : string) : list N :=
  match s with
  | EmptyString => []
  | String c s' => (utf8_encode_char c ++ utf8_encode s')%list
  end.

(** [data.decode('utf-8')] for data that decodes to code points below 256;
    [None] stands for UnicodeDecodeError and for the other code points. *)
Fixpoint utf8_decode (data : list N) : option string :=
  match data with
  | [] => Some EmptyString
  | b :: rest =>
      if (b <? 128)%N then option_map (String (ascii_of_N b)) (utf8_decode rest)
      else
        match rest with
        | b2 :: rest' =>
            if (((b =? 194) || (b =? 195)) && ((128 <=? b2) && (b2 <? 192)))%N
            then option_map (String (ascii_of_N ((b - 192) * 64 + (b2 - 128))))
                   (utf8_decode rest')
            else None
        | [] => None
        end
  end.

Definition b64_alphabet : string :=
  "ABCDEFGHIJKLMNOPQRSTUVWXYZabcdefghijklmnopqrstuvwxyz0123456789+/".

Definition b64_pad : N := 61.

(** The character that stands for a six-bit value. *)
Definition b64_digit (v : N) : N :=
  match String.get (N.to_nat v) b64_alphabet with
  | Some c => N_of_ascii c
  | None => b64_pad
  end.

(** [base64.b64encode]: each group of three bytes is read as a number of
    24 bits and written as four six-bit values; a last group of one or two
    bytes is filled with zero bits to a multiple of six and padded to four
    characters. *)
Fixpoint b64encode (data : list N) : list N :=
  match data with
  | [] => []
  | [a] =>
      let n := (a * 16)%N in
      [b64_digit (n / 64); b64_digit (n mod 64); b64_pad; b64_pad]
  | [a; b] =>
      let n := ((a * 256 + b) * 4)%N in
      [b64_digit (n / 4096); b64_digit (n / 64 mod 64); b64_digit (n mod 64); b64_pad]
  | a :: b :: c :: rest =>
      let n := (a * 65536 + b * 256 + c)%N in
      b64_digit (n / 262144) :: b64_digit (n / 4096 mod 64)
        :: b64_digit (n / 64 mod 64) :: b64_digit (n mod 64) :: b64encode rest
  end.

(** The six-bit value of a character of the alphabet. *)
Definition b64_value (d : N) : option N :=
  if ((65 <=? d) && (d <=? 90))%N then Some (d - 65)%N
  else if ((97 <=? d) && (d <=? 122))%N then Some (d - 71)%N
  else if ((48 <=? d) && (d <=? 57))%N then Some (d + 4)%N
  else if (d =? 43)%N then Some 62%N
  else if (d =? 47)%N then Some 63%N
  else None.

(** A decoder for the output of [b64encode]. *)
Fixpoint b64decode (text : list N) : option (list N) :=
  match text with
  | [] => Some []
  | d0 :: d1 :: d2 :: d3 :: rest =>
      match b64_value d0, b64_value d1 with
      | Some v0, Some v1 =>
          if (d2 =? b64_pad)%N then
            if (d3 =? b64_pad)%N && is_nil rest
            then Some [((v0 * 64 + v1) / 16)%N]
            else None
          else
            match b64_value d2 with
            | Some v2 =>
                if (d3 =? b64_pad)%N then
                  if is_nil rest then
                    let n := ((v0 * 4096 + v1 * 64 + v2) / 4)%N in
                    Some [(n / 256)%N; (n mod 256)%N]
                  else None
                else
                  match b64_value d3, b64decode rest with
                  | Some v3, Some tail =>
                      let n := (v0 * 262144 + v1 * 4096 + v2 * 64 + v3)%N in
                      Some ((n / 65536)%N :: (n / 256 mod 256)%N :: (n mod 256)%N :: tail)
                  | _, _ => None
                  end
            | None => None
            end
      | _, _ => None
      end
  | _ => None
  end.

(** A character of the base64 alphabet, or the padding character. *)
Definition is_b64_char (c : ascii) : bool :=
  PyStr.is_ascii_letter c || PyStr.is_decimal c
  || (c =? "+")%char || (c =? "/")%char || (c =? "=")%char.

Fixpoint all_b64 (s : string) : bool :=
  match s with
  | EmptyString => true
  | String c s' => is_b64_char c && all_b64 s'
  end.

(** Text made of characters below 128 that belong to the alphabet. *)
Definition is_ascii_text (text : list N) : Prop :=
  Forall (fun d => (d <? 128)%N = true /\ is_b64_char (ascii_of_N d) = true) text.

End PyBytes.

Definition get_asset_id (file_path : string) : option string :=
  let file_path_bytes := PyBytes.utf8_encode file_path in
  let base64_bytes := PyBytes.b64encode file_path_bytes in
  PyBytes.utf8_decode base64_bytes.

(* ================================================================= *)
(** ** utilities.py: the asset name of a file

    [os.path] is modelled on the [posixpath] module, which it is on a
    POSIX host. *)

Module PosixPath.

(** [p.rfind(c)]: the index of the last [c] in [p], or -1. *)
Fixpoint rfind (c : ascii) (p : string) : Z :=
  match p with
  | EmptyString => (-1)%Z
  | String d p' =>
      let i := rfind c p' in
      if (0 <=? i)%Z then (i + 1)%Z
      else if (d =? c)%char then 0%Z else (-1)%Z
  end.

(** [p[:n]] *)
Fixpoint take (n : nat) (p : string) : string :=
  match n, p with
  | O, _ => EmptyString
  | S _, EmptyString => EmptyString
  | S n', String c p' => String c (take n' p')
  end.

(** [p[i:]] and [p[:i]] for an index that is not negative. *)
Definition slice_from (i : Z) (p : string) : string := PyStr.drop (Z.to_nat i) p.
Definition slice_to (i : Z) (p : string) : string := take (Z.to_nat i) p.

Definition basename (p : string) : string :=
  let i := (rfind "/" p + 1)%Z in
  slice_from i p.

(** The loop of [splitext] that skips the leading dots of the file name:
    true when a character that is not a dot comes before [dotIndex];
    [steps] is the distance from [filenameIndex] to [dotIndex]. *)
Fixpoint name_before_dot (p : string) (filenameIndex steps : nat) : bool :=
  match steps with
  | O => false
  | S steps' =>
      match String.get filenameIndex p with
      | Some c =>
          if negb (c =? ".")%char then true
          else name_before_dot p (S filenameIndex) steps'
      | None => true
      end
  end.

Definition splitext (p : string) : string * string :=
  let sepIndex := rfind "/" p in
  let dotIndex := rfind "." p in
  if (sepIndex <? dotIndex)%Z then
    (* skip all leading dots *)
    let filenameIndex := (sepIndex + 1)%Z in
    if name_before_dot p (Z.to_nat filenameIndex) (Z.to_nat (dotIndex - filenameIndex))
    then (slice_to dotIndex p, slice_from dotIndex p)
    else (p, EmptyString)
  else (p, EmptyString).

(** [c in s] *)
Fixpoint contains (c : ascii) (s : string) : bool :=
  match s with
  | EmptyString => false
  | String d s' => (d =? c)%char || contains c s'
  end.

End PosixPath.

(** [None] is what the function returns for an empty path. *)
Definition get_asset_name_from_file_name (file_path : string) : option string :=
  if negb (file_path =? "")
  then Some (fst (PosixPath.splitext (PosixPath.basename file_path)))
  else None.

(** Every character of [s] is a dot. *)
Fixpoint all_dots (s : string) : bool :=
  match s with
  | EmptyString => true
  | String c s' => (c =? ".")%char && all_dots s'
  end.

(** A curves object deformed onto a mesh and parented to a rig, and the
    modifiers of the sample curves: the first surface deform modifier has
    no target, the second targets the rig, the third the head mesh. *)
Definition surface_deform (target : option BObject) : Modifier :=
  {| md_type := "SURFACE_DEFORM"; md_object := None; md_target := target;
     md_use_vertex_groups := false |}.

Definition curves (name : string) : BObject :=
  {| ob_name := name; ob_type := "CURVES"; ob_visible := true; ob_select := false |}.

Definition hair_modifiers (o : BObject) : list Modifier :=
  if ob_name o =? "Hair"
  then [surface_deform None; surface_deform (Some (armature "Rig"));
        surface_deform (Some (mesh "Head LOD0" true))]
  else [].

Definition hair_parent (o : BObject) : option BObject :=
  if ob_name o =? "Hair" then Some (armature "Rig")
  else if ob_name o =? "Brows" then Some (mesh "Face" true)
  else None.

(** [s] is empty or starts with a character that is not a space. *)
Definition starts_clean (s : string) : Prop :=
  match s with
  | EmptyString => True
  | String c _ => PyStr.is_space c = false
  end.

(* ================================================================= *)
(** * Properties *)

(* ================================================================= *)
(** ** Error reporting *)

(** C8, as stated, fails: with the environment variable unset and the default
    [raise_exception=True], which is how every validation calls it,
    [report_error] raises. *)
Lemma report_error_raises_with_variable_unset :
  environ_SEND2UE_DEV empty_host = None /\
  report_error (Text "Scene scale is not 1! Please set it to 1.") "" true empty_host
  = (empty_host, Raised (RuntimeError "Scene scale is not 1! Please set it to 1.")).
Proof. split; reflexivity. Qed.

(** C8, amended: for a text message [report_error] raises exactly when the
    environment variable is set to a non-empty value, or is unset while
    [raise_exception] is true; the exception is a RuntimeError carrying the
    message followed by the details and nothing is recorded.  Otherwise the
    message and the details are stored on the window manager state, one
    popup titled Error is shown, and the call returns. *)
Theorem report_error_channels :
  forall (m details : string) (raise_exception : bool) (b : Blender),
    let b' := fst (report_error (Text m) details raise_exception b) in
    let r := snd (report_error (Text m) details raise_exception b) in
    ((exists e, r = Raised e) <->
     ((exists v, environ_SEND2UE_DEV b = Some v /\ v <> "")
      \/ (environ_SEND2UE_DEV b = None /\ raise_exception = true)))
    /\ (forall e, r = Raised e -> e = RuntimeError (m ++ details) /\ b' = b)
    /\ (r = Returned tt ->
        error_message b' = m /\ error_message_details b' = details
        /\ popup_menus b' = (popup_menus b ++ ["Error"])%list
        /\ scene_objects b' = scene_objects b).
Proof.
  intros m details raise_exception b b' r; subst b' r.
  unfold report_error, environ_get_truth.
  destruct (environ_SEND2UE_DEV b) as [v|] eqn:Henv.
  - destruct (String.eqb_spec v "") as [Hv|Hv]; cbn.
    + repeat split.
      * intros [e He]; discriminate.
      * intros [(v' & Hv' & Hne)|[Hnone _]]; [|discriminate].
        injection Hv' as <-. contradiction.
      * discriminate.
      * discriminate.
    + repeat split; try discriminate.
      * intros _. left. exists v. split; [reflexivity|assumption].
      * intros _. eexists; reflexivity.
      * now injection H as <-.
  - destruct raise_exception; cbn.
    + repeat split; try discriminate.
      * intros _. right. split; reflexivity.
      * intros _. eexists; reflexivity.
      * now injection H as <-.
    + repeat split.
      * intros [e He]; discriminate.
      * intros [(v' & Hv' & _)|[_ Hr]]; discriminate.
      * discriminate.
      * discriminate.
Qed.

(** With the variable unset and [raise_exception=False], as
    [is_unreal_connected] calls it, the error goes to the popup. *)
Lemma report_error_channels_witness :
  let b' := fst (report_error (Text "Could not find an open Unreal Editor instance!")
                   "" false empty_host) in
  error_message b' = "Could not find an open Unreal Editor instance!"
  /\ error_message_details b' = ""
  /\ popup_menus b' = ["Error"]
  /\ scene_objects b' = [].
Proof.
  apply (proj2 (proj2 (report_error_channels
                         "Could not find an open Unreal Editor instance!" ""
                         false empty_host))).
  reflexivity.
Defined.

(** The warning marker is printed and never raises or records anything. *)
Lemma report_error_warning :
  forall details raise_exception b,
    report_error WarningSet details raise_exception b
    = (print ("{'WARNING'} " ++ details) b, Returned tt).
Proof. reflexivity. Qed.

(* ================================================================= *)
(** ** The validation pipeline *)

Section Pipeline.
Context {St : Type}.
Implicit Types (vs pre post : list (check St)) (v : check St) (s : St).

Lemma all_pass_app : forall pre post s s' s'',
  all_pass pre s s' -> all_pass post s' s'' -> all_pass (pre ++ post) s s''.
Proof.
  intros pre post s s' s'' Hpre; revert post s''.
  induction Hpre; intros post sf Hpost; cbn; [assumption|].
  econstructor; eauto.
Qed.

(** The loop answers true exactly when every check does. *)
Lemma run_validations_true : forall vs s s',
  run_validations vs s = (s', Returned true) <-> all_pass vs s s'.
Proof.
  induction vs as [|v vs IH]; intros s s'; cbn.
  - split.
    + intros H; injection H as <-; constructor.
    + intros H; inversion H; reflexivity.
  - destruct (v s) as [s1 [[|]|e]] eqn:Hv.
    + rewrite IH. split.
      * intros H; econstructor; eauto.
      * intros H; inversion H; subst. congruence.
    + split; [discriminate|].
      intros H; inversion H; subst; congruence.
    + split; [discriminate|].
      intros H; inversion H; subst; congruence.
Qed.

(** The loop answers false exactly when some check does after all the
    checks before it passed; the state returned is the one that check left,
    so that nothing after it has run. *)
Lemma run_validations_false : forall vs s s',
  run_validations vs s = (s', Returned false) <->
  exists pre v post s1,
    vs = (pre ++ v :: post)%list /\ all_pass pre s s1 /\ v s1 = (s', Returned false).
Proof.
  induction vs as [|v vs IH]; intros s s'; cbn.
  - split; [discriminate|].
    intros (pre & v & post & s1 & Heq & _); destruct pre; discriminate.
  - destruct (v s) as [s1 [[|]|e]] eqn:Hv.
    + rewrite IH. split.
      * intros (pre & w & post & s2 & -> & Hpre & Hw).
        exists (v :: pre), w, post, s2. repeat split; auto.
        econstructor; eauto.
      * intros (pre & w & post & s2 & Heq & Hpre & Hw).
        destruct pre as [|p pre]; cbn in Heq; injection Heq as -> ->.
        -- inversion Hpre; subst; congruence.
        -- inversion Hpre; subst.
           assert (s1 = s'0) by congruence; subst.
           exists pre, w, post, s2; auto.
    + split.
      * intros H; injection H as <-.
        exists [], v, vs, s. repeat split; auto. constructor.
      * intros (pre & w & post & s2 & Heq & Hpre & Hw).
        destruct pre as [|p pre]; cbn in Heq; injection Heq as -> ->.
        -- inversion Hpre; subst; congruence.
        -- inversion Hpre; subst; congruence.
    + split; [discriminate|].
      intros (pre & w & post & s2 & Heq & Hpre & Hw).
      destruct pre as [|p pre]; cbn in Heq; injection Heq as -> ->.
      * inversion Hpre; subst; congruence.
      * inversion Hpre; subst; congruence.
Qed.

(** Instrumented checks pass exactly like the checks they wrap, and log
    their names in order. *)
Lemma all_pass_logged : forall pre names s s' log,
  all_pass pre s s' -> length pre <= length names ->
  all_pass (zip_logged names pre) (s, log)
    (s', (log ++ firstn (length pre) names)%list).
Proof.
  intros pre names s s' log Hpre; revert names log.
  induction Hpre as [s|v vs s s1 s2 Hv Hvs IH]; intros names log Hlen; cbn.
  - destruct names; cbn; rewrite app_nil_r; constructor.
  - destruct names as [|name names]; cbn in *; [lia|].
    econstructor.
    + unfold logged; cbn. rewrite Hv. reflexivity.
    + replace (log ++ name :: firstn (length vs) names)%list
        with ((log ++ [name]) ++ firstn (length vs) names)%list
        by (rewrite <- app_assoc; reflexivity).
      apply IH. lia.
Qed.

Lemma zip_logged_app : forall pre v post names,
  length (pre ++ v :: post) = length names ->
  exists name,
    nth_error names (length pre) = Some name /\
    zip_logged names (pre ++ v :: post)
    = (zip_logged names pre ++ logged name v
         :: zip_logged (skipn (S (length pre)) names) post)%list.
Proof.
  induction pre as [|p pre IH]; intros v post names Hlen.
  - destruct names as [|name names]; [discriminate|].
    exists name. split; reflexivity.
  - destruct names as [|n0 names]; [discriminate|].
    cbn in Hlen. injection Hlen as Hlen.
    destruct (IH v post names Hlen) as (name & Hnth & Heq).
    exists name. split; [assumption|].
    cbn. rewrite Heq. reflexivity.
Qed.

End Pipeline.

Lemma firstn_snoc : forall (names : list string) (n : nat) (name : string),
  nth_error names n = Some name ->
  (firstn n names ++ [name])%list = firstn (S n) names.
Proof.
  induction names as [|n0 names IH]; intros [|n] name Hnth; cbn in *;
    try discriminate.
  - now injection Hnth as ->.
  - f_equal. apply IH. assumption.
Qed.

Lemma validations_instrumented : forall {St : Type} (self : ValidationManager St),
  validations (instrumented self) = zip_logged validation_names (validations self).
Proof. reflexivity. Qed.

(** C1: [run_pre_validations] runs its fourteen methods in the listed order.
    It returns False exactly when one of them returns false after all the
    earlier ones returned true, with the state that method left; it returns
    True exactly when all of them return true.  With every method
    instrumented to log its call, the log of a run that returns False is the
    list of method names up to and including the failing one, so no later
    method was called, and the log of a run that returns True is the whole
    list. *)
Theorem run_pre_validations_fail_fast :
  forall (St : Type) (self : ValidationManager St) (s s' : St),
    (run_pre_validations self s = (s', Returned false) <->
     exists pre v post s1,
       validations self = (pre ++ v :: post)%list
       /\ all_pass pre s s1 /\ v s1 = (s', Returned false))
    /\ (run_pre_validations self s = (s', Returned true) <->
        all_pass (validations self) s s')
    /\ (forall pre v post s1,
           validations self = (pre ++ v :: post)%list ->
           all_pass pre s s1 -> v s1 = (s', Returned false) ->
           run_pre_validations (instrumented self) (s, [])
           = ((s', firstn (S (length pre)) validation_names), Returned false))
    /\ (all_pass (validations self) s s' ->
        run_pre_validations (instrumented self) (s, [])
        = ((s', validation_names), Returned true)).
Proof.
  intros St self s s'. unfold run_pre_validations.
  split; [apply run_validations_false|].
  split; [apply run_validations_true|].
  split.
  - intros pre v post s1 Heq Hpre Hv.
    assert (Hlen : length (pre ++ v :: post) = length validation_names)
      by (rewrite <- Heq; reflexivity).
    destruct (zip_logged_app pre v post validation_names Hlen) as (name & Hnth & Hzip).
    apply run_validations_false.
    exists (zip_logged validation_names pre), (logged name v),
      (zip_logged (skipn (S (length pre)) validation_names) post),
      (s1, firstn (length pre) validation_names).
    split; [|split].
    + rewrite validations_instrumented, Heq. exact Hzip.
    + apply (all_pass_logged pre validation_names s s1 [] Hpre).
      rewrite <- Hlen, length_app. lia.
    + unfold logged; cbn [fst snd]. rewrite Hv.
      rewrite (firstn_snoc _ _ _ Hnth). reflexivity.
  - intros Hall.
    apply run_validations_true.
    rewrite validations_instrumented.
    pose proof (all_pass_logged (validations self) validation_names s s' [] Hall) as H.
    cbn [app length validations firstn] in H. apply H. cbn. lia.
Qed.

(** The stubs of the spec's call-count test: the fifth method answers false,
    five calls are logged and the run returns False. *)
Lemma run_pre_validations_fail_fast_witness :
  run_pre_validations
    (instrumented (stub_manager [true; true; true; true; false])) (tt, [])
  = ((tt, [ "validate_scene_scale"; "validate_frame_rate";
            "validate_armature_transforms"; "validate_export_objects_exist";
            "validate_lod_groups" ]),
     Returned false).
Proof.
  pose proof (run_pre_validations_fail_fast unit
                (stub_manager [true; true; true; true; false]) tt tt)
    as (_ & _ & Hlog & _).
  apply (Hlog [stub [true; true; true; true; false] 0;
               stub [true; true; true; true; false] 1;
               stub [true; true; true; true; false] 2;
               stub [true; true; true; true; false] 3]
              (stub [true; true; true; true; false] 4)
              (skipn 5 (validations (stub_manager [true; true; true; true; false])))
              tt).
  - reflexivity.
  - repeat (econstructor; [reflexivity|]). constructor.
  - reflexivity.
Defined.

(** The manager of the add-on on the sample collection, with both LOD
    import and groom import enabled.  Under the default environment the
    fifth method does not return false: [report_error] raises and so does
    the pipeline.  With the variable set to the empty string the method
    returns False after the popup, and the pipeline stops there. *)
Lemma send2ue_pipeline_on_lod_groups :
  let b := host_with_export sample_objects in
  let manager b :=
    send2ue_manager (engine := mini_engine) "Export" passing_host
      (init "Export" ["UBX"; "UCP"; "USP"; "UCX"]
         "MESH" "ARMATURE" "CURVES" lods_and_grooms b) in
  run_pre_validations (manager b) b
  = (b, Raised (RuntimeError
                  ("Groom LODs are currently unsupported at this time. "
                   ++ "Please disable either import LODs or import groom.")))
  /\ run_pre_validations (instrumented (manager (with_environ (Some "") b)))
       (with_environ (Some "") b, [])
     = ((set_error
           ("Groom LODs are currently unsupported at this time. "
            ++ "Please disable either import LODs or import groom.")
           "" (with_environ (Some "") b),
         firstn 5 validation_names),
        Returned false).
Proof. split; vm_compute; reflexivity. Qed.

(* ================================================================= *)
(** ** The export collection *)

Lemma compare_not_gt_trans : forall a b c : string,
  String.compare a b <> Gt -> String.compare b c <> Gt -> String.compare a c <> Gt.
Proof.
  induction a as [|x a IH]; intros [|y b] [|z c]; cbn; try congruence.
  unfold Ascii.compare.
  destruct (N.compare_spec (N_of_ascii x) (N_of_ascii y)) as [Hxy|Hxy|Hxy];
    destruct (N.compare_spec (N_of_ascii y) (N_of_ascii z)) as [Hyz|Hyz|Hyz];
    destruct (N.compare_spec (N_of_ascii x) (N_of_ascii z)) as [Hxz|Hxz|Hxz];
    try congruence; try lia.
  apply IH.
Qed.

Lemma str_le_trans : forall a b c,
  str_le a b = true -> str_le b c = true -> str_le a c = true.
Proof.
  unfold str_le, String.leb. intros a b c Hab Hbc.
  pose proof (compare_not_gt_trans a b c) as H.
  destruct (String.compare a b), (String.compare b c), (String.compare a c);
    try reflexivity; try discriminate; exfalso; apply H; congruence.
Qed.

Lemma str_le_refl : forall a, str_le a a = true.
Proof.
  intros a. destruct (String.leb_total a a); assumption.
Qed.

Lemma insert_by_name_perm : forall o l, Permutation (o :: l) (insert_by_name o l).
Proof.
  induction l as [|x l IH]; cbn; [reflexivity|].
  destruct (str_le (ob_name o) (ob_name x)); [reflexivity|].
  rewrite perm_swap. constructor. assumption.
Qed.

Lemma sorted_by_name_perm : forall l, Permutation l (sorted_by_name l).
Proof.
  induction l as [|x l IH]; cbn; [constructor|].
  rewrite <- insert_by_name_perm. constructor. assumption.
Qed.

Lemma insert_by_name_sorted : forall o l,
  StronglySorted name_le l -> StronglySorted name_le (insert_by_name o l).
Proof.
  induction l as [|x l IH]; intros Hs; cbn.
  - repeat constructor.
  - apply StronglySorted_inv in Hs as [Hl Hx].
    destruct (str_le (ob_name o) (ob_name x)) eqn:Hox.
    + constructor; [constructor; assumption|].
      constructor; [exact Hox|].
      eapply Forall_impl; [|exact Hx].
      intros y Hxy. unfold name_le in *. eapply str_le_trans; eauto.
    + constructor; [apply IH; assumption|].
      eapply Permutation_Forall; [apply insert_by_name_perm|].
      constructor; [|assumption].
      unfold name_le. destruct (String.leb_total (ob_name x) (ob_name o)) as [H|H];
        [exact H|]. unfold str_le in Hox. congruence.
Qed.

Lemma sorted_by_name_sorted : forall l, StronglySorted name_le (sorted_by_name l).
Proof.
  induction l as [|x l IH]; cbn; [constructor|].
  apply insert_by_name_sorted. assumption.
Qed.

Lemma same_name_same_object : forall (l : list BObject) x y,
  NoDup (map ob_name l) -> In x l -> In y l -> ob_name x = ob_name y -> x = y.
Proof.
  induction l as [|a l IH]; intros x y Hnd Hx Hy Heq; [contradiction|].
  cbn in Hnd. inversion Hnd as [|? ? Hnotin Hnd']; subst.
  destruct Hx as [->|Hx], Hy as [->|Hy]; auto.
  - exfalso. apply Hnotin. rewrite Heq. apply in_map. assumption.
  - exfalso. apply Hnotin. rewrite <- Heq. apply in_map. assumption.
Qed.

(** Two lists sorted by name that hold the same objects, with no name used
    twice, are the same list. *)
Lemma sorted_by_name_unique : forall l1 l2,
  StronglySorted name_le l1 -> StronglySorted name_le l2 ->
  Permutation l1 l2 -> NoDup (map ob_name l1) -> l1 = l2.
Proof.
  induction l1 as [|a l1 IH]; intros l2 Hs1 Hs2 Hperm Hnd.
  - apply Permutation_nil in Hperm. congruence.
  - destruct l2 as [|b l2].
    + apply Permutation_sym, Permutation_nil in Hperm. discriminate.
    + apply StronglySorted_inv in Hs1 as [Hs1 Ha].
      apply StronglySorted_inv in Hs2 as [Hs2 Hb].
      assert (Hab : a = b).
      { assert (Hin_a : In a (b :: l2))
          by (eapply Permutation_in; [exact Hperm|left; reflexivity]).
        assert (Hin_b : In b (a :: l1))
          by (eapply Permutation_in; [symmetry; exact Hperm|left; reflexivity]).
        destruct Hin_a as [Hba|Hin_a]; [congruence|].
        destruct Hin_b as [Hab|Hin_b]; [congruence|].
        rewrite Forall_forall in Ha, Hb.
        apply (same_name_same_object (a :: l1)); auto.
        - left; reflexivity.
        - right; assumption.
        - apply String.leb_antisym; [apply Ha|apply Hb]; assumption. }
      subst b. f_equal.
      apply IH; auto.
      * eapply Permutation_cons_inv; eauto.
      * cbn in Hnd. inversion Hnd; assumption.
Qed.

Lemma Permutation_filter_objects : forall (f : BObject -> bool) l l',
  Permutation l l' -> Permutation (filter f l) (filter f l').
Proof.
  intros f l l' H. induction H; cbn.
  - constructor.
  - destruct (f x); [constructor|]; assumption.
  - destruct (f x), (f y); try reflexivity. apply perm_swap.
  - etransitivity; eauto.
Qed.

Lemma NoDup_names_filter : forall (f : BObject -> bool) l,
  NoDup (map ob_name l) -> NoDup (map ob_name (filter f l)).
Proof.
  induction l as [|x l IH]; cbn; intros Hnd; [constructor|].
  inversion Hnd as [|? ? Hnotin Hnd']; subst.
  destruct (f x); cbn; [constructor|]; auto.
  intros Hin. apply Hnotin.
  apply in_map_iff in Hin as (y & Hy & Hin).
  apply filter_In in Hin as [Hin _].
  rewrite <- Hy. apply in_map. assumption.
Qed.

Section CollectionProperties.
Variable EXPORT_COLLECTION : string.
Variable PreFixToken : list string.

(** C10: [get_from_collection] returns exactly the objects of the export
    collection that have the requested type, are visible and whose name does
    not start with a prefix token followed by an underscore; the list is in
    ascending order of name; and, names being unique, it is the same list
    whatever the order in which the collection holds its objects. *)
Theorem get_from_collection_sorted :
  forall (object_type : string) (b : Blender),
    (forall o,
        In o (get_from_collection EXPORT_COLLECTION PreFixToken object_type b) <->
        exists all_objects,
          collections_get EXPORT_COLLECTION (collections b) = Some all_objects
          /\ In o all_objects
          /\ ob_type o = object_type
          /\ ob_visible o = true
          /\ forall token, In token PreFixToken ->
                           PyStr.startswith (ob_name o) (token ++ "_") = false)
    /\ StronglySorted (fun x y => str_le (ob_name x) (ob_name y) = true)
         (get_from_collection EXPORT_COLLECTION PreFixToken object_type b)
    /\ (forall b' all_objects all_objects',
           collections_get EXPORT_COLLECTION (collections b) = Some all_objects ->
           collections_get EXPORT_COLLECTION (collections b') = Some all_objects' ->
           Permutation all_objects all_objects' ->
           NoDup (map ob_name all_objects) ->
           get_from_collection EXPORT_COLLECTION PreFixToken object_type b'
           = get_from_collection EXPORT_COLLECTION PreFixToken object_type b).
Proof.
  intros object_type b. unfold get_from_collection.
  split; [|split].
  - intros o. split.
    + intros Hin.
      apply (Permutation_in _ (Permutation_sym (sorted_by_name_perm _))) in Hin.
      destruct (collections_get EXPORT_COLLECTION (collections b)) as [objs|];
        [|contradiction].
      apply filter_In in Hin as [Hin Hex].
      unfold exportable in Hex.
      apply andb_true_iff in Hex as [Hex Hpre].
      apply andb_true_iff in Hex as [Hty Hvis].
      exists objs. repeat split; auto.
      * apply String.eqb_eq. assumption.
      * intros token Htok.
        apply negb_true_iff in Hpre. unfold has_prefix_token in Hpre.
        destruct (PyStr.startswith (ob_name o) (token ++ "_")) eqn:Hs; [|reflexivity].
        assert (existsb (fun t => PyStr.startswith (ob_name o) (t ++ "_")) PreFixToken
                = true) by (apply existsb_exists; eauto).
        congruence.
    + intros (objs & Hget & Hin & Hty & Hvis & Hpre).
      rewrite Hget.
      apply (Permutation_in _ (sorted_by_name_perm _)).
      apply filter_In. split; [assumption|].
      unfold exportable. rewrite Hvis.
      apply String.eqb_eq in Hty. rewrite Hty. cbn.
      apply negb_true_iff. unfold has_prefix_token.
      destruct (existsb _ PreFixToken) eqn:Hex; [|reflexivity].
      apply existsb_exists in Hex as (token & Htok & Hs).
      rewrite (Hpre token Htok) in Hs. discriminate.
  - apply sorted_by_name_sorted.
  - intros b' objs objs' Hget Hget' Hperm Hnd.
    rewrite Hget, Hget'. symmetry.
    apply sorted_by_name_unique.
    + apply sorted_by_name_sorted.
    + apply sorted_by_name_sorted.
    + rewrite <- !sorted_by_name_perm.
      apply Permutation_filter_objects. assumption.
    + eapply Permutation_NoDup.
      * apply Permutation_map. apply sorted_by_name_perm.
      * apply NoDup_names_filter. assumption.
Qed.

End CollectionProperties.

(** The sample collection read in two orders gives the same sorted meshes. *)
Lemma get_from_collection_sorted_witness :
  get_from_collection "Export" ["UBX"; "UCP"; "USP"; "UCX"] "MESH"
    (host_with_export (rev sample_objects))
  = get_from_collection "Export" ["UBX"; "UCP"; "USP"; "UCX"] "MESH"
      (host_with_export sample_objects)
  /\ map ob_name (get_from_collection "Export" ["UBX"; "UCP"; "USP"; "UCX"] "MESH"
                    (host_with_export sample_objects))
     = ["Chair"; "Table"].
Proof.
  split; [|reflexivity].
  apply (proj2 (proj2 (get_from_collection_sorted "Export" ["UBX"; "UCP"; "USP"; "UCX"]
                         "MESH" (host_with_export sample_objects)))
           (host_with_export (rev sample_objects)) sample_objects (rev sample_objects)).
  - reflexivity.
  - reflexivity.
  - apply Permutation_rev.
  - cbn. repeat constructor; cbn; intuition discriminate.
Defined.

(* ================================================================= *)
(** ** Saving and restoring the context *)

Lemma deselect_all_unselected : forall objects,
  unselected (deselect_all_objects objects) = unselected objects.
Proof.
  intros objects. unfold unselected, deselect_all_objects. rewrite map_map.
  apply map_ext. intros [key o]. cbn. destruct (so_in_scene o); reflexivity.
Qed.

Lemma update_object_unselected : forall r g objects,
  unselected (update_object r (fun o => with_select (g o) o) objects)
  = unselected objects.
Proof.
  intros r g. induction objects as [|[key o] rest IH]; [reflexivity|].
  cbn [update_object]. destruct (key =? r)%nat.
  - reflexivity.
  - unfold unselected in *. cbn [map]. rewrite IH. reflexivity.
Qed.

Lemma select_set_unselected : forall r state objects,
  unselected (fst (select_set r state objects)) = unselected objects.
Proof.
  intros r state objects. unfold select_set.
  destruct (lookup_object r objects) as [o|]; [|reflexivity].
  destruct (so_in_scene o).
  - cbn [fst]. apply update_object_unselected.
  - destruct state; reflexivity.
Qed.

Lemma restore_selection_unselected : forall selected_objects objects,
  unselected (fst (restore_selection selected_objects objects)) = unselected objects.
Proof.
  induction selected_objects as [|r rest IH]; intros objects; [reflexivity|].
  cbn [restore_selection].
  destruct (lookup_object r objects) as [o|]; [|reflexivity].
  destruct (name_in_scene (so_name o) objects); [|apply IH].
  pose proof (select_set_unselected r true objects) as Hstep.
  destruct (select_set r true objects) as [objects' [u|e]]; cbn [fst] in Hstep.
  - rewrite IH. exact Hstep.
  - exact Hstep.
Qed.

(** The objects that [set_context] leaves are those of
    [restore_selection], whatever the outcome. *)
Lemma set_context_objects : forall context_data s,
  data_objects (fst (set_context context_data s))
  = fst (restore_selection
           (match ctx_selected_objects context_data with Some l => l | None => [] end)
           (deselect_all_objects (data_objects s))).
Proof.
  intros context_data s. unfold set_context.
  destruct (restore_selection _ _) as [objects [u|e]]; [|reflexivity].
  destruct (restore_active _ _ _) as [active [u'|e]]; reflexivity.
Qed.

Lemma set_context_unselected : forall context_data s,
  unselected (data_objects (fst (set_context context_data s)))
  = unselected (data_objects s).
Proof.
  intros context_data s.
  rewrite set_context_objects, restore_selection_unselected.
  apply deselect_all_unselected.
Qed.

(** The restore follows the reference, not the name: a cube renamed after
    the capture is selected and made active again. *)
Lemma set_context_follows_references :
  set_context (get_current_context scene_before) scene_renamed
  = ({| data_objects := [(1, cube "Box" true true)];
        view_layer_active := Some 1; scene_frame_current := 1 |}, Returned tt).
Proof. reflexivity. Qed.

(** C9: the code does not keep to the claim.  [get_current_context]
    captures the visible objects, and [set_context] never reads them.  A
    cube that is visible, selected and active at frame 1 is captured, then
    hidden at frame 10: the restore brings back the frame and the active
    object, and leaves the cube hidden and, a hidden object not being
    selectable, unselected, so that a second capture differs from the first
    in the visible and in the selected objects.  When the cube is removed
    from the file instead, the restore raises ReferenceError at the captured
    reference and the frame stays at 10.  In general [set_context] changes
    nothing of an object but its selection. *)
Theorem set_context_leaves_visibility :
  get_current_context scene_before
  = {| ctx_active_object := Some 1; ctx_selected_objects := Some [1];
       ctx_current_frame := Some 1%Z; ctx_visible_objects := Some [1] |}
  /\ set_context (get_current_context scene_before) scene_hidden
     = ({| data_objects := [(1, cube "Cube" false false)];
           view_layer_active := Some 1; scene_frame_current := 1 |}, Returned tt)
  /\ get_current_context
       (fst (set_context (get_current_context scene_before) scene_hidden))
     = {| ctx_active_object := Some 1; ctx_selected_objects := Some [];
          ctx_current_frame := Some 1%Z; ctx_visible_objects := Some [] |}
  /\ set_context (get_current_context scene_before) scene_removed
     = (scene_removed, Raised ReferenceError)
  /\ (forall (context_data : ContextData) (s : Scene),
        unselected (data_objects (fst (set_context context_data s)))
        = unselected (data_objects s)).
Proof.
  split; [reflexivity|]. split; [reflexivity|]. split; [reflexivity|].
  split; [reflexivity|]. exact set_context_unselected.
Qed.

(* ================================================================= *)
(** ** Python string operations *)

Module PyStrFacts.
Import PyStr.

Lemma append_assoc : forall a b c : string, (a ++ b) ++ c = a ++ (b ++ c).
Proof.
  induction a as [|x a IH]; intros b c; cbn; [reflexivity|].
  now rewrite IH.
Qed.

Lemma append_empty_r : forall a : string, a ++ "" = a.
Proof.
  induction a as [|x a IH]; cbn; [reflexivity|]. now rewrite IH.
Qed.

Lemma startswith_app : forall a b : string, startswith (a ++ b) a = true.
Proof.
  induction a as [|x a IH]; intros b; cbn; [reflexivity|].
  rewrite Ascii.eqb_refl. apply IH.
Qed.

Lemma space_is_invalid : forall c, is_space c = true -> invalid_name_character c = true.
Proof.
  intros [[] [] [] [] [] [] [] []]; vm_compute; intros H;
    first [reflexivity | discriminate H].
Qed.

Lemma underscore_is_valid : invalid_name_character "_" = false.
Proof. reflexivity. Qed.

Lemma lstrip_valid : forall s, all_valid s = true -> lstrip s = s.
Proof.
  intros [|c s] H; cbn in *; [reflexivity|].
  apply andb_true_iff in H as [Hc _].
  destruct (is_space c) eqn:Hs; [|reflexivity].
  apply space_is_invalid in Hs. rewrite Hs in Hc. discriminate.
Qed.

Lemma rstrip_valid : forall s, all_valid s = true -> rstrip s = s.
Proof.
  induction s as [|c s IH]; cbn; intros H; [reflexivity|].
  apply andb_true_iff in H as [Hc Hs].
  rewrite (IH Hs).
  destruct s; [|reflexivity].
  destruct (is_space c) eqn:Hsp; [|reflexivity].
  apply space_is_invalid in Hsp. rewrite Hsp in Hc. discriminate.
Qed.

Lemma strip_valid : forall s, all_valid s = true -> strip s = s.
Proof.
  intros s H. unfold strip. rewrite (lstrip_valid s H). apply rstrip_valid, H.
Qed.

Lemma sub_invalid_runs_valid : forall s in_run,
  all_valid (sub_invalid_runs s in_run) = true.
Proof.
  induction s as [|c s IH]; intros in_run; cbn; [reflexivity|].
  destruct (invalid_name_character c) eqn:Hc.
  - destruct in_run; cbn; [apply IH|]. rewrite IH. reflexivity.
  - cbn. rewrite Hc, IH. reflexivity.
Qed.

Lemma sub_invalid_runs_fixed : forall s in_run,
  all_valid s = true -> sub_invalid_runs s in_run = s.
Proof.
  induction s as [|c s IH]; intros in_run H; cbn in *; [reflexivity|].
  apply andb_true_iff in H as [Hc Hs].
  apply negb_true_iff in Hc. rewrite Hc. f_equal. apply IH, Hs.
Qed.

Lemma replace_scan_delete_valid : forall old s skip,
  all_valid s = true -> all_valid (replace_scan old "" s skip) = true.
Proof.
  induction s as [|c s IH]; intros skip H; cbn in *; [reflexivity|].
  apply andb_true_iff in H as [Hc Hs].
  destruct skip; [|apply IH, Hs].
  match goal with |- context [if ?b then _ else _] => destruct b end; cbn.
  - apply IH, Hs.
  - rewrite Hc. apply IH, Hs.
Qed.

Lemma interleave_empty : forall s, interleave "" s = s.
Proof.
  induction s as [|c s IH]; cbn; [reflexivity|]. now rewrite IH.
Qed.

(** Deleting the occurrences of a text from a valid name leaves a valid name. *)
Lemma replace_delete_valid : forall s old,
  all_valid s = true -> all_valid (replace s old "") = true.
Proof.
  intros s [|c old] H; unfold replace.
  - rewrite interleave_empty. assumption.
  - apply replace_scan_delete_valid, H.
Qed.

Lemma replace_scan_no_occurrence : forall old new s,
  (forall j, occurs_at old s j = false) -> replace_scan old new s 0 = s.
Proof.
  induction s as [|c s IH]; intros H; cbn [replace_scan]; [reflexivity|].
  pose proof (H 0) as H0. unfold occurs_at in H0. cbn [drop] in H0.
  rewrite H0. f_equal. apply IH. intros j. exact (H (S j)).
Qed.

Lemma replace_scan_skip : forall old new x s,
  replace_scan old new (x ++ s) (String.length x) = replace_scan old new s 0.
Proof.
  induction x as [|c x IH]; intros s; cbn; [reflexivity|]. apply IH.
Qed.

(** When [old] occurs once, the scan rewrites that occurrence and nothing
    else. *)
Lemma replace_single_occurrence : forall old new pre post,
  old <> "" ->
  (forall i, i < String.length pre -> occurs_at old (pre ++ old ++ post) i = false) ->
  (forall j, occurs_at old post j = false) ->
  replace (pre ++ old ++ post) old new = pre ++ new ++ post.
Proof.
  intros old new pre post Hne Hpre Hpost.
  destruct old as [|c old]; [contradiction|]. unfold replace.
  induction pre as [|x pre IH].
  - pose proof (startswith_app (String c old) post) as Hp.
    cbn [append] in *. cbn [replace_scan]. rewrite Hp.
    cbn [String.length]. rewrite Nat.sub_1_r. cbn [Nat.pred].
    rewrite replace_scan_skip, replace_scan_no_occurrence by assumption.
    reflexivity.
  - cbn [append]. cbn [replace_scan].
    pose proof (Hpre 0 ltac:(cbn; lia)) as H0.
    unfold occurs_at in H0. cbn [drop append] in H0. rewrite H0.
    f_equal. apply IH. intros i Hi.
    apply (Hpre (S i)). cbn. lia.
Qed.

Lemma last_char_snoc : forall body c, last_char (body ++ String c "") = Some c.
Proof.
  induction body as [|x body IH]; intros c; cbn; [reflexivity|].
  rewrite IH. destruct body; reflexivity.
Qed.

Lemma drop_last_snoc : forall body c, drop_last (body ++ String c "") = body.
Proof.
  induction body as [|x body IH]; intros c; cbn; [reflexivity|].
  rewrite IH. destruct body; reflexivity.
Qed.

End PyStrFacts.

(* ================================================================= *)
(** ** Regex flag extraction *)


Lemma letter_is_not_paren : forall c, PyStr.is_ascii_letter c = true -> c <> ")"%char.
Proof. intros c H ->. discriminate H. Qed.





(* ================================================================= *)
(** ** Asset names *)

Import PyStrFacts.

Lemma normalized_is_valid : forall s,
  all_valid (sub_invalid_name_characters (PyStr.strip s)) = true.
Proof. intros s. apply sub_invalid_runs_valid. Qed.

Lemma normalize_valid : forall s,
  all_valid s = true -> sub_invalid_name_characters (PyStr.strip s) = s.
Proof.
  intros s H. rewrite (strip_valid s H). apply sub_invalid_runs_fixed, H.
Qed.

(** Whatever the engine answers, the name returned has valid characters only. *)
Lemma get_asset_name_valid :
  forall (engine : ReEngine) asset_name properties lod r,
    get_asset_name asset_name properties lod = Returned r -> all_valid r = true.
Proof.
  intros engine asset_name properties lod r. unfold get_asset_name.
  pose proof (normalized_is_valid asset_name) as Hv.
  destruct (import_lods properties); [|intros H; injection H as <-; exact Hv].
  destruct (_extract_regex_flags (lod_regex properties)) as [pattern flags].
  destruct (re_search _ _ flags) as [| |groups];
    try (intros H; injection H as <-; exact Hv).
  destruct (negb lod); [|intros H; injection H as <-; exact Hv].
  destruct groups as [|[g|] groups]; try discriminate.
  intros H; injection H as <-. apply replace_delete_valid, Hv.
Qed.

(** C2, as stated, fails: with LOD import enabled, a name with two LOD
    suffixes loses one suffix per application. *)
Lemma get_asset_name_not_idempotent :
  get_asset_name (engine := mini_engine) "A_LOD1_LOD2"
    (lod_props true "(?i)(_LOD\d)") false
  = Returned "A_LOD2"
  /\ get_asset_name (engine := mini_engine) "A_LOD2"
       (lod_props true "(?i)(_LOD\d)") false
     = Returned "A".
Proof. split; vm_compute; reflexivity. Qed.

(** C2, amended: the character normalisation of [get_asset_name] is
    idempotent, and the name that [get_asset_name] returns with [lod=False]
    is returned unchanged by a second application whenever LOD import is
    disabled, or the LOD pattern finds no match in that name, or the pattern
    does not compile. *)
Theorem get_asset_name_fixed_point :
  forall (engine : ReEngine) (asset_name : string) (properties : PropertyData)
         (r : string),
    sub_invalid_name_characters
      (PyStr.strip (sub_invalid_name_characters (PyStr.strip asset_name)))
    = sub_invalid_name_characters (PyStr.strip asset_name)
    /\ (get_asset_name asset_name properties false = Returned r ->
        import_lods properties = false
        \/ lod_search r properties = ReNone
        \/ lod_search r properties = ReError ->
        get_asset_name r properties false = Returned r).
Proof.
  intros engine asset_name properties r. split.
  - apply normalize_valid, normalized_is_valid.
  - intros Hr Hcases.
    pose proof (get_asset_name_valid engine _ _ _ _ Hr) as Hv.
    unfold get_asset_name. rewrite (normalize_valid r Hv).
    destruct (import_lods properties); [|reflexivity].
    unfold lod_search in Hcases.
    destruct (_extract_regex_flags (lod_regex properties)) as [pattern flags].
    cbn [fst snd] in Hcases.
    destruct Hcases as [H|[H|H]]; [discriminate| |]; rewrite H; reflexivity.
Qed.

(** A name with one LOD suffix: the second application changes nothing. *)
Lemma get_asset_name_fixed_point_witness :
  get_asset_name (engine := mini_engine) "Chair_LOD1"
    (lod_props true "(?i)(_LOD\d)") false
  = Returned "Chair"
  /\ get_asset_name (engine := mini_engine) "Chair"
       (lod_props true "(?i)(_LOD\d)") false
     = Returned "Chair".
Proof.
  assert (H : get_asset_name (engine := mini_engine) "Chair_LOD1"
                (lod_props true "(?i)(_LOD\d)") false = Returned "Chair")
    by (vm_compute; reflexivity).
  split; [exact H|].
  apply (proj2 (get_asset_name_fixed_point mini_engine "Chair_LOD1"
                  (lod_props true "(?i)(_LOD\d)") "Chair") H).
  right; left. vm_compute. reflexivity.
Defined.

(* ================================================================= *)
(** ** LOD names and indices *)

Section LodProperties.
Context {engine : ReEngine}.

Lemma get_lod0_name_no_match : forall asset_name properties,
  lod_search asset_name properties = ReNone
  \/ lod_search asset_name properties = ReError ->
  get_lod0_name asset_name properties = Returned asset_name.
Proof.
  intros asset_name properties H. unfold get_lod0_name. unfold lod_search in H.
  destruct (_extract_regex_flags (lod_regex properties)) as [pattern flags].
  cbn [fst snd] in H. destruct H as [H|H]; rewrite H; reflexivity.
Qed.

Lemma get_lod0_name_match : forall asset_name properties groups lod,
  lod_search asset_name properties = ReMatch groups ->
  last groups None = Some lod ->
  get_lod0_name asset_name properties
  = Returned (PyStr.replace asset_name lod (PyStr.drop_last lod ++ "0")).
Proof.
  intros asset_name properties groups lod H Hlast. unfold get_lod0_name.
  unfold lod_search in H.
  destruct (_extract_regex_flags (lod_regex properties)) as [pattern flags].
  cbn [fst snd] in H. rewrite H, Hlast.
  destruct groups; [discriminate|reflexivity].
Qed.

Lemma get_lod_index_no_match : forall asset_name properties,
  lod_search asset_name properties = ReNone
  \/ lod_search asset_name properties = ReError ->
  get_lod_index asset_name properties = Returned 0%Z.
Proof.
  intros asset_name properties H. unfold get_lod_index. unfold lod_search in H.
  destruct (_extract_regex_flags (lod_regex properties)) as [pattern flags].
  cbn [fst snd] in H. destruct H as [H|H]; rewrite H; reflexivity.
Qed.

Lemma get_lod_index_match : forall asset_name properties groups lod,
  lod_search asset_name properties = ReMatch groups ->
  last groups None = Some lod ->
  get_lod_index asset_name properties
  = Returned match PyStr.last_char lod with
             | Some c => match PyStr.int_of_char c with Some i => i | None => 0%Z end
             | None => 0%Z
             end.
Proof.
  intros asset_name properties groups lod H Hlast. unfold get_lod_index.
  unfold lod_search in H.
  destruct (_extract_regex_flags (lod_regex properties)) as [pattern flags].
  cbn [fst snd] in H. rewrite H, Hlast.
  destruct groups; [discriminate|].
  destruct (PyStr.last_char lod) as [c|]; [|reflexivity].
  destruct (PyStr.int_of_char c); reflexivity.
Qed.

Lemma int_of_char_range : forall c i,
  PyStr.int_of_char c = Some i -> (0 <= i <= 9)%Z.
Proof.
  intros c i. unfold PyStr.int_of_char, PyStr.is_decimal, PyStr.in_range.
  destruct (_ && _) eqn:H; [|discriminate].
  intros Hi; injection Hi as <-.
  apply andb_true_iff in H as [H1 H2].
  apply N.leb_le in H1, H2. lia.
Qed.

Lemma get_lod_index_range : forall asset_name properties i,
  get_lod_index asset_name properties = Returned i -> (0 <= i <= 9)%Z.
Proof.
  intros asset_name properties i. unfold get_lod_index.
  destruct (_extract_regex_flags (lod_regex properties)) as [pattern flags].
  destruct (re_search _ _ flags) as [| |groups];
    try (intros H; injection H as <-; lia).
  destruct (last groups None) as [lod|], groups as [|g groups];
    try discriminate; try (intros H; injection H as <-; lia).
  destruct (PyStr.last_char lod) as [c|]; [|intros H; injection H as <-; lia].
  destruct (PyStr.int_of_char c) as [j|] eqn:Hj; [|intros H; injection H as <-; lia].
  intros H; injection H as <-. eapply int_of_char_range; eauto.
Qed.

End LodProperties.

(** C6, as stated, fails: the text that is rewritten is that of the
    pattern's last capture group, and every occurrence of it in the name is
    rewritten, not only the matched LOD substring. *)
Lemma get_lod0_name_rewrites_elsewhere :
  lod_search (engine := mini_engine) "A_LOD1_B_LOD1" (lod_props true "_LOD\d")
  = ReMatch [Some "_LOD1"]
  /\ get_lod0_name (engine := mini_engine) "A_LOD1_B_LOD1" (lod_props true "_LOD\d")
     = Returned "A_LOD0_B_LOD0"
  /\ lod_search (engine := mini_engine) "Prop2_LOD2" (lod_props true "_LOD(\d)")
     = ReMatch [Some "_LOD2"; Some "2"]
  /\ get_lod0_name (engine := mini_engine) "Prop2_LOD2" (lod_props true "_LOD(\d)")
     = Returned "Prop0_LOD0".
Proof. repeat split; vm_compute; reflexivity. Qed.

(** C6, amended: [get_lod0_name] returns the name unchanged when the
    pattern finds no match or does not compile.  On a match whose last
    capture group took part, it returns the name with every occurrence of
    that group's text replaced by the same text with its final character
    changed to 0; when that text is not empty and occurs in the name only
    once, this is the name with the final character of that one occurrence
    replaced by 0. *)
Theorem get_lod0_name_spec :
  forall (engine : ReEngine) (asset_name : string) (properties : PropertyData),
    (lod_search asset_name properties = ReNone
     \/ lod_search asset_name properties = ReError ->
     get_lod0_name asset_name properties = Returned asset_name)
    /\ (forall groups lod,
           lod_search asset_name properties = ReMatch groups ->
           last groups None = Some lod ->
           get_lod0_name asset_name properties
           = Returned (PyStr.replace asset_name lod (PyStr.drop_last lod ++ "0")))
    /\ (forall groups lod pre post,
           lod_search asset_name properties = ReMatch groups ->
           last groups None = Some lod ->
           lod <> "" ->
           asset_name = pre ++ lod ++ post ->
           (forall i, i < String.length pre -> occurs_at lod asset_name i = false) ->
           (forall j, occurs_at lod post j = false) ->
           get_lod0_name asset_name properties
           = Returned (pre ++ (PyStr.drop_last lod ++ "0") ++ post)).
Proof.
  intros engine asset_name properties.
  split; [apply get_lod0_name_no_match|].
  split; [apply get_lod0_name_match|].
  intros groups lod pre post Hm Hlast Hne Hname Hpre Hpost.
  rewrite (get_lod0_name_match _ _ _ _ Hm Hlast). f_equal.
  rewrite Hname in *. apply replace_single_occurrence; assumption.
Qed.

(** The name of the spec's example for the index: LOD2 becomes LOD0. *)
Lemma get_lod0_name_spec_witness :
  get_lod0_name (engine := mini_engine) "Prop_LOD2" (lod_props true "_LOD\d")
  = Returned "Prop_LOD0".
Proof.
  apply (proj2 (proj2 (get_lod0_name_spec mini_engine "Prop_LOD2"
                         (lod_props true "_LOD\d")))
           [Some "_LOD2"] "_LOD2" "Prop" "").
  - vm_compute. reflexivity.
  - reflexivity.
  - discriminate.
  - reflexivity.
  - intros i Hi. cbn in Hi.
    do 4 (destruct i as [|i]; [reflexivity|]). lia.
  - intros [|j]; reflexivity.
Defined.

(** C7, as stated, fails: the character parsed is the last one of the
    pattern's last capture group, which need not end the matched substring. *)
Lemma get_lod_index_reads_last_group :
  lod_search (engine := mini_engine) "A_LOD3b" (lod_props true "_LOD(\d)[a-z]")
  = ReMatch [Some "_LOD3b"; Some "3"]
  /\ get_lod_index (engine := mini_engine) "A_LOD3b" (lod_props true "_LOD(\d)[a-z]")
     = Returned 3%Z.
Proof. split; vm_compute; reflexivity. Qed.

(** C7, amended: [get_lod_index] returns 0 when the pattern finds no match
    or does not compile.  On a match whose last capture group took part, it
    returns the final character of that group's text as a number when it is
    a decimal digit, and 0 when it is another character or the text is
    empty.  The index is always between 0 and 9, and for Prop_LOD2 under
    the pattern [_LOD\d] it is 2. *)
Theorem get_lod_index_spec :
  forall (engine : ReEngine) (asset_name : string) (properties : PropertyData),
    (lod_search asset_name properties = ReNone
     \/ lod_search asset_name properties = ReError ->
     get_lod_index asset_name properties = Returned 0%Z)
    /\ (forall groups body c,
           lod_search asset_name properties = ReMatch groups ->
           last groups None = Some (body ++ String c "") ->
           get_lod_index asset_name properties
           = Returned (if PyStr.is_decimal c
                       then (Z.of_N (PyStr.code c) - 48)%Z else 0%Z))
    /\ (forall groups,
           lod_search asset_name properties = ReMatch groups ->
           last groups None = Some "" ->
           get_lod_index asset_name properties = Returned 0%Z)
    /\ (forall i, get_lod_index asset_name properties = Returned i -> (0 <= i <= 9)%Z)
    /\ get_lod_index (engine := mini_engine) "Prop_LOD2" (lod_props true "_LOD\d")
       = Returned 2%Z
    /\ get_lod_index (engine := mini_engine) "Prop" (lod_props true "_LOD\d")
       = Returned 0%Z.
Proof.
  intros engine asset_name properties.
  split; [apply get_lod_index_no_match|].
  split; [|split; [|split; [apply get_lod_index_range|]]].
  - intros groups body c Hm Hlast.
    rewrite (get_lod_index_match _ _ _ _ Hm Hlast), last_char_snoc.
    unfold PyStr.int_of_char. destruct (PyStr.is_decimal c); reflexivity.
  - intros groups Hm Hlast.
    rewrite (get_lod_index_match _ _ _ _ Hm Hlast). reflexivity.
  - split; vm_compute; reflexivity.
Qed.

(** The digit that ends the suffix found in Prop_LOD2 is its index. *)
Lemma get_lod_index_spec_witness :
  get_lod_index (engine := mini_engine) "Prop_LOD2" (lod_props true "_LOD\d")
  = Returned (if PyStr.is_decimal "2" then (Z.of_N (PyStr.code "2") - 48)%Z else 0%Z).
Proof.
  apply (proj1 (proj2 (get_lod_index_spec mini_engine "Prop_LOD2"
                         (lod_props true "_LOD\d")))
           [Some "_LOD2"] "_LOD" "2"%char).
  - vm_compute. reflexivity.
  - reflexivity.
Defined.

(** C4: the LOD utilities do raise.  A capture group of the pattern that
    takes no part in the match is reported as [None], and slicing or
    indexing it raises a TypeError that the handlers, which name [re.error],
    IndexError and ValueError, let through. *)
Lemma lod_utilities_raise_type_error :
  lod_search (engine := mini_engine) "A_LOD1" (lod_props true "_LOD\d(_x)?")
  = ReMatch [Some "_LOD1"; None]
  /\ get_lod0_name (engine := mini_engine) "A_LOD1" (lod_props true "_LOD\d(_x)?")
     = Raised TypeError
  /\ get_lod_index (engine := mini_engine) "A_LOD1" (lod_props true "_LOD\d(_x)?")
     = Raised TypeError
  /\ get_asset_name (engine := mini_engine) "A_LOD1" (lod_props true "x)|(_LOD\d") false
     = Raised TypeError.
Proof. repeat split; vm_compute; reflexivity. Qed.

(* ================================================================= *)
(** ** The reference engine on the first collision form *)

Module CollisionFacts.
Import PyStr MiniRe CollisionAst.

Lemma is_some_or_else : forall (A : Type) (a b : option A),
  is_some (match a with Some r => Some r | None => b end) = is_some a || is_some b.
Proof. intros A [r|] b; reflexivity. Qed.

Lemma accepts_lit : forall ch k P,
  accepts k P ->
  accepts (fun s p c => run false (lit ch) s p c k)
    (fun s => match s with
              | String a s' => (a =? ch)%char && P s'
              | EmptyString => false
              end).
Proof.
  intros ch k P Hk [|a s] p c; cbn; [reflexivity|].
  unfold set_match; cbn. rewrite !orb_false_r.
  destruct (a =? ch)%char; cbn; [apply Hk|reflexivity].
Qed.

Lemma accepts_lits : forall a tail k Q,
  accepts (fun s p c => run false tail s p c k) Q ->
  accepts (fun s p c => run false (lits a tail) s p c k)
    (fun s => startswith s a && Q (drop (String.length a) s)).
Proof.
  induction a as [|ch a IH]; intros tail k Q Htail s p c.
  - cbn. apply Htail.
  - cbn [lits run].
    rewrite (accepts_lit ch _ _ (IH tail k Q Htail) s p c).
    destruct s as [|x s]; cbn; [reflexivity|].
    apply andb_assoc.
Qed.

Lemma accepts_kinds : forall k P,
  accepts k P ->
  accepts (fun s p c => run false kinds s p c k)
    (fun s => match s with
              | String x (String y s') => is_collision_kind x y && P s'
              | _ => false
              end).
Proof.
  intros k P Hk s p c. unfold kinds. cbn [run].
  set (k' := fun (s' : string) (p' : nat) (c' : caps) =>
               k s' p' (set_cap (1 - 1) (p, p') c')).
  assert (Hk' : accepts k' P) by (intros s0 p0 c0; apply Hk).
  rewrite !is_some_or_else.
  rewrite (accepts_lit "B" _ _ (accepts_lit "X" k' P Hk') s p c),
          (accepts_lit "C" _ _ (accepts_lit "P" k' P Hk') s p c),
          (accepts_lit "S" _ _ (accepts_lit "P" k' P Hk') s p c),
          (accepts_lit "C" _ _ (accepts_lit "X" k' P Hk') s p c).
  destruct s as [|x [|y s']]; cbn.
  - reflexivity.
  - rewrite !andb_false_r. reflexivity.
  - unfold is_collision_kind. cbn.
    destruct (x =? "B")%char, (x =? "C")%char, (x =? "S")%char,
             (y =? "X")%char, (y =? "P")%char, (P s'); reflexivity.
Qed.

Lemma repeat_loop_step : forall body lo hi greedy k fuel count s pos c,
  repeat_loop body lo hi greedy k (S fuel) count s pos c
  = if (count <? lo)%nat then
      body s pos c
        (fun s' p' c' => repeat_loop body lo hi greedy k fuel (S count) s' p' c')
    else
      let again :=
        if match hi with Some h => (count <? h)%nat | None => true end
        then body s pos c
               (fun s' p' c' =>
                  if (p' =? pos)%nat then k s' p' c'
                  else repeat_loop body lo hi greedy k fuel (S count) s' p' c')
        else None in
      if greedy then match again with Some res => Some res | None => k s pos c end
      else match k s pos c with Some res => Some res | None => again end.
Proof. reflexivity. Qed.

Lemma digit_set_match : forall d, set_match false false [CDigit false] d = is_decimal d.
Proof.
  intros d. unfold set_match. cbn. rewrite !orb_false_r. reflexivity.
Qed.

Lemma digits_loop : forall k P,
  accepts k P ->
  forall fuel count s p c,
    1 <= count -> String.length s < fuel ->
    is_some (repeat_loop (run false (RSet false [CDigit false])) 1 None true k
               fuel count s p c)
    = digits_star_then P s.
Proof.
  intros k P Hk. induction fuel as [|fuel IH]; intros count s p c Hc Hf; [lia|].
  rewrite repeat_loop_step.
  destruct (Nat.ltb_spec count 1) as [Hlt|_]; [lia|].
  cbv zeta. rewrite is_some_or_else, (Hk s p c).
  destruct s as [|d s]; cbn [run digits_star_then]; [reflexivity|].
  rewrite digit_set_match.
  destruct (is_decimal d); cbn [andb orb is_some]; [|reflexivity].
  destruct (Nat.eqb_spec (S p) p) as [Heq|_]; [lia|].
  rewrite IH; [reflexivity|lia|cbn in Hf; lia].
Qed.

Lemma accepts_digits_plus : forall k P,
  accepts k P ->
  accepts (fun s p c => run false digits_plus s p c k) (digits_plus_then P).
Proof.
  intros k P Hk s p c. unfold digits_plus. cbn [run].
  replace (1 + String.length s + 1) with (S (S (String.length s))) by lia.
  rewrite repeat_loop_step. cbn [Nat.ltb Nat.leb].
  destruct s as [|d s]; cbn [run digits_plus_then]; [reflexivity|].
  rewrite digit_set_match.
  destruct (is_decimal d); cbn [andb is_some]; [|reflexivity].
  apply (digits_loop k P Hk); [lia|cbn; lia].
Qed.

Lemma accepts_number_suffix : forall k P,
  accepts k P ->
  accepts (fun s p c => run false number_suffix s p c k)
    (fun s => match s with
              | String u s' => ((u =? "_")%char && digits_plus_then P s') || P s
              | EmptyString => P s
              end).
Proof.
  intros k P Hk s p c. unfold number_suffix. cbn [run].
  replace (0 + String.length s + 1) with (S (String.length s)) by lia.
  rewrite repeat_loop_step. cbn [Nat.ltb Nat.leb]. cbv zeta.
  rewrite is_some_or_else, (Hk s p c).
  destruct s as [|u s]; [reflexivity|].
  f_equal. cbn [run String.length].
  set (k' := fun (s' : string) (p' : nat) (c' : caps) =>
               (if (p' =? p)%nat then k s' p' c'
                else repeat_loop
                       (run false (RGroup (Some 2) (RSeq (lit "_") digits_plus)))
                       0 (Some 1) true k (S (String.length s)) 1 s' p' c')).
  assert (Hk' : accepts k' P).
  { intros s0 p0 c0. unfold k'.
    destruct (p0 =? p)%nat; [apply Hk|].
    rewrite repeat_loop_step. cbn [Nat.ltb Nat.leb]. cbv zeta. apply Hk. }
  set (k'' := fun (s' : string) (p' : nat) (c' : caps) =>
                k' s' p' (set_cap (2 - 1) (p, p') c')).
  assert (Hk'' : accepts k'' P) by (intros s0 p0 c0; apply Hk').
  apply (accepts_lit "_" _ _ (accepts_digits_plus k'' P Hk'') (String u s) p c).
Qed.

Lemma digits_star_then_end : forall s, digits_star_then is_empty s = all_digits s.
Proof.
  induction s as [|d s IH]; cbn; [reflexivity|].
  rewrite IH, orb_false_r. reflexivity.
Qed.

Lemma number_suffix_then_end : forall s,
  match s with
  | String u s' => ((u =? "_")%char && digits_plus_then is_empty s') || is_empty s
  | EmptyString => is_empty s
  end = is_number_suffix s.
Proof.
  intros [|u [|d s]]; cbn;
    rewrite ?digits_star_then_end, ?andb_false_r, ?andb_true_r, ?orb_false_r;
    reflexivity.
Qed.

Lemma accepts_end :
  accepts (fun s' (_ : nat) c => match s' with EmptyString => Some c | _ => None end)
    is_empty.
Proof. intros [|a s] p c; reflexivity. Qed.

(** On the syntax tree of the first form, the matcher reaches the end of the
    name exactly when the name has the shape of the first form. *)
Lemma run_basic : forall asset_name name p c,
  is_some (run false (basic asset_name) name p c
             (fun s' _ c' => match s' with EmptyString => Some c' | _ => None end))
  = first_form_by_shape asset_name name.
Proof.
  intros asset_name name p c. unfold basic. cbn [run].
  pose proof (accepts_lits asset_name number_suffix _ _
                (accepts_number_suffix _ _ accepts_end)) as H2.
  pose proof (accepts_lit "_" _ _ H2) as H3.
  pose proof (accepts_kinds _ _ H3) as H4.
  rewrite (accepts_lit "U" _ _ H4 name p c).
  unfold first_form_by_shape.
  destruct name as [|u [|x [|y [|v rest]]]]; cbv beta;
    rewrite ?andb_false_r; try reflexivity.
  rewrite number_suffix_then_end.
  destruct (u =? "U")%char, (is_collision_kind x y), (v =? "_")%char;
    reflexivity.
Qed.

End CollisionFacts.

(* ================================================================= *)
(** ** The reference parser on the first collision form *)

Module ParseFacts.
Import PyStr MiniRe CollisionAst.

Lemma parse_alt_step : forall fuel s n,
  parse_alt (S fuel) s n
  = match parse_seq fuel s n with
    | Some (r1, String c rest, n1) =>
        if (c =? "|")%char then
          match parse_alt fuel rest n1 with
          | Some (r2, rest', n2) => Some (RAlt r1 r2, rest', n2)
          | None => None
          end
        else Some (r1, String c rest, n1)
    | other => other
    end.
Proof. reflexivity. Qed.

Lemma parse_seq_step : forall fuel s n,
  parse_seq (S fuel) s n
  = match s with
    | EmptyString => Some (REmpty, s, n)
    | String c _ =>
        if (c =? "|")%char || (c =? ")")%char then Some (REmpty, s, n)
        else
          match parse_atom fuel s n with
          | Some (a, rest, n1) =>
              match parse_quantifier a rest with
              | Some (q, rest') =>
                  match parse_seq fuel rest' n1 with
                  | Some (REmpty, rest'', n2) => Some (q, rest'', n2)
                  | Some (r, rest'', n2) => Some (RSeq q r, rest'', n2)
                  | None => None
                  end
              | None => None
              end
          | None => None
          end
    end.
Proof. reflexivity. Qed.

Lemma parse_atom_step : forall fuel s n,
  parse_atom (S fuel) s n
  = match s with
    | EmptyString => None
    | String c s1 =>
        if (c =? "(")%char then
          match s1 with
          | String q s2 =>
              if (q =? "?")%char then
                match s2 with
                | String k s3 =>
                    if (k =? ":")%char then close_group fuel None s3 n else None
                | EmptyString => None
                end
              else close_group fuel (Some n) s1 (S n)
          | EmptyString => None
          end
        else if (c =? "[")%char then
          match parse_set s1 with
          | Some (r, rest) => Some (r, rest, n)
          | None => None
          end
        else if (c =? "\")%char then
          match s1 with
          | String e rest =>
              match parse_escape e with
              | Some i => Some (RSet false [i], rest, n)
              | None => None
              end
          | EmptyString => None
          end
        else if (c =? ".")%char then Some (RAny, s1, n)
        else if (c =? "^")%char then Some (RBol, s1, n)
        else if (c =? "$")%char then Some (REol, s1, n)
        else if (c =? "*")%char || (c =? "+")%char || (c =? "?")%char then None
        else Some (RSet false [CChar c], s1, n)
    end.
Proof. reflexivity. Qed.

(** More fuel does not change what the parser returns. *)
Lemma parse_fuel_succ : forall fuel,
  (forall s n res,
      parse_alt fuel s n = Some res -> parse_alt (S fuel) s n = Some res)
  /\ (forall s n res,
         parse_seq fuel s n = Some res -> parse_seq (S fuel) s n = Some res)
  /\ (forall s n res,
         parse_atom fuel s n = Some res -> parse_atom (S fuel) s n = Some res).
Proof.
  induction fuel as [|fuel (IHalt & IHseq & IHatom)].
  - repeat split; intros s n res H; discriminate H.
  - assert (Hclose : forall index inner n' res,
               close_group fuel index inner n' = Some res ->
               close_group (S fuel) index inner n' = Some res).
    { intros index inner n' res. unfold close_group.
      destruct (parse_alt fuel inner n') as [[[r rest] n2]|] eqn:E; [|discriminate].
      rewrite (IHalt _ _ _ E). trivial. }
    repeat split; intros s n res H.
    + rewrite parse_alt_step in H. rewrite parse_alt_step.
      destruct (parse_seq fuel s n) as [[[r1 rest] n1]|] eqn:E; [|discriminate].
      rewrite (IHseq _ _ _ E).
      destruct rest as [|c rest]; [exact H|].
      destruct (c =? "|")%char; [|exact H].
      destruct (parse_alt fuel rest n1) as [[[r2 rest'] n2]|] eqn:E2; [|discriminate].
      rewrite (IHalt _ _ _ E2). exact H.
    + rewrite parse_seq_step in H. rewrite parse_seq_step.
      destruct s as [|c s]; [exact H|].
      destruct ((c =? "|")%char || (c =? ")")%char); [exact H|].
      destruct (parse_atom fuel (String c s) n) as [[[a rest] n1]|] eqn:E;
        [|discriminate].
      rewrite (IHatom _ _ _ E).
      destruct (parse_quantifier a rest) as [[q rest']|]; [|discriminate].
      destruct (parse_seq fuel rest' n1) as [[[r rest''] n2]|] eqn:E2; [|discriminate].
      rewrite (IHseq _ _ _ E2). exact H.
    + rewrite parse_atom_step in H. rewrite parse_atom_step.
      destruct s as [|c s1]; [exact H|].
      destruct (c =? "(")%char; [|exact H].
      destruct s1 as [|q s2]; [exact H|].
      destruct (q =? "?")%char.
      * destruct s2 as [|k s3]; [exact H|].
        destruct (k =? ":")%char; [|exact H]. apply Hclose, H.
      * apply Hclose, H.
Qed.

Lemma parse_alt_fuel : forall extra fuel s n res,
  parse_alt fuel s n = Some res -> parse_alt (extra + fuel) s n = Some res.
Proof.
  induction extra as [|extra IH]; intros fuel s n res H; [exact H|].
  cbn [Nat.add]. apply parse_fuel_succ. apply IH, H.
Qed.

Lemma parse_quantifier_none : forall atom s,
  quantifier_ahead s = false -> parse_quantifier atom s = Some (atom, s).
Proof.
  intros atom [|c s] H; [reflexivity|]. unfold parse_quantifier. cbn in H.
  destruct (c =? "*")%char; [discriminate|].
  destruct (c =? "+")%char; [discriminate|].
  destruct (c =? "?")%char; [discriminate|].
  destruct (c =? "{")%char; [discriminate|]. reflexivity.
Qed.

(** One item of a sequence that is followed by further items. *)
Lemma parse_seq_cons : forall fuel c s atom rest n n1 r rest' n',
  (c =? "|")%char || (c =? ")")%char = false ->
  parse_atom fuel (String c s) n = Some (atom, rest, n1) ->
  quantifier_ahead rest = false ->
  parse_seq fuel rest n1 = Some (r, rest', n') ->
  r <> REmpty ->
  parse_seq (S fuel) (String c s) n = Some (RSeq atom r, rest', n').
Proof.
  intros fuel c s atom rest n n1 r rest' n' Hc Hatom Hq Hrest Hr.
  rewrite parse_seq_step, Hc, Hatom, (parse_quantifier_none atom rest Hq), Hrest.
  destruct r; try reflexivity. contradiction.
Qed.

Lemma special_escape : forall c, re_special c = true -> parse_escape c = Some (CChar c).
Proof.
  intros [[] [] [] [] [] [] [] []]; vm_compute; intros H;
    first [reflexivity | discriminate H].
Qed.

(** A character that [re.escape] leaves alone has no meaning of its own in
    a pattern. *)
Lemma plain_character : forall c,
  re_special c = false ->
  (c =? "(")%char = false /\ (c =? "[")%char = false /\ (c =? "\")%char = false
  /\ (c =? ".")%char = false /\ (c =? "^")%char = false /\ (c =? "$")%char = false
  /\ (c =? "*")%char = false /\ (c =? "+")%char = false /\ (c =? "?")%char = false
  /\ (c =? "|")%char = false /\ (c =? ")")%char = false /\ (c =? "{")%char = false.
Proof.
  intros [[] [] [] [] [] [] [] []]; vm_compute; intros H;
    first [discriminate H | repeat split].
Qed.

Lemma parse_atom_plain : forall fuel c s n,
  re_special c = false ->
  parse_atom (S fuel) (String c s) n = Some (lit c, s, n).
Proof.
  intros fuel c s n H.
  destruct (plain_character c H)
    as (H1 & H2 & H3 & H4 & H5 & H6 & H7 & H8 & H9 & _).
  rewrite parse_atom_step, H1, H2, H3, H4, H5, H6, H7, H8, H9. reflexivity.
Qed.

Lemma parse_atom_escaped : forall fuel c s n,
  re_special c = true ->
  parse_atom (S fuel) (String "\" (String c s)) n = Some (lit c, s, n).
Proof.
  intros fuel c s n H. rewrite parse_atom_step.
  cbn [Ascii.eqb Bool.eqb]. rewrite (special_escape c H). reflexivity.
Qed.

Lemma escape_no_quantifier_ahead : forall a rest,
  quantifier_ahead rest = false -> quantifier_ahead (re_escape a ++ rest) = false.
Proof.
  intros [|c a] rest H; [exact H|]. cbn [re_escape].
  destruct (re_special c) eqn:Hc; [reflexivity|].
  destruct (plain_character c Hc) as (_ & _ & _ & _ & _ & _ & H7 & H8 & H9 & _ & _ & H12).
  cbn. rewrite H7, H8, H9, H12. reflexivity.
Qed.

Lemma lits_not_empty : forall a r, r <> REmpty -> lits a r <> REmpty.
Proof. intros [|c a] r H; cbn; [exact H|discriminate]. Qed.

(** An escaped text parses to the sequence of its characters. *)
Lemma parse_seq_escape : forall a fuel rest n r rest' n',
  parse_seq (S fuel) rest n = Some (r, rest', n') ->
  r <> REmpty ->
  quantifier_ahead rest = false ->
  parse_seq (String.length a + S fuel) (re_escape a ++ rest) n
  = Some (lits a r, rest', n').
Proof.
  induction a as [|c a IH]; intros fuel rest n r rest' n' Hrest Hr Hq; [exact Hrest|].
  cbn [String.length Nat.add re_escape lits].
  pose proof (IH fuel rest n r rest' n' Hrest Hr Hq) as Htail.
  pose proof (escape_no_quantifier_ahead a rest Hq) as Hqa.
  pose proof (lits_not_empty a r Hr) as Hne.
  destruct (re_special c) eqn:Hc.
  - apply (parse_seq_cons _ "\" _ (lit c) (re_escape a ++ rest) n n).
    + reflexivity.
    + rewrite Nat.add_succ_r. apply parse_atom_escaped, Hc.
    + exact Hqa.
    + exact Htail.
    + exact Hne.
  - destruct (plain_character c Hc)
      as (_ & _ & _ & _ & _ & _ & _ & _ & _ & H10 & H11 & _).
    apply (parse_seq_cons _ c _ (lit c) (re_escape a ++ rest) n n).
    + rewrite H10, H11. reflexivity.
    + rewrite Nat.add_succ_r. apply parse_atom_plain, Hc.
    + exact Hqa.
    + exact Htail.
    + exact Hne.
Qed.

Lemma parse_atom_kinds : forall fuel tail,
  parse_atom (30 + fuel) ("(BX|CP|SP|CX)" ++ tail) 1 = Some (kinds, tail, 2).
Proof. intros fuel tail. vm_compute. reflexivity. Qed.

Lemma parse_seq_number_suffix : forall fuel,
  parse_seq (S (30 + fuel)) "(_\d+)?" 2 = Some (number_suffix, "", 3).
Proof. intros fuel. vm_compute. reflexivity. Qed.

Lemma append_length : forall a b : string,
  String.length (a ++ b) = String.length a + String.length b.
Proof.
  induction a as [|c a IH]; intros b; cbn; [reflexivity|]. now rewrite IH.
Qed.

Lemma re_escape_length : forall a, String.length a <= String.length (re_escape a).
Proof.
  induction a as [|c a IH]; cbn; [lia|].
  destruct (re_special c); cbn; lia.
Qed.

(** The pattern of the first form compiles, for every asset name, to the
    syntax tree [basic] with its two groups. *)
Lemma parse_basic : forall asset_name,
  parse (basic_collision_pattern asset_name) = Some (basic asset_name, 2).
Proof.
  intros a.
  assert (Hseq : parse_seq (S (S (S (String.length a + S (30 + 0)))))
                   (basic_collision_pattern a) 1
                 = Some (basic a, "", 3)).
  { unfold basic_collision_pattern, basic.
    pose proof (parse_seq_escape a (30 + 0) "(_\d+)?" 2 number_suffix "" 3
                  (parse_seq_number_suffix 0) ltac:(discriminate) eq_refl) as Hmid.
    pose proof (escape_no_quantifier_ahead a "(_\d+)?" eq_refl) as Hq.
    pose proof (lits_not_empty a number_suffix ltac:(discriminate)) as Hne.
    set (mid := re_escape a ++ "(_\d+)?") in *.
    set (f := String.length a + S (30 + 0)) in *.
    assert (H3 : parse_seq (S f) (String "_" mid) 2
                 = Some (RSeq (lit "_") (lits a number_suffix), "", 3)).
    { apply (parse_seq_cons f "_" mid (lit "_") mid 2 2).
      - reflexivity.
      - subst f. rewrite Nat.add_succ_r. apply parse_atom_plain. reflexivity.
      - exact Hq.
      - exact Hmid.
      - exact Hne. }
    assert (H2 : parse_seq (S (S f)) ("(BX|CP|SP|CX)" ++ String "_" mid) 1
                 = Some (RSeq kinds (RSeq (lit "_") (lits a number_suffix)), "", 3)).
    { apply (parse_seq_cons (S f) "(" _ kinds (String "_" mid) 1 2).
      - reflexivity.
      - subst f. rewrite !Nat.add_succ_r.
        replace (S (S (String.length a + (30 + 0))))
          with (30 + (2 + String.length a)) by lia.
        apply (parse_atom_kinds (2 + String.length a) (String "_" mid)).
      - reflexivity.
      - exact H3.
      - discriminate. }
    apply (parse_seq_cons (S (S f)) "U" _ (lit "U")
             ("(BX|CP|SP|CX)" ++ String "_" mid) 1 1).
    - reflexivity.
    - apply parse_atom_plain. reflexivity.
    - reflexivity.
    - exact H2.
    - discriminate. }
  unfold parse.
  assert (Halt : parse_alt (S (S (S (S (String.length a + S (30 + 0))))))
                   (basic_collision_pattern a) 1
                 = Some (basic a, "", 3))
    by (rewrite parse_alt_step, Hseq; reflexivity).
  assert (Hlen : 22 + String.length a <= String.length (basic_collision_pattern a)).
  { unfold basic_collision_pattern. rewrite !append_length.
    pose proof (re_escape_length a). cbn. lia. }
  replace (3 * String.length (basic_collision_pattern a) + 3)
    with ((3 * String.length (basic_collision_pattern a) + 3
           - S (S (S (S (String.length a + S (30 + 0))))))
          + S (S (S (S (String.length a + S (30 + 0)))))) by lia.
  rewrite (parse_alt_fuel _ _ _ _ _ Halt). reflexivity.
Qed.

(** [re.fullmatch] with the pattern of the first form decides the shape of
    the first form. *)
Theorem fullmatch_basic : forall asset_name name,
  matched (fullmatch (basic_collision_pattern asset_name) name NOFLAG)
  = Some (first_form_by_shape asset_name name).
Proof.
  intros asset_name name. unfold fullmatch. rewrite parse_basic.
  change (ignorecase NOFLAG) with false.
  rewrite <- (CollisionFacts.run_basic asset_name name 0 (repeat None 2)).
  destruct (run false (basic asset_name) name 0 (repeat None 2) _); reflexivity.
Qed.

End ParseFacts.

(* ================================================================= *)
(** ** Collision names *)

(** C3: the code does not keep to the claim.  The LOD pattern is spliced
    into the second form as it is, where [get_lod0_name], [get_lod_index]
    and [get_asset_name] put it in a group of its own.  A lone [+] is
    malformed for these utilities, yet the spliced text compiles, so there
    is no fallback to the first form: UBX_Chairr, which the first form
    refuses, is a collision of Chair.  And the alternative of [|.*] takes
    over the whole second form, so UBX_Table_01 is a collision of Chair,
    which it is not with the pattern in a group. *)
Theorem is_collision_of_spliced_pattern :
  lod_search (engine := mini_engine) "UBX_Chairr" (lod_props true "+") = ReError
  /\ matched (re_fullmatch (ReEngine := mini_engine)
                (basic_collision_pattern "Chair") "UBX_Chairr" NOFLAG) = Some false
  /\ is_collision_of (engine := mini_engine) "Chair" "UBX_Chairr" (lod_props true "+")
     = Returned true
  /\ is_collision_of (engine := mini_engine) "Chair" "UBX_Table_01" (lod_props true "|.*")
     = Returned true
  /\ matched (re_fullmatch (ReEngine := mini_engine)
                "U(BX|CP|SP|CX)_Chair(|.*)(_\d+)?" "UBX_Table_01" NOFLAG) = Some false.
Proof. repeat split; vm_compute; reflexivity. Qed.

(* ================================================================= *)
(** ** The constant patterns on the reference engine

    [get_asset_name] and [_extract_regex_flags] call [re.sub] with constant
    patterns, which the embedding writes as the functions
    [sub_invalid_name_characters] and [sub_leading_flag_group].  On the
    reference engine these functions are what [re.sub] computes. *)

Module SubFacts.
Import PyStr MiniRe PatternAst.
Import CollisionFacts.

Lemma parse_invalid_runs : parse "[^-+\w]+" = Some (invalid_runs, 0).
Proof. vm_compute. reflexivity. Qed.

Lemma parse_flag_group : parse "^\(\?[a-zA-Z]*\)" = Some (flag_group, 0).
Proof. vm_compute. reflexivity. Qed.

Lemma set_match_invalid : forall a,
  set_match false true [CChar "-"; CChar "+"; CWord false] a = invalid_name_character a.
Proof.
  intros a. unfold set_match, invalid_name_character. cbn.
  destruct (a =? "-")%char, (a =? "+")%char, (is_word a); reflexivity.
Qed.

Lemma set_match_letter : forall a,
  set_match false false [CRange "a" "z"; CRange "A" "Z"] a = is_ascii_letter a.
Proof.
  intros a. unfold set_match, is_ascii_letter, in_range. cbn.
  rewrite !orb_false_r. apply orb_comm.
Qed.

Lemma record_end_later : forall start must_advance s p c,
  start < p ->
  record_end start must_advance s p c = Some (set_cap 0 (start, p) c).
Proof.
  intros start must_advance s p c H. unfold record_end.
  destruct (Nat.eqb_spec p start) as [Heq|_]; [lia|].
  rewrite andb_false_r. reflexivity.
Qed.

Lemma drop_length_le : forall n s, String.length (drop n s) <= String.length s.
Proof.
  induction n as [|n IH]; intros [|c s]; cbn; try lia.
  specialize (IH s). lia.
Qed.

(** *** Runs of invalid characters *)

Lemma invalid_loop : forall start must_advance fuel count s p c,
  1 <= count -> String.length s < fuel -> start < p ->
  repeat_loop (run false invalid_set) 1 None true (record_end start must_advance)
    fuel count s p c
  = Some (set_cap 0 (start, p + invalid_run_length s) c).
Proof.
  intros start must_advance.
  induction fuel as [|fuel IH]; intros count s p c Hc Hf Hp; [lia|].
  rewrite repeat_loop_step.
  destruct (Nat.ltb_spec count 1) as [Hlt|_]; [lia|]. cbv zeta.
  destruct s as [|a s]; cbn [run invalid_set invalid_run_length].
  - rewrite Nat.add_0_r. apply record_end_later, Hp.
  - rewrite set_match_invalid.
    destruct (invalid_name_character a).
    + destruct (Nat.eqb_spec (S p) p) as [Heq|_]; [lia|].
      change (RSet true [CChar "-"; CChar "+"; CWord false]) with invalid_set.
      rewrite IH; [|lia|cbn in Hf; lia|lia].
      rewrite Nat.add_succ_r. reflexivity.
    + rewrite Nat.add_0_r. apply record_end_later, Hp.
Qed.

Lemma match_end_invalid_runs : forall s pos must_advance,
  match_end false invalid_runs 0 s pos must_advance
  = match s with
    | String a _ =>
        if invalid_name_character a then Some (pos + invalid_run_length s) else None
    | EmptyString => None
    end.
Proof.
  intros s pos must_advance. unfold match_end, invalid_runs. cbn [run].
  replace (1 + String.length s + 1) with (S (S (String.length s))) by lia.
  rewrite repeat_loop_step. cbn [Nat.ltb Nat.leb].
  destruct s as [|a s]; cbn [run invalid_set invalid_run_length]; [reflexivity|].
  rewrite set_match_invalid.
  destruct (invalid_name_character a); [|reflexivity].
  change (RSet true [CChar "-"; CChar "+"; CWord false]) with invalid_set.
  fold (record_end pos must_advance).
  rewrite invalid_loop; [|lia|cbn; lia|lia].
  cbn. rewrite Nat.add_succ_r. reflexivity.
Qed.

Lemma sub_invalid_runs_in_run : forall s,
  sub_invalid_runs s true = sub_invalid_runs (drop (invalid_run_length s) s) false.
Proof.
  induction s as [|a s IH]; cbn; [reflexivity|].
  destruct (invalid_name_character a) eqn:Ha; cbn; [exact IH|].
  rewrite Ha. reflexivity.
Qed.

Lemma sub_scan_invalid_runs : forall fuel s pos must_advance,
  String.length s < fuel ->
  sub_scan false invalid_runs 0 "_" fuel s pos must_advance = sub_invalid_runs s false.
Proof.
  induction fuel as [|fuel IH]; intros s pos must_advance Hf; [lia|].
  cbn [sub_scan]. rewrite match_end_invalid_runs.
  destruct s as [|a s]; [reflexivity|].
  cbn [sub_invalid_runs invalid_run_length].
  destruct (invalid_name_character a).
  - replace (pos + S (invalid_run_length s) - pos) with (S (invalid_run_length s))
      by lia.
    cbn [drop append].
    rewrite IH, <- sub_invalid_runs_in_run; [reflexivity|].
    pose proof (drop_length_le (invalid_run_length s) s). cbn in Hf. lia.
  - rewrite IH; [reflexivity|cbn in Hf; lia].
Qed.

(** [re.sub(r"[^-+\w]+", "_", s)] is [sub_invalid_name_characters s]. *)
Theorem sub_invalid_name_characters_refines : forall s,
  sub "[^-+\w]+" "_" s NOFLAG = Some (sub_invalid_name_characters s).
Proof.
  intros s. unfold sub. rewrite parse_invalid_runs.
  change (ignorecase NOFLAG) with false.
  rewrite sub_scan_invalid_runs; [reflexivity|lia].
Qed.

(** *** The leading flag group *)

Lemma skip_ascii_letters_drop : forall s,
  skip_ascii_letters s = drop (letters_count s) s.
Proof.
  induction s as [|a s IH]; cbn; [reflexivity|].
  destruct (is_ascii_letter a); [exact IH|reflexivity].
Qed.

Lemma letter_is_not_closing : forall a,
  is_ascii_letter a = true -> (a =? ")")%char = false.
Proof.
  intros a H. destruct (Ascii.eqb_spec a ")") as [->|_]; [discriminate H|reflexivity].
Qed.

Lemma letters_loop : forall (k : kont) fuel count s p c,
  (forall s' p' c',
      k s' p' c'
      = match s' with
        | String x _ =>
            if (x =? ")")%char then Some (set_cap 0 (0, S p') c') else None
        | EmptyString => None
        end) ->
  String.length s < fuel ->
  repeat_loop (run false letter_set) 0 None true k fuel count s p c
  = match drop (letters_count s) s with
    | String x _ =>
        if (x =? ")")%char then Some (set_cap 0 (0, S (p + letters_count s)) c)
        else None
    | EmptyString => None
    end.
Proof.
  intros k fuel count s p c Hk. revert count s p c.
  induction fuel as [|fuel IH]; intros count s p c Hf; [lia|].
  rewrite repeat_loop_step. cbn [Nat.ltb Nat.leb]. cbv zeta.
  rewrite Hk.
  destruct s as [|a s]; cbn [run letter_set letters_count drop]; [reflexivity|].
  rewrite set_match_letter.
  destruct (is_ascii_letter a) eqn:Ha.
  - destruct (Nat.eqb_spec (S p) p) as [Heq|_]; [lia|].
    change (RSet false [CRange "a" "z"; CRange "A" "Z"]) with letter_set.
    rewrite IH by (cbn in Hf; lia).
    rewrite (letter_is_not_closing a Ha). cbn [drop].
    rewrite Nat.add_succ_r.
    destruct (drop (letters_count s) s) as [|x t]; [reflexivity|].
    destruct (x =? ")")%char; reflexivity.
  - cbn [drop]. rewrite Nat.add_0_r. reflexivity.
Qed.

Lemma match_end_flag_group_start : forall s must_advance,
  match_end false flag_group 0 s 0 must_advance
  = if startswith s "(?" then
      match drop (letters_count (drop 2 s)) (drop 2 s) with
      | String x _ =>
          if (x =? ")")%char then Some (3 + letters_count (drop 2 s)) else None
      | EmptyString => None
      end
    else None.
Proof.
  intros s must_advance. unfold match_end, flag_group. cbn [run Nat.eqb].
  destruct s as [|a [|b s]]; cbn [startswith drop].
  - reflexivity.
  - unfold set_match; cbn. rewrite !orb_false_r, andb_false_r.
    destruct (a =? "(")%char; reflexivity.
  - unfold set_match at 1 2; cbn [existsb item_match xorb andb orb].
    rewrite !orb_false_r, andb_true_r.
    destruct (a =? "(")%char; cbn [andb]; [|reflexivity].
    destruct (b =? "?")%char; [|reflexivity].
    fold letter_set.
    erewrite letters_loop; [| |lia].
    + destruct (drop (letters_count s) s) as [|x t]; [reflexivity|].
      destruct (x =? ")")%char; reflexivity.
    + intros [|x t] p' c'; [reflexivity|].
      unfold set_match; cbn. rewrite !orb_false_r, andb_false_r. reflexivity.
Qed.

Lemma match_end_flag_group_later : forall s pos must_advance,
  0 < pos -> match_end false flag_group 0 s pos must_advance = None.
Proof.
  intros s pos must_advance H. unfold match_end, flag_group. cbn [run].
  destruct (Nat.eqb_spec pos 0) as [Heq|_]; [lia|reflexivity].
Qed.

Lemma sub_scan_flag_group_later : forall fuel s pos must_advance,
  0 < pos -> sub_scan false flag_group 0 "" fuel s pos must_advance = s.
Proof.
  induction fuel as [|fuel IH]; intros s pos must_advance H; [reflexivity|].
  cbn [sub_scan]. rewrite match_end_flag_group_later by exact H.
  destruct s as [|a s]; [reflexivity|]. rewrite IH by lia. reflexivity.
Qed.

Lemma drop_next : forall n s x t, drop n s = String x t -> drop (S n) s = t.
Proof.
  induction n as [|n IH]; intros [|a s] x t H; cbn in *; try discriminate.
  - now injection H as _ ->.
  - apply (IH s x t H).
Qed.

(** [re.sub(r'^\(\?[a-zA-Z]*\)', '', pattern)] is
    [sub_leading_flag_group pattern]. *)
Theorem sub_leading_flag_group_refines : forall pattern,
  sub "^\(\?[a-zA-Z]*\)" "" pattern NOFLAG = Some (sub_leading_flag_group pattern).
Proof.
  intros pattern. unfold sub. rewrite parse_flag_group.
  change (ignorecase NOFLAG) with false. f_equal.
  replace (2 * String.length pattern + 2) with (S (2 * String.length pattern + 1))
    by lia.
  cbn [sub_scan]. rewrite match_end_flag_group_start.
  unfold sub_leading_flag_group. rewrite skip_ascii_letters_drop.
  destruct (startswith pattern "(?") eqn:Hstart.
  - destruct (drop (letters_count (drop 2 pattern)) (drop 2 pattern))
      as [|x t] eqn:Hdrop.
    + destruct pattern as [|a s]; [reflexivity|].
      rewrite sub_scan_flag_group_later by lia. reflexivity.
    + destruct (x =? ")")%char.
      * cbn [append]. rewrite sub_scan_flag_group_later by lia.
        rewrite Nat.sub_0_r.
        destruct pattern as [|a [|b s]]; try discriminate Hdrop.
        cbn [drop Nat.add] in *. apply (drop_next _ _ _ _ Hdrop).
      * destruct pattern as [|a s]; [reflexivity|].
        rewrite sub_scan_flag_group_later by lia. reflexivity.
  - destruct pattern as [|a s]; [reflexivity|].
    rewrite sub_scan_flag_group_later by lia. reflexivity.
Qed.

End SubFacts.

(* ================================================================= *)
(** ** Collisions, LODs and rigged meshes of the export collection *)

Lemma filter_raising_returned : forall (A : Type) (p : A -> outcome bool) l r,
  filter_raising p l = Returned r ->
  r = filter (fun x => match p x with Returned true => true | _ => false end) l.
Proof.
  induction l as [|x l IH]; intros r; cbn.
  - intros H; injection H as <-. reflexivity.
  - destruct (p x) as [keep|e]; [|discriminate].
    destruct (filter_raising p l) as [kept|e]; [|discriminate].
    intros H; injection H as <-. rewrite (IH kept eq_refl).
    destruct keep; reflexivity.
Qed.

Lemma filter_raising_total : forall (A : Type) (p : A -> outcome bool) l,
  (forall x, In x l -> exists keep, p x = Returned keep) ->
  exists r, filter_raising p l = Returned r.
Proof.
  induction l as [|x l IH]; intros Hp; cbn; [eauto|].
  destruct (Hp x (or_introl eq_refl)) as [keep ->].
  destruct IH as [kept ->]; [intros y Hy; apply Hp; right; exact Hy|].
  eauto.
Qed.

Lemma filter_sorted_by_name : forall (f : BObject -> bool) l,
  StronglySorted name_le l -> StronglySorted name_le (filter f l).
Proof.
  intros f l H. induction H as [|x l Hl IH Hx]; cbn; [constructor|].
  destruct (f x); [|exact IH].
  constructor; [exact IH|].
  apply Forall_forall. intros y Hy. apply filter_In in Hy as [Hy _].
  rewrite Forall_forall in Hx. apply Hx, Hy.
Qed.

Lemma get_from_collection_exportable :
  forall EXPORT_COLLECTION PreFixToken object_type b o,
    In o (get_from_collection EXPORT_COLLECTION PreFixToken object_type b) ->
    exportable PreFixToken object_type o = true.
Proof.
  intros EC PT ty b o Hin. unfold get_from_collection in Hin.
  apply (Permutation_in _ (Permutation_sym (sorted_by_name_perm _))) in Hin.
  destruct (collections_get EC (collections b)); [|contradiction].
  apply filter_In in Hin. tauto.
Qed.

Lemma exportable_no_token : forall PreFixToken object_type o token,
  exportable PreFixToken object_type o = true ->
  In token PreFixToken ->
  PyStr.startswith (ob_name o) (token ++ "_") = false.
Proof.
  intros PT ty o token Hex Htok. unfold exportable in Hex.
  apply andb_true_iff in Hex as [_ Hpre]. apply negb_true_iff in Hpre.
  unfold has_prefix_token in Hpre.
  destruct (PyStr.startswith (ob_name o) (token ++ "_")) eqn:Hs; [|reflexivity].
  assert (existsb (fun t => PyStr.startswith (ob_name o) (t ++ "_")) PT = true)
    by (apply existsb_exists; eauto).
  congruence.
Qed.

(** A name of the first collision form starts with one of the four
    collision prefixes and an underscore. *)
Lemma first_form_has_prefix : forall asset_name name,
  first_form_by_shape asset_name name = true ->
  exists token, In token ["UBX"; "UCP"; "USP"; "UCX"]
                /\ PyStr.startswith name (token ++ "_") = true.
Proof.
  intros asset_name name. unfold first_form_by_shape.
  destruct name as [|u [|x [|y [|v rest]]]]; try discriminate.
  intros H. repeat (apply andb_true_iff in H as [H ?]).
  apply Ascii.eqb_eq in H. subst u.
  match goal with Hv : (v =? "_")%char = true |- _ => apply Ascii.eqb_eq in Hv; subst v end.
  match goal with Hk : is_collision_kind x y = true |- _ =>
    unfold is_collision_kind in Hk; apply existsb_exists in Hk as (kind & Hkind & Heq) end.
  apply String.eqb_eq in Heq. subst kind.
  exists (String "U" (String x (String y ""))). split.
  - cbn in Hkind. cbn.
    destruct Hkind as [H|[H|[H|[H|[]]]]]; injection H as <- <-; auto.
  - cbn. rewrite !Ascii.eqb_refl. reflexivity.
Qed.

Section ExportedObjects.
Variable EXPORT_COLLECTION : string.
Variable PreFixToken : list string.
Variable MESH : string.

(** X1: whatever the engine, a list that [get_asset_collisions] returns is
    in ascending order of name and holds exactly the objects that
    [get_from_collection] gives for the mesh type and that
    [is_collision_of] accepts, so none of them has a name that starts with
    a prefix token and an underscore. *)
Theorem get_asset_collisions_spec :
  forall (engine : ReEngine) (asset_name : string) (properties : PropertyData)
         (b : Blender) (r : list BObject),
    get_asset_collisions EXPORT_COLLECTION PreFixToken MESH asset_name properties b
    = Returned r ->
    StronglySorted name_le r
    /\ (forall o,
           In o r <->
           In o (get_from_collection EXPORT_COLLECTION PreFixToken MESH b)
           /\ is_collision_of asset_name (ob_name o) properties = Returned true)
    /\ (forall o token,
           In o r -> In token PreFixToken ->
           PyStr.startswith (ob_name o) (token ++ "_") = false).
Proof.
  intros engine asset_name properties b r Hr. unfold get_asset_collisions in Hr.
  apply filter_raising_returned in Hr. subst r.
  split; [|split].
  - apply filter_sorted_by_name, sorted_by_name_sorted.
  - intros o. rewrite filter_In. split; intros [Hin Hc]; split; auto.
    + destruct (is_collision_of asset_name (ob_name o) properties) as [[|]|];
        try discriminate; reflexivity.
    + rewrite Hc. reflexivity.
  - intros o token Hin Htok. apply filter_In in Hin as [Hin _].
    eapply exportable_no_token; [|exact Htok].
    eapply get_from_collection_exportable; exact Hin.
Qed.

(** X2: When the four collision prefixes are prefix tokens, an object whose own
    name has the first collision form of the asset is never among the
    collisions that [get_asset_collisions] returns. *)
Theorem get_asset_collisions_skips_first_form :
  forall (engine : ReEngine) (asset_name : string) (properties : PropertyData)
         (b : Blender) (r : list BObject),
    (forall token, In token ["UBX"; "UCP"; "USP"; "UCX"] -> In token PreFixToken) ->
    get_asset_collisions EXPORT_COLLECTION PreFixToken MESH asset_name properties b
    = Returned r ->
    forall o, In o r -> first_form_by_shape asset_name (ob_name o) = false.
Proof.
  intros engine asset_name properties b r Htokens Hr o Hin.
  unfold get_asset_collisions in Hr. apply filter_raising_returned in Hr. subst r.
  apply filter_In in Hin as [Hin _].
  apply get_from_collection_exportable in Hin.
  destruct (first_form_by_shape asset_name (ob_name o)) eqn:Hshape; [|reflexivity].
  apply first_form_has_prefix in Hshape as (token & Htok & Hstart).
  rewrite (exportable_no_token _ _ _ token Hin (Htokens token Htok)) in Hstart.
  discriminate.
Qed.

(** X3: The list that [get_asset_lods] returns is in ascending order of name
    and holds exactly the objects that [get_from_collection] gives for the
    mesh type and whose name [get_asset_name] turns into the asset name; in
    particular every such mesh is a LOD of its own asset name.  With LOD
    import disabled the function returns. *)
Theorem get_asset_lods_spec :
  forall (engine : ReEngine) (asset_name : string) (properties : PropertyData)
         (b : Blender),
    (import_lods properties = false ->
     exists r, get_asset_lods EXPORT_COLLECTION PreFixToken MESH asset_name properties b
               = Returned r)
    /\ forall r,
        get_asset_lods EXPORT_COLLECTION PreFixToken MESH asset_name properties b
        = Returned r ->
        StronglySorted name_le r
        /\ forall o,
            In o r <->
            In o (get_from_collection EXPORT_COLLECTION PreFixToken MESH b)
            /\ get_asset_name (ob_name o) properties false = Returned asset_name.
Proof.
  intros engine asset_name properties b. split.
  - intros Hoff. apply filter_raising_total. intros o _.
    unfold is_lod_of, get_asset_name. rewrite Hoff. eauto.
  - intros r Hr. unfold get_asset_lods in Hr.
    pose proof Hr as Hall.
    apply filter_raising_returned in Hr. subst r.
    split.
    + apply filter_sorted_by_name, sorted_by_name_sorted.
    + intros o. rewrite filter_In. unfold is_lod_of.
      split; intros [Hin Hc]; split; auto.
      * destruct (get_asset_name (ob_name o) properties false) as [name|];
          [|discriminate].
        destruct (asset_name =? name) eqn:E; [|discriminate].
        apply String.eqb_eq in E. congruence.
      * rewrite Hc, String.eqb_refl. reflexivity.
Qed.

End ExportedObjects.

(** On the sample collection the only collision returned for the chair is
    the one whose name starts with a space. *)
Lemma get_asset_collisions_spec_witness :
  get_asset_collisions (engine := mini_engine) "Export" collision_tokens "MESH"
    "Chair" (lod_props false "") (host_with_export collision_objects)
  = Returned [mesh " UCX_Chair_02" true]
  /\ StronglySorted name_le [mesh " UCX_Chair_02" true].
Proof.
  split; [reflexivity|].
  apply (get_asset_collisions_spec "Export" collision_tokens "MESH" mini_engine "Chair"
           (lod_props false "") (host_with_export collision_objects)).
  reflexivity.
Defined.

(** [UCX_Chair_01] is a collision of the chair for [is_collision_of], and
    is not returned. *)
Lemma get_asset_collisions_skips_first_form_witness :
  is_collision_of (engine := mini_engine) "Chair" "UCX_Chair_01" (lod_props false "")
  = Returned true
  /\ first_form_by_shape "Chair" " UCX_Chair_02" = false.
Proof.
  split; [reflexivity|].
  apply (get_asset_collisions_skips_first_form "Export" collision_tokens "MESH"
           mini_engine "Chair" (lod_props false "") (host_with_export collision_objects)
           [mesh " UCX_Chair_02" true]
           (fun token H => H) eq_refl (mesh " UCX_Chair_02" true)).
  left. reflexivity.
Defined.

(** The chair and its LOD are the LODs of the asset [Chair]. *)
Lemma get_asset_lods_spec_witness :
  get_asset_lods (engine := mini_engine) "Export" collision_tokens "MESH"
    "Chair" (lod_props true "(?i)(_LOD\d)") (host_with_export collision_objects)
  = Returned [mesh "Chair" true; mesh "Chair_LOD1" true]
  /\ StronglySorted name_le [mesh "Chair" true; mesh "Chair_LOD1" true].
Proof.
  split; [reflexivity|].
  apply (proj2 (get_asset_lods_spec "Export" collision_tokens "MESH" mini_engine "Chair"
                  (lod_props true "(?i)(_LOD\d)") (host_with_export collision_objects))).
  reflexivity.
Defined.

(* ================================================================= *)
(** ** Rigs and mesh types *)

Section RigProperties.
Variable modifiers : BObject -> list Modifier.
Variable parent : BObject -> option BObject.
Variable EXPORT_COLLECTION : string.
Variable PreFixToken : list string.
Variables MESH SKELETON : string.

(** The loop returns the object of the first armature modifier that has
    one: armature modifiers without an object are passed over. *)
Lemma armature_modifier_object_first : forall ms rig,
  armature_modifier_object ms = Some rig <->
  exists before modifier after,
    ms = (before ++ modifier :: after)%list
    /\ md_type modifier = "ARMATURE"
    /\ md_object modifier = Some rig
    /\ forall m, In m before -> md_type m = "ARMATURE" -> md_object m = None.
Proof.
  induction ms as [|m ms IH]; intros rig.
  - cbn. split; [discriminate|]. intros (before & modifier & after & H & _).
    destruct before; discriminate.
  - assert (Hskip : (md_type m = "ARMATURE" -> md_object m = None) ->
                    (armature_modifier_object ms = Some rig <->
                     exists before modifier after,
                       m :: ms = (before ++ modifier :: after)%list
                       /\ md_type modifier = "ARMATURE"
                       /\ md_object modifier = Some rig
                       /\ forall m0, In m0 before ->
                                     md_type m0 = "ARMATURE" -> md_object m0 = None)).
    { intros Hm. rewrite IH. split.
      - intros (before & modifier & after & Hms & Hmt & Hmo & Hbefore).
        exists (m :: before), modifier, after. rewrite Hms. cbn.
        repeat split; auto. intros m0 [<-|Hin]; auto.
      - intros (before & modifier & after & H & Hmt & Hmo & Hbefore).
        destruct before as [|m' before]; cbn in H; injection H as Hhead Htail.
        + subst modifier. rewrite (Hm Hmt) in Hmo. discriminate.
        + exists before, modifier, after. repeat split; auto.
          intros m0 Hin. apply Hbefore. right. exact Hin. }
    cbn. destruct (md_type m =? "ARMATURE") eqn:Hty.
    + apply String.eqb_eq in Hty.
      destruct (md_object m) as [o|] eqn:Hob.
      * split.
        -- intros H; injection H as <-. exists [], m, ms. cbn.
           repeat split; auto. intros m0 [].
        -- intros (before & modifier & after & H & Hmt & Hmo & Hbefore).
           destruct before as [|m' before]; cbn in H; injection H as Hhead Htail.
           ++ subst modifier. congruence.
           ++ subst m'. rewrite (Hbefore m (or_introl eq_refl) Hty) in Hob.
              discriminate.
      * apply Hskip. intros _. reflexivity.
    + apply String.eqb_neq in Hty. apply Hskip. intros H. contradiction.
Qed.

Lemma armature_modifier_object_none : forall ms,
  armature_modifier_object ms = None <->
  forall m, In m ms -> md_type m = "ARMATURE" -> md_object m = None.
Proof.
  induction ms as [|m ms IH]; cbn.
  - split; [intros _ m []|reflexivity].
  - destruct (md_type m =? "ARMATURE") eqn:Hty.
    + apply String.eqb_eq in Hty. destruct (md_object m) as [o|] eqn:Hob.
      * split; [discriminate|]. intros H.
        rewrite (H m (or_introl eq_refl) Hty) in Hob. discriminate.
      * rewrite IH. split; intros H m' Hin; [|apply H; right; exact Hin].
        destruct Hin as [<-|Hin]; auto.
    + apply String.eqb_neq in Hty.
      rewrite IH. split; intros H m' Hin; [|apply H; right; exact Hin].
      destruct Hin as [<-|Hin]; [contradiction|auto].
Qed.

(** X4: A mesh is a skeletal mesh exactly when one of its armature modifiers
    has an object or its parent is an armature, and a static mesh
    otherwise. *)
Theorem get_mesh_unreal_type_spec : forall mesh_object,
  (get_mesh_unreal_type modifiers parent SKELETON mesh_object = SKELETAL_MESH <->
   (exists m rig, In m (modifiers mesh_object)
                  /\ md_type m = "ARMATURE" /\ md_object m = Some rig)
   \/ (exists p, parent mesh_object = Some p /\ ob_type p = SKELETON))
  /\ (get_mesh_unreal_type modifiers parent SKELETON mesh_object = SKELETAL_MESH
      \/ get_mesh_unreal_type modifiers parent SKELETON mesh_object = STATIC_MESH).
Proof.
  intros o. unfold get_mesh_unreal_type, get_armature_modifier_rig_object,
    is_child_of_armature.
  destruct (armature_modifier_object (modifiers o)) as [rig|] eqn:Hrig.
  - split; [|left; reflexivity]. split; [intros _|reflexivity].
    left. apply armature_modifier_object_first in Hrig
      as (before & m & after & Hms & Hty & Hob & _).
    exists m, rig. rewrite Hms. split; [|auto].
    apply in_or_app. right. left. reflexivity.
  - pose proof (proj1 (armature_modifier_object_none _) Hrig) as Hnone.
    destruct (parent o) as [p|] eqn:Hp.
    + destruct (ob_type p =? SKELETON) eqn:Hty.
      * split; [|left; reflexivity]. split; [intros _|reflexivity].
        right. exists p. apply String.eqb_eq in Hty. auto.
      * split; [|right; reflexivity]. split; [discriminate|].
        intros [(m & rig & Hin & Hmt & Hob)|(p' & Hp' & Hty')].
        -- rewrite (Hnone m Hin Hmt) in Hob. discriminate.
        -- injection Hp' as <-. apply String.eqb_neq in Hty. contradiction.
    + split; [|right; reflexivity]. split; [discriminate|].
      intros [(m & rig & Hin & Hmt & Hob)|(p' & Hp' & _)]; [|discriminate].
      rewrite (Hnone m Hin Hmt) in Hob. discriminate.
Qed.

(** X5: The meshes that [get_meshes_using_armature_modifier] returns for a rig
    are, in ascending order of name, the objects that [get_from_collection]
    gives for the mesh type and whose first armature modifier with an
    object has that rig as its object; a mesh bound to the rig by a later
    modifier, or by parenting only, is left out. *)
Theorem get_meshes_using_armature_modifier_spec :
  forall (rig_object : BObject) (b : Blender),
    let r := get_meshes_using_armature_modifier modifiers EXPORT_COLLECTION PreFixToken
               MESH rig_object b in
    StronglySorted name_le r
    /\ forall o,
        In o r <->
        In o (get_from_collection EXPORT_COLLECTION PreFixToken MESH b)
        /\ exists before modifier after rig,
            modifiers o = (before ++ modifier :: after)%list
            /\ md_type modifier = "ARMATURE"
            /\ md_object modifier = Some rig
            /\ ob_name rig = ob_name rig_object
            /\ forall m, In m before -> md_type m = "ARMATURE" -> md_object m = None.
Proof.
  intros rig_object b r. subst r. unfold get_meshes_using_armature_modifier.
  split; [apply filter_sorted_by_name, sorted_by_name_sorted|].
  intros o. rewrite filter_In. unfold get_armature_modifier_rig_object, same_object.
  split.
  - intros [Hin Hrig]. split; [exact Hin|].
    destruct (armature_modifier_object (modifiers o)) as [rig|] eqn:E; [|discriminate].
    apply armature_modifier_object_first in E as (before & m & after & H1 & H2 & H3 & H4).
    apply String.eqb_eq in Hrig.
    exists before, m, after, rig. auto.
  - intros [Hin (before & m & after & rig & H1 & H2 & H3 & H4 & H5)].
    split; [exact Hin|].
    assert (E : armature_modifier_object (modifiers o) = Some rig)
      by (apply armature_modifier_object_first; exists before, m, after; auto).
    rewrite E, H4. apply String.eqb_refl.
Qed.

End RigProperties.

(** In the sample scene only [Body] uses the rig through its first bound
    armature modifier. *)
Lemma get_meshes_using_armature_modifier_spec_witness :
  get_meshes_using_armature_modifier rig_modifiers "Export" collision_tokens "MESH"
    (armature "Rig") (host_with_export rigged_objects)
  = [mesh "Body" true]
  /\ StronglySorted name_le
       (get_meshes_using_armature_modifier rig_modifiers "Export" collision_tokens "MESH"
          (armature "Rig") (host_with_export rigged_objects)).
Proof.
  split; [reflexivity|].
  apply (get_meshes_using_armature_modifier_spec rig_modifiers "Export" collision_tokens
           "MESH" (armature "Rig") (host_with_export rigged_objects)).
Defined.

(* ================================================================= *)
(** ** Validation methods *)

Lemma report_and_fail_as_details : forall text,
  report_and_fail text = report_details_and_fail text "".
Proof. reflexivity. Qed.

Lemma report_details_and_fail_not_true : forall text details b,
  snd (report_details_and_fail text details b) <> Returned true.
Proof.
  intros text details b. unfold report_details_and_fail, report_error.
  destruct (environ_get_truth _ _); cbn; discriminate.
Qed.

Lemma report_and_fail_not_true : forall text b,
  snd (report_and_fail text b) <> Returned true.
Proof. intros text b. apply report_details_and_fail_not_true. Qed.

Lemma remove_first_absent : forall x l,
  existsb (String.eqb x) l = false -> remove_first x l = l.
Proof.
  induction l as [|y l IH]; cbn; [reflexivity|].
  intros H. apply orb_false_iff in H as [Hxy Hl].
  rewrite String.eqb_sym, Hxy, (IH Hl). reflexivity.
Qed.

Lemma count_occ_remove_first : forall x y l,
  count_occ string_dec (remove_first x l) y
  = if string_dec x y then pred (count_occ string_dec l y)
    else count_occ string_dec l y.
Proof.
  induction l as [|z l IH]; cbn.
  - destruct (string_dec x y); reflexivity.
  - destruct (z =? x) eqn:Hzx.
    + apply String.eqb_eq in Hzx. subst z.
      destruct (string_dec x y); [reflexivity|reflexivity].
    + apply String.eqb_neq in Hzx. cbn.
      destruct (string_dec z y) as [->|Hzy].
      * destruct (string_dec x y); [congruence|]. rewrite IH.
        destruct (string_dec x y); [congruence|reflexivity].
      * rewrite IH. reflexivity.
Qed.

(** With every polygon in bounds the loop leaves the slot names minus, one
    for one, the names that the polygons use. *)
Lemma unused_materials_in_bounds : forall slots polygons names,
  (forall polygon, In polygon polygons ->
                   (pg_material_index polygon < List.length slots)%nat) ->
  exists left_over,
    unused_materials slots names polygons = inl left_over
    /\ forall name,
        count_occ string_dec left_over name
        = count_occ string_dec names name
          - count_occ string_dec
              (map (fun polygon => nth (pg_material_index polygon) slots "") polygons)
              name.
Proof.
  induction polygons as [|p polygons IH]; intros names Hb.
  - exists names. split; [reflexivity|]. intros name. cbn. lia.
  - cbn [unused_materials map].
    assert (Hp : (pg_material_index p < List.length slots)%nat)
      by (apply Hb; left; reflexivity).
    destruct (List.length slots <=? pg_material_index p)%nat eqn:Hle;
      [apply Nat.leb_le in Hle; lia|].
    set (material := nth (pg_material_index p) slots "").
    assert (Hguard : (if existsb (String.eqb material) names
                      then remove_first material names else names)
                     = remove_first material names).
    { destruct (existsb (String.eqb material) names) eqn:E; [reflexivity|].
      symmetry. apply remove_first_absent, E. }
    rewrite Hguard.
    destruct (IH (remove_first material names)) as (left_over & Hl & Hcount);
      [intros q Hq; apply Hb; right; exact Hq|].
    exists left_over. split; [exact Hl|].
    intros name. rewrite Hcount, count_occ_remove_first.
    destruct (string_dec material name) as [E|E].
    + rewrite (count_occ_cons_eq string_dec _ E). lia.
    + rewrite (count_occ_cons_neq string_dec _ E). lia.
Qed.

Lemma unused_materials_out_of_bounds : forall slots polygons names polygon,
  In polygon polygons ->
  (List.length slots <= pg_material_index polygon)%nat ->
  exists p, unused_materials slots names polygons = inr p.
Proof.
  induction polygons as [|q polygons IH]; intros names polygon Hin Hout; [contradiction|].
  cbn. destruct (List.length slots <=? pg_material_index q)%nat eqn:Hle; [eauto|].
  destruct Hin as [->|Hin]; [apply Nat.leb_gt in Hle; lia|].
  eapply IH; eauto.
Qed.

Lemma all_counts_zero : forall l : list string,
  (forall name, count_occ string_dec l name = 0) -> l = [].
Proof.
  intros [|x l] H; [reflexivity|].
  specialize (H x). cbn in H. destruct (string_dec x x); [discriminate|contradiction].
Qed.

(** The polygon loop of one mesh ends with nothing left exactly when the
    slots are covered. *)
Lemma unused_materials_covered : forall slots polygons,
  unused_materials slots slots polygons = inl [] <-> materials_covered slots polygons.
Proof.
  intros slots polygons. unfold materials_covered. split.
  - intros Hrun.
    assert (Hb : forall polygon, In polygon polygons ->
                                 (pg_material_index polygon < List.length slots)%nat).
    { intros polygon Hin.
      destruct (Nat.lt_ge_cases (pg_material_index polygon) (List.length slots))
        as [H|H]; [exact H|].
      destruct (unused_materials_out_of_bounds slots polygons slots polygon Hin H)
        as [p Hp].
      congruence. }
    split; [exact Hb|].
    destruct (unused_materials_in_bounds slots polygons slots Hb)
      as (left_over & Hl & Hcount).
    assert (left_over = []) by congruence. subst left_over.
    intros name. specialize (Hcount name). cbn in Hcount. lia.
  - intros [Hb Hcover].
    destruct (unused_materials_in_bounds slots polygons slots Hb)
      as (left_over & Hl & Hcount).
    rewrite Hl. f_equal. apply all_counts_zero.
    intros name. rewrite Hcount. specialize (Hcover name). lia.
Qed.

Section ManagerCheckProperties.
Variable material_slots : BObject -> list string.
Variable polygons : BObject -> list Polygon.
Variable modifiers : BObject -> list Modifier.
Variable vertex_groups : BObject -> list string.

Lemma check_materials_spec : forall mesh_objects b,
  (snd (check_materials material_slots polygons mesh_objects b) = Returned true <->
   forall mesh_object, In mesh_object mesh_objects ->
     material_slots mesh_object = []
     \/ materials_covered (material_slots mesh_object) (polygons mesh_object))
  /\ (snd (check_materials material_slots polygons mesh_objects b) = Returned true ->
      fst (check_materials material_slots polygons mesh_objects b) = b).
Proof.
  induction mesh_objects as [|o rest IH]; intros b.
  - cbn. split; [|reflexivity]. split; [intros _ o []|reflexivity].
  - cbn [check_materials]. cbv zeta.
    destruct (IH b) as [IHiff IHstate].
    destruct (material_slots o) as [|slot slots] eqn:Hslots.
    + cbn. split; [|exact IHstate]. rewrite IHiff. split.
      * intros H o' [<-|Hin]; [left; exact Hslots|apply H, Hin].
      * intros H o' Hin. apply H. right. exact Hin.
    + change (0 <? List.length (slot :: slots))%nat with true. cbv iota.
      destruct (unused_materials (slot :: slots) (slot :: slots) (polygons o))
        as [[|unused left_over]|polygon] eqn:Hrun.
      * apply unused_materials_covered in Hrun.
        split; [|exact IHstate]. rewrite IHiff. split.
        -- intros H o' [<-|Hin]; [right; rewrite Hslots; exact Hrun|apply H, Hin].
        -- intros H o' Hin. apply H. right. exact Hin.
      * split; [|intros H; apply report_and_fail_not_true in H; contradiction].
        split; [intros H; apply report_and_fail_not_true in H; contradiction|].
        intros H. destruct (H o (or_introl eq_refl)) as [Hnil|Hcov].
        -- congruence.
        -- rewrite Hslots in Hcov. apply unused_materials_covered in Hcov. congruence.
      * split; [|intros H; apply report_details_and_fail_not_true in H; contradiction].
        split; [intros H; apply report_details_and_fail_not_true in H; contradiction|].
        intros H. destruct (H o (or_introl eq_refl)) as [Hnil|Hcov].
        -- congruence.
        -- rewrite Hslots in Hcov. apply unused_materials_covered in Hcov. congruence.
Qed.

(** X6: [validate_materials] passes, leaving the host as it is, exactly when
    the validation is disabled or every mesh object either has no material
    slot or has all its polygons pointing at a slot and each slot name used
    by at least as many polygons as there are slots of that name. *)
Theorem validate_materials_spec :
  forall (settings : ValidationSettings) (self : ManagerState) (b : Blender),
    let r := validate_materials_impl material_slots polygons settings self b in
    (snd r = Returned true <->
     prop_validate_materials settings = false
     \/ forall mesh_object, In mesh_object (self_mesh_objects self) ->
          material_slots mesh_object = []
          \/ materials_covered (material_slots mesh_object) (polygons mesh_object))
    /\ (snd r = Returned true -> fst r = b).
Proof.
  intros settings self b r. subst r. unfold validate_materials_impl.
  destruct (prop_validate_materials settings).
  - destruct (check_materials_spec (self_mesh_objects self) b) as [Hiff Hstate].
    split; [|exact Hstate]. rewrite Hiff. split; [auto|].
    intros [H|H]; [discriminate|exact H].
  - cbn. split; [|reflexivity]. split; [auto|reflexivity].
Qed.

End ManagerCheckProperties.

(** A cube with the same material in two slots and one polygon using it
    does not pass; a plane without slots does, whatever its polygons say. *)
Lemma validate_materials_spec_witness :
  snd (validate_materials_impl material_slots_of polygons_of all_checks
         (manager_of [mesh "Plane" true]) empty_host) = Returned true
  /\ snd (validate_materials_impl material_slots_of polygons_of all_checks
            (manager_of [mesh "Cube" true]) (with_environ (Some "") empty_host))
     = Returned false.
Proof.
  split; [|reflexivity].
  apply (proj1 (validate_materials_spec material_slots_of polygons_of all_checks
                  (manager_of [mesh "Plane" true]) empty_host)).
  right. intros o [<-|[]]. left. reflexivity.
Defined.

(* ================================================================= *)
(** ** Object names *)

Lemma search_invalid_all_valid : forall s,
  search_invalid_name_characters s = negb (all_valid s).
Proof.
  induction s as [|c s IH]; cbn; [reflexivity|].
  rewrite IH. destruct (invalid_name_character c); reflexivity.
Qed.

(** The loop ends with the list of quoted names exactly when no object is
    called none; the list then grows by the names with an invalid
    character. *)
Lemma invalid_object_names_spec : forall objects found,
  (forall found', invalid_object_names objects found = inr found' ->
     (forall o, In o objects -> lower (ob_name o) <> "none")
     /\ (found' = found <->
         forall o, In o objects -> search_invalid_name_characters (ob_name o) = false))
  /\ (forall name, invalid_object_names objects found = inl name ->
        exists o, In o objects /\ lower (ob_name o) = "none").
Proof.
  assert (Hgrow : forall objects found found',
             invalid_object_names objects found = inr found' ->
             (List.length found <= List.length found')%nat).
  { induction objects as [|o objects IH]; intros found found'; cbn.
    - intros H; injection H as <-. lia.
    - destruct (lower (ob_name o) =? "none"); cbn; [discriminate|].
      intros H. apply IH in H.
      destruct (search_invalid_name_characters (ob_name o)); [|exact H].
      rewrite length_app in H. cbn in H. lia. }
  induction objects as [|o objects IH]; intros found; cbn.
  - split.
    + intros found' H; injection H as <-.
      split; [intros o []|]. split; [intros _ o []|reflexivity].
    + discriminate.
  - destruct (lower (ob_name o) =? "none") eqn:Hnone; cbn.
    + apply String.eqb_eq in Hnone. split; [discriminate|].
      intros name _. exists o. auto.
    + apply String.eqb_neq in Hnone.
      destruct (search_invalid_name_characters (ob_name o)) eqn:Hinv.
      * destruct (IH (found ++ [(dquote ++ ob_name o ++ dquote)%string])%list) as [IHr IHl].
        split.
        -- intros found' H. pose proof (Hgrow _ _ _ H) as Hlen.
           destruct (IHr found' H) as [Hn _].
           split; [intros o' [<-|Hin]; auto|].
           split.
           ++ intros ->. rewrite length_app in Hlen. cbn in Hlen. lia.
           ++ intros Hall. rewrite (Hall o (or_introl eq_refl)) in Hinv. discriminate.
        -- intros name H. destruct (IHl name H) as (o' & Hin & Ho').
           exists o'. auto.
      * destruct (IH found) as [IHr IHl]. split.
        -- intros found' H. destruct (IHr found' H) as [Hn Hiff].
           split; [intros o' [<-|Hin]; auto|].
           rewrite Hiff. split.
           ++ intros Hall o' [<-|Hin]; auto.
           ++ intros Hall o' Hin. apply Hall. right. exact Hin.
        -- intros name H. destruct (IHl name H) as (o' & Hin & Ho').
           exists o'. auto.
Qed.

Section ObjectNameProperties.

(** When the enabled validation passes, the loop has found no invalid name. *)
Lemma passing_names_are_valid :
  forall (settings : ValidationSettings) (self : ManagerState) (b : Blender),
    prop_validate_object_names settings = true ->
    snd (validate_object_names_impl settings self b) = Returned true ->
    forall o, In o (export_objects settings self) ->
              search_invalid_name_characters (ob_name o) = false.
Proof.
  intros settings self b Hon Hpass. unfold validate_object_names_impl in Hpass.
  rewrite Hon in Hpass.
  destruct (invalid_object_names_spec (export_objects settings self) []) as [Hr _].
  destruct (invalid_object_names (export_objects settings self) [])
    as [name|[|quoted names]].
  - apply report_and_fail_not_true in Hpass. contradiction.
  - destruct (Hr [] eq_refl) as [_ Hiff]. apply (proj1 Hiff eq_refl).
  - apply report_and_fail_not_true in Hpass. contradiction.
Qed.

(** X7: [validate_object_names] passes, leaving the host as it is, exactly
    when the validation is disabled or no object to export is called none
    in whatever case and no name holds a character outside the allowed
    set. *)
Theorem validate_object_names_spec :
  forall (settings : ValidationSettings) (self : ManagerState) (b : Blender),
    let r := validate_object_names_impl settings self b in
    (snd r = Returned true <->
     prop_validate_object_names settings = false
     \/ forall o, In o (export_objects settings self) ->
          lower (ob_name o) <> "none"
          /\ search_invalid_name_characters (ob_name o) = false)
    /\ (snd r = Returned true -> fst r = b).
Proof.
  intros settings self b r. subst r. unfold validate_object_names_impl.
  destruct (prop_validate_object_names settings);
    [|cbn; split; [split; [auto|reflexivity]|reflexivity]].
  destruct (invalid_object_names_spec (export_objects settings self) []) as [Hr Hl].
  destruct (invalid_object_names (export_objects settings self) [])
    as [name|[|quoted names]] eqn:Hrun.
  - split; [|intros H; apply report_and_fail_not_true in H; contradiction].
    split; [intros H; apply report_and_fail_not_true in H; contradiction|].
    intros [H|H]; [discriminate|].
    destruct (Hl name eq_refl) as (o & Hin & Ho).
    destruct (H o Hin) as [Hn _]. contradiction.
  - cbn. split; [|reflexivity]. split; [intros _|reflexivity].
    right. destruct (Hr [] eq_refl) as [Hn Hiff].
    intros o Hin. split; [apply Hn, Hin|]. apply (proj1 Hiff eq_refl), Hin.
  - split; [|intros H; apply report_and_fail_not_true in H; contradiction].
    split; [intros H; apply report_and_fail_not_true in H; contradiction|].
    intros [H|H]; [discriminate|].
    destruct (Hr _ eq_refl) as [_ Hiff].
    assert (quoted :: names = []) by (apply Hiff; intros o Hin; apply H, Hin).
    discriminate.
Qed.

(** X8: The names of the objects to export that pass [validate_object_names]
    are asset names already: when the validation is enabled and passes,
    [get_asset_name] without LOD import returns each name as it is. *)
Theorem validated_names_are_asset_names :
  forall (engine : ReEngine) (settings : ValidationSettings) (self : ManagerState)
         (b : Blender) (properties : PropertyData),
    prop_validate_object_names settings = true ->
    snd (validate_object_names_impl settings self b) = Returned true ->
    import_lods properties = false ->
    forall o lod, In o (export_objects settings self) ->
                  get_asset_name (ob_name o) properties lod = Returned (ob_name o).
Proof.
  intros engine settings self b properties Hon Hpass Hoff o lod Hin.
  pose proof (passing_names_are_valid settings self b Hon Hpass o Hin) as Hvalid.
  rewrite search_invalid_all_valid in Hvalid. apply negb_false_iff in Hvalid.
  unfold get_asset_name. rewrite Hoff, (normalize_valid _ Hvalid). reflexivity.
Qed.

End ObjectNameProperties.

(** A mesh called [None] fails the validation, one called [Chair_LOD1]
    passes and keeps its name. *)
Lemma validate_object_names_spec_witness :
  snd (validate_object_names_impl all_checks (manager_of [mesh "Chair_LOD1" true])
         empty_host) = Returned true
  /\ snd (validate_object_names_impl all_checks (manager_of [mesh "None" true])
            (with_environ (Some "") empty_host)) = Returned false.
Proof.
  split; [|reflexivity].
  apply (proj1 (validate_object_names_spec all_checks
                  (manager_of [mesh "Chair_LOD1" true]) empty_host)).
  right. intros o [<-|[]]. split; [discriminate|reflexivity].
Defined.

Lemma validated_names_are_asset_names_witness :
  get_asset_name (engine := mini_engine) "Chair_LOD1" (lod_props false "(_LOD\d)") false
  = Returned "Chair_LOD1".
Proof.
  apply (validated_names_are_asset_names mini_engine all_checks
           (manager_of [mesh "Chair_LOD1" true]) empty_host
           (lod_props false "(_LOD\d)") eq_refl eq_refl eq_refl
           (mesh "Chair_LOD1" true) false).
  left. reflexivity.
Defined.

(* ================================================================= *)
(** ** Vertex groups *)

Section VertexGroupProperties.
Variable modifiers : BObject -> list Modifier.
Variable vertex_groups : BObject -> list string.

Lemma flat_map_nil : forall (A B : Type) (f : A -> list B) l,
  flat_map f l = [] <-> forall x, In x l -> f x = [].
Proof.
  induction l as [|x l IH]; cbn.
  - split; [intros _ x []|reflexivity].
  - split.
    + intros H. apply app_eq_nil in H as [Hx Hl].
      intros y [<-|Hy]; [exact Hx|]. apply IH; assumption.
    + intros H. rewrite (H x (or_introl eq_refl)). cbn.
      apply IH. intros y Hy. apply H. right. exact Hy.
Qed.

(** X9: [validate_meshes_for_vertex_groups] passes, leaving the host as it is,
    exactly when the validation is disabled or every mesh object that has
    an armature modifier using vertex groups has a vertex group. *)
Theorem validate_meshes_for_vertex_groups_spec :
  forall (settings : ValidationSettings) (self : ManagerState) (b : Blender),
    let r := validate_meshes_for_vertex_groups_impl modifiers vertex_groups
               settings self b in
    (snd r = Returned true <->
     prop_validate_meshes_for_vertex_groups settings = false
     \/ forall mesh_object modifier,
          In mesh_object (self_mesh_objects self) ->
          In modifier (modifiers mesh_object) ->
          md_type modifier = "ARMATURE" ->
          md_use_vertex_groups modifier = true ->
          vertex_groups mesh_object <> [])
    /\ (snd r = Returned true -> fst r = b).
Proof.
  intros settings self b r. subst r. unfold validate_meshes_for_vertex_groups_impl.
  destruct (prop_validate_meshes_for_vertex_groups settings);
    [|cbn; split; [split; [auto|reflexivity]|reflexivity]].
  destruct (missing_vertex_groups modifiers vertex_groups (self_mesh_objects self))
    as [|name names] eqn:Hmissing.
  - cbn. split; [|reflexivity]. split; [intros _|reflexivity]. right.
    unfold missing_vertex_groups in Hmissing.
    intros o m Ho Hm Hty Huse Hnil.
    rewrite flat_map_nil in Hmissing. specialize (Hmissing o Ho).
    rewrite flat_map_nil in Hmissing. specialize (Hmissing m Hm).
    rewrite Hty, Huse, Hnil in Hmissing. discriminate.
  - split; [|intros H; apply report_and_fail_not_true in H; contradiction].
    split; [intros H; apply report_and_fail_not_true in H; contradiction|].
    intros [H|H]; [discriminate|]. exfalso.
    assert (Hnone : missing_vertex_groups modifiers vertex_groups
                      (self_mesh_objects self) = []).
    { unfold missing_vertex_groups. apply flat_map_nil. intros o Ho.
      apply flat_map_nil. intros m Hm.
      destruct (md_type m =? "ARMATURE") eqn:Hty; [|reflexivity].
      destruct (md_use_vertex_groups m) eqn:Huse; [|reflexivity].
      apply String.eqb_eq in Hty.
      pose proof (H o m Ho Hm Hty Huse) as Hne.
      destruct (vertex_groups o); [contradiction|reflexivity]. }
    congruence.
Qed.

End VertexGroupProperties.

(** [Body] has vertex groups and passes; [Hat] has none and fails. *)
Lemma validate_meshes_for_vertex_groups_spec_witness :
  snd (validate_meshes_for_vertex_groups_impl rig_modifiers vertex_groups_of all_checks
         (manager_of [mesh "Body" true]) empty_host) = Returned true
  /\ snd (validate_meshes_for_vertex_groups_impl rig_modifiers vertex_groups_of all_checks
            (manager_of [mesh "Hat" true]) (with_environ (Some "") empty_host))
     = Returned false.
Proof.
  split; [|reflexivity].
  apply (proj1 (validate_meshes_for_vertex_groups_spec rig_modifiers vertex_groups_of
                  all_checks (manager_of [mesh "Body" true]) empty_host)).
  right. intros o m [<-|[]] _ _ _. discriminate.
Defined.

(* ================================================================= *)
(** ** The search for an invalid character on the reference engine *)

Module SearchFacts.
Import PyStr MiniRe PatternAst.
Import CollisionFacts SubFacts.

Lemma invalid_loop_found : forall fuel count s p c,
  1 <= count -> String.length s < fuel ->
  repeat_loop (run false invalid_set) 1 None true search_found fuel count s p c = Some c.
Proof.
  induction fuel as [|fuel IH]; intros count s p c Hc Hf; [lia|].
  rewrite repeat_loop_step.
  destruct (Nat.ltb_spec count 1) as [Hlt|_]; [lia|]. cbv zeta.
  destruct s as [|a s]; cbn [run invalid_set]; [reflexivity|].
  rewrite set_match_invalid.
  destruct (invalid_name_character a); [|reflexivity].
  destruct (Nat.eqb_spec (S p) p) as [Heq|_]; [lia|].
  change (RSet true [CChar "-"; CChar "+"; CWord false]) with invalid_set.
  rewrite IH; [reflexivity|lia|cbn in Hf; lia].
Qed.

Lemma run_invalid_runs_found : forall s pos c,
  run false invalid_runs s pos c search_found
  = match s with
    | String a _ => if invalid_name_character a then Some c else None
    | EmptyString => None
    end.
Proof.
  intros s pos c. unfold invalid_runs. cbn [run].
  replace (1 + String.length s + 1) with (S (S (String.length s))) by lia.
  rewrite repeat_loop_step. cbn [Nat.ltb Nat.leb].
  destruct s as [|a s]; cbn [run invalid_set]; [reflexivity|].
  rewrite set_match_invalid.
  destruct (invalid_name_character a); [|reflexivity].
  change (RSet true [CChar "-"; CChar "+"; CWord false]) with invalid_set.
  fold search_found.
  rewrite invalid_loop_found; [reflexivity|lia|cbn; lia].
Qed.

Lemma search_from_invalid_runs : forall s pos,
  CollisionAst.is_some (search_from false invalid_runs 0 s pos)
  = search_invalid_name_characters s.
Proof.
  induction s as [|a s IH]; intros pos; cbn [search_from repeat].
  - fold search_found. rewrite run_invalid_runs_found. reflexivity.
  - fold search_found. rewrite run_invalid_runs_found.
    cbn [search_invalid_name_characters].
    destruct (invalid_name_character a); [reflexivity|]. apply IH.
Qed.

(** [re.search(r"[^-+\w]+", s)] finds a match exactly when
    [search_invalid_name_characters s] holds. *)
Theorem search_invalid_name_characters_refines : forall s,
  matched (search "[^-+\w]+" s NOFLAG) = Some (search_invalid_name_characters s).
Proof.
  intros s. unfold search. rewrite parse_invalid_runs.
  change (ignorecase NOFLAG) with false.
  rewrite <- search_from_invalid_runs with (pos := 0).
  destruct (search_from false invalid_runs 0 s 0); reflexivity.
Qed.

End SearchFacts.

(* ================================================================= *)
(** ** How the embedded methods fail *)

Lemma passes_passes_or_reports : passes_or_reports (fun b => (b, Returned true)).
Proof. intros b. left. reflexivity. Qed.

Lemma report_and_fail_reports : forall text, passes_or_reports (report_and_fail text).
Proof. intros text b. right. exists text, "". reflexivity. Qed.

Lemma report_details_and_fail_reports : forall text details,
  passes_or_reports (report_details_and_fail text details).
Proof. intros text details b. right. exists text, details. reflexivity. Qed.

Lemma check_materials_reports : forall material_slots polygons mesh_objects,
  passes_or_reports (check_materials material_slots polygons mesh_objects).
Proof.
  intros material_slots polygons.
  induction mesh_objects as [|o rest IH]; intros b; cbn [check_materials]; cbv zeta.
  - left. reflexivity.
  - destruct (0 <? List.length (material_slots o))%nat; [|apply IH].
    destruct (unused_materials _ _ _) as [[|unused left_over]|polygon].
    + apply IH.
    + apply report_and_fail_reports.
    + apply report_details_and_fail_reports.
Qed.

Lemma embedded_validations_report :
  forall EXPORT_COLLECTION material_slots polygons modifiers vertex_groups settings self
         validation,
    In validation
      (embedded_validations EXPORT_COLLECTION material_slots polygons modifiers
         vertex_groups settings self) ->
    passes_or_reports validation.
Proof.
  intros EC material_slots polygons modifiers vertex_groups settings self
    validation Hin b.
  cbn in Hin. destruct Hin as [<-|[<-|[<-|[<-|[<-|[]]]]]].
  - unfold validate_export_objects_exist_impl.
    destruct (_ || _); [left; reflexivity|apply report_and_fail_reports].
  - unfold validate_lod_groups_impl.
    destruct (_ && _); [apply report_and_fail_reports|left; reflexivity].
  - unfold validate_materials_impl.
    destruct (prop_validate_materials settings);
      [apply check_materials_reports|left; reflexivity].
  - unfold validate_object_names_impl.
    destruct (prop_validate_object_names settings); [|left; reflexivity].
    destruct (invalid_object_names _ _) as [name|[|quoted names]].
    + apply report_and_fail_reports.
    + left. reflexivity.
    + apply report_and_fail_reports.
  - unfold validate_meshes_for_vertex_groups_impl. cbv zeta.
    destruct (if prop_validate_meshes_for_vertex_groups settings then _ else _).
    + left. reflexivity.
    + apply report_and_fail_reports.
Qed.

(** X10: the five embedded validation methods that compile no pattern of the
    user ([validate_export_objects_exist], [validate_lod_groups],
    [validate_materials], [validate_object_names] and
    [validate_meshes_for_vertex_groups]) do not return False while the
    variable SEND2UE_DEV is unset or set to a non-empty value: a method
    that does not pass raises RuntimeError and leaves the host as it is.
    With the variable set to the empty string a method that does not pass
    returns False after recording the message and showing the popup. *)
Theorem embedded_validations_fail_by_raising :
  forall EXPORT_COLLECTION material_slots polygons modifiers vertex_groups settings self
         validation (b : Blender),
    In validation
      (embedded_validations EXPORT_COLLECTION material_slots polygons modifiers
         vertex_groups settings self) ->
    (environ_SEND2UE_DEV b <> Some "" ->
     validation b = (b, Returned true)
     \/ exists text, validation b = (b, Raised (RuntimeError text)))
    /\ (environ_SEND2UE_DEV b = Some "" ->
        validation b = (b, Returned true)
        \/ exists text details,
            validation b = (set_error text details b, Returned false)).
Proof.
  intros EC material_slots polygons modifiers vertex_groups settings self
    validation b Hin.
  destruct (embedded_validations_report _ _ _ _ _ _ _ _ Hin b)
    as [Hpass|(text & details & Hfail)].
  - split; intros _; left; exact Hpass.
  - rewrite Hfail. unfold report_details_and_fail, report_error, environ_get_truth.
    split; intros Henv.
    + right. exists (text ++ details).
      destruct (environ_SEND2UE_DEV b) as [value|]; [|reflexivity].
      destruct (value =? "") eqn:E; [|reflexivity].
      apply String.eqb_eq in E. congruence.
    + right. exists text, details. rewrite Henv. reflexivity.
Qed.

(** With LOD and groom import both enabled, [validate_lod_groups] raises in
    the default environment. *)
Lemma embedded_validations_fail_by_raising_witness :
  validate_lod_groups_impl
    {| self_properties := lods_and_grooms; self_mesh_objects := [];
       self_rig_objects := []; self_hair_objects := [] |} empty_host
  = (empty_host,
     Raised (RuntimeError
               ("Groom LODs are currently unsupported at this time. "
                ++ "Please disable either import LODs or import groom."))).
Proof.
  destruct (embedded_validations_fail_by_raising "Export" material_slots_of
              polygons_of rig_modifiers vertex_groups_of all_checks
              {| self_properties := lods_and_grooms; self_mesh_objects := [];
                 self_rig_objects := []; self_hair_objects := [] |}
              (validate_lod_groups_impl
                 {| self_properties := lods_and_grooms; self_mesh_objects := [];
                    self_rig_objects := []; self_hair_objects := [] |})
              empty_host (or_intror (or_introl eq_refl))) as [Hraise _].
  destruct (Hraise ltac:(discriminate)) as [H|[text H]]; [discriminate H|].
  reflexivity.
Defined.

(* ================================================================= *)
(** ** LOD names and the objects to export *)

Section LodNameProperties.
Context {engine : ReEngine}.

Lemma check_lod_names_spec : forall raw_regex lod_regex flags mesh_objects b,
  (snd (check_lod_names raw_regex lod_regex flags mesh_objects b) = Returned true <->
   forall mesh_object, In mesh_object mesh_objects ->
     exists groups,
       re_search ("(" ++ lod_regex ++ ")") (ob_name mesh_object) flags = ReMatch groups)
  /\ (snd (check_lod_names raw_regex lod_regex flags mesh_objects b) = Returned true ->
      fst (check_lod_names raw_regex lod_regex flags mesh_objects b) = b).
Proof.
  intros raw_regex lod_regex flags.
  induction mesh_objects as [|o rest IH]; intros b; cbn [check_lod_names].
  - cbn. split; [|reflexivity]. split; [intros _ o []|reflexivity].
  - destruct (IH b) as [IHiff IHstate].
    destruct (re_search ("(" ++ lod_regex ++ ")") (ob_name o) flags) as [| |groups] eqn:E.
    + split; [|intros H; apply report_and_fail_not_true in H; contradiction].
      split; [intros H; apply report_and_fail_not_true in H; contradiction|].
      intros H. destruct (H o (or_introl eq_refl)) as [groups Hg]. congruence.
    + split; [|intros H; apply report_and_fail_not_true in H; contradiction].
      split; [intros H; apply report_and_fail_not_true in H; contradiction|].
      intros H. destruct (H o (or_introl eq_refl)) as [groups Hg]. congruence.
    + split; [|exact IHstate]. rewrite IHiff. split.
      * intros H o' [<-|Hin]; [eauto|apply H, Hin].
      * intros H o' Hin. apply H. right. exact Hin.
Qed.

(** X11: [validate_lod_names] passes, leaving the host as it is, exactly when
    LOD import is disabled or the search with the configured pattern finds
    a match in the name of every mesh object; without mesh objects it
    passes whatever the pattern, a malformed one included. *)
Theorem validate_lod_names_spec :
  forall (self : ManagerState) (b : Blender),
    let r := validate_lod_names_impl self b in
    (snd r = Returned true <->
     import_lods (self_properties self) = false
     \/ forall mesh_object, In mesh_object (self_mesh_objects self) ->
          exists groups,
            lod_search (ob_name mesh_object) (self_properties self) = ReMatch groups)
    /\ (snd r = Returned true -> fst r = b)
    /\ (self_mesh_objects self = [] -> r = (b, Returned true)).
Proof.
  intros self b r. subst r. unfold validate_lod_names_impl, lod_search.
  destruct (import_lods (self_properties self));
    [|cbn; repeat split; auto].
  destruct (_extract_regex_flags (lod_regex (self_properties self)))
    as [pattern flags]. cbn [fst snd].
  destruct (check_lod_names_spec (lod_regex (self_properties self)) pattern flags
              (self_mesh_objects self) b) as [Hiff Hstate].
  split; [|split; [exact Hstate|]].
  - rewrite Hiff. split; [auto|]. intros [H|H]; [discriminate|exact H].
  - intros ->. reflexivity.
Qed.

End LodNameProperties.

(** A pattern that does not compile goes unnoticed when there is no mesh. *)
Lemma validate_lod_names_spec_witness :
  validate_lod_names_impl (engine := mini_engine)
    {| self_properties := lod_props true "(";
       self_mesh_objects := []; self_rig_objects := []; self_hair_objects := [] |}
    empty_host
  = (empty_host, Returned true)
  /\ re_search (ReEngine := mini_engine) "(()" "Chair" NOFLAG = ReError.
Proof.
  split; [|reflexivity].
  apply (validate_lod_names_spec (engine := mini_engine)
           {| self_properties := lod_props true "(";
              self_mesh_objects := []; self_rig_objects := [];
              self_hair_objects := [] |} empty_host).
  reflexivity.
Defined.

Lemma sorted_by_name_nil : forall l, sorted_by_name l = [] <-> l = [].
Proof.
  intros l. split; [|intros ->; reflexivity].
  intros H. pose proof (sorted_by_name_perm l) as Hp. rewrite H in Hp.
  apply Permutation_sym, Permutation_nil in Hp. exact Hp.
Qed.

Lemma filter_nil : forall (A : Type) (f : A -> bool) l,
  filter f l = [] <-> forall x, In x l -> f x = false.
Proof.
  induction l as [|x l IH]; cbn.
  - split; [intros _ x []|reflexivity].
  - destruct (f x) eqn:Hx.
    + split; [discriminate|]. intros H. rewrite (H x (or_introl eq_refl)) in Hx.
      discriminate.
    + rewrite IH. split.
      * intros H y [<-|Hy]; auto.
      * intros H y Hy. apply H. right. exact Hy.
Qed.

Lemma get_from_collection_nil : forall EXPORT_COLLECTION PreFixToken object_type b,
  get_from_collection EXPORT_COLLECTION PreFixToken object_type b = [] <->
  forall all_objects o,
    collections_get EXPORT_COLLECTION (collections b) = Some all_objects ->
    In o all_objects -> exportable PreFixToken object_type o = false.
Proof.
  intros EC PT ty b. unfold get_from_collection. rewrite sorted_by_name_nil.
  destruct (collections_get EC (collections b)) as [all_objects|].
  - rewrite filter_nil. split.
    + intros H all_objects' o Heq Hin. injection Heq as <-. apply H, Hin.
    + intros H o Hin. eapply H; eauto.
  - split; [discriminate|reflexivity].
Qed.

Section ExportObjectsExist.
Variable EXPORT_COLLECTION : string.
Variable PreFixToken : list string.
Variables MESH SKELETON CURVES : string.

(** X12: On a manager initialised from the scene, [validate_export_objects_exist]
    passes exactly when the export collection exists and holds a visible
    object without a prefix token that is a mesh or an armature or, with
    groom import enabled, a curves object. *)
Theorem validate_export_objects_exist_spec :
  forall (properties : PropertyData) (b b' : Blender),
    let self := init EXPORT_COLLECTION PreFixToken MESH SKELETON CURVES properties b in
    snd (validate_export_objects_exist_impl EXPORT_COLLECTION self b') = Returned true <->
    exists all_objects o,
      collections_get EXPORT_COLLECTION (collections b) = Some all_objects
      /\ In o all_objects
      /\ ob_visible o = true
      /\ has_prefix_token PreFixToken (ob_name o) = false
      /\ (ob_type o = MESH \/ ob_type o = SKELETON
          \/ (import_grooms properties = true /\ ob_type o = CURVES)).
Proof.
  intros properties b b' self. subst self.
  unfold validate_export_objects_exist_impl, init, get_hair_objects.
  cbn [self_mesh_objects self_rig_objects self_hair_objects].
  assert (Hsome : forall ty,
             is_nil (get_from_collection EXPORT_COLLECTION PreFixToken ty b) = false <->
             exists all_objects o,
               collections_get EXPORT_COLLECTION (collections b) = Some all_objects
               /\ In o all_objects
               /\ ob_visible o = true
               /\ has_prefix_token PreFixToken (ob_name o) = false
               /\ ob_type o = ty).
  { intros ty. split.
    - intros H.
      destruct (get_from_collection EXPORT_COLLECTION PreFixToken ty b)
        as [|o l] eqn:E; [discriminate|].
      assert (Hin : In o (get_from_collection EXPORT_COLLECTION PreFixToken ty b))
        by (rewrite E; left; reflexivity).
      pose proof (get_from_collection_exportable _ _ _ _ _ Hin) as Hex.
      unfold get_from_collection in Hin.
      apply (Permutation_in _ (Permutation_sym (sorted_by_name_perm _))) in Hin.
      destruct (collections_get EXPORT_COLLECTION (collections b)) as [all_objects|];
        [|contradiction].
      apply filter_In in Hin as [Hin _].
      unfold exportable in Hex.
      apply andb_true_iff in Hex as [Hex Htok].
      apply andb_true_iff in Hex as [Hty Hvis].
      exists all_objects, o. repeat split; auto.
      + apply negb_true_iff, Htok.
      + apply String.eqb_eq, Hty.
    - intros (all_objects & o & Hget & Hin & Hvis & Htok & Hty).
      destruct (get_from_collection EXPORT_COLLECTION PreFixToken ty b) eqn:E;
        [|reflexivity].
      rewrite get_from_collection_nil in E.
      specialize (E all_objects o Hget Hin). unfold exportable in E.
      rewrite Hvis, Htok in E. apply String.eqb_eq in Hty. rewrite Hty in E.
      discriminate. }
  destruct (is_nil (get_from_collection EXPORT_COLLECTION PreFixToken MESH b)) eqn:Hm.
  2:{ cbn. split; [intros _|reflexivity].
      apply Hsome in Hm as (all_objects & o & H1 & H2 & H3 & H4 & H5).
      exists all_objects, o. auto 10. }
  destruct (is_nil (get_from_collection EXPORT_COLLECTION PreFixToken SKELETON b)) eqn:Hs.
  2:{ cbn. split; [intros _|reflexivity].
      apply Hsome in Hs as (all_objects & o & H1 & H2 & H3 & H4 & H5).
      exists all_objects, o. auto 10. }
  assert (Hnot : forall ty,
             is_nil (get_from_collection EXPORT_COLLECTION PreFixToken ty b) = true ->
             forall all_objects o,
               collections_get EXPORT_COLLECTION (collections b) = Some all_objects ->
               In o all_objects -> ob_visible o = true ->
               has_prefix_token PreFixToken (ob_name o) = false ->
               ob_type o <> ty).
  { intros ty Hnil all_objects o H1 H2 H3 H4 H5.
    assert (is_nil (get_from_collection EXPORT_COLLECTION PreFixToken ty b) = false)
      by (apply Hsome; exists all_objects, o; auto).
    congruence. }
  destruct (import_grooms properties) eqn:Hg.
  - destruct (is_nil (get_from_collection EXPORT_COLLECTION PreFixToken CURVES b)) eqn:Hc.
    + cbn. split; [intros H; apply report_and_fail_not_true in H; contradiction|].
      intros (all_objects & o & H1 & H2 & H3 & H4 & [H5|[H5|[_ H5]]]); exfalso.
      * exact (Hnot MESH Hm all_objects o H1 H2 H3 H4 H5).
      * exact (Hnot SKELETON Hs all_objects o H1 H2 H3 H4 H5).
      * exact (Hnot CURVES Hc all_objects o H1 H2 H3 H4 H5).
    + cbn. split; [intros _|reflexivity].
      apply Hsome in Hc as (all_objects & o & H1 & H2 & H3 & H4 & H5).
      exists all_objects, o. auto 10.
  - cbn. split; [intros H; apply report_and_fail_not_true in H; contradiction|].
    intros (all_objects & o & H1 & H2 & H3 & H4 & [H5|[H5|[H5 _]]]); exfalso.
    + exact (Hnot MESH Hm all_objects o H1 H2 H3 H4 H5).
    + exact (Hnot SKELETON Hs all_objects o H1 H2 H3 H4 H5).
    + discriminate.
Qed.

End ExportObjectsExist.

(** The sample collection has a visible chair, so the method passes. *)
Lemma validate_export_objects_exist_spec_witness :
  snd (validate_export_objects_exist_impl "Export"
         (init "Export" collision_tokens "MESH" "ARMATURE" "CURVES"
            (lod_props false "") (host_with_export sample_objects))
         (host_with_export sample_objects)) = Returned true.
Proof.
  apply (validate_export_objects_exist_spec "Export" collision_tokens
           "MESH" "ARMATURE" "CURVES").
  exists sample_objects, (mesh "Chair" true).
  split; [reflexivity|]. split; [cbn; tauto|]. cbn. auto.
Defined.

(* ================================================================= *)
(** ** The parent collection of an object *)

(** The loop over the children, as the walk inside [get_parent_collection]
    unfolds. *)
Lemma get_parent_collection_children : forall scene_object name objects child rest,
  get_parent_collection scene_object (Coll name objects (child :: rest))
  = if holds_object scene_object child then Some (coll_name child)
    else match get_parent_collection scene_object child with
         | Some parent_collection =>
             if negb (parent_collection =? "") then Some parent_collection
             else get_parent_collection scene_object (Coll name objects rest)
         | None => get_parent_collection scene_object (Coll name objects rest)
         end.
Proof. reflexivity. Qed.

Lemma hd_error_app : forall (A : Type) (l1 l2 : list A),
  hd_error (l1 ++ l2) = match hd_error l1 with Some x => Some x | None => hd_error l2 end.
Proof. intros A [|x l1] l2; reflexivity. Qed.

Lemma holders_children : forall scene_object name objects child rest,
  map coll_name
    (filter (holds_object scene_object) (descendants (Coll name objects (child :: rest))))
  = ((if holds_object scene_object child then [coll_name child] else [])
     ++ map coll_name (filter (holds_object scene_object) (descendants child))
     ++ map coll_name
          (filter (holds_object scene_object) (descendants (Coll name objects rest))))%list.
Proof.
  intros scene_object name objects child rest.
  cbn [descendants flat_map]. rewrite filter_app, map_app. cbn [filter].
  destruct (holds_object scene_object child); reflexivity.
Qed.

(** X13: In a tree whose collections below the root all have a name,
    [get_parent_collection] returns the name of the first collection below
    the root, parents before children and siblings in order, that holds the
    object, and [None] when there is none; the objects of the root itself
    are not looked at. *)
Theorem get_parent_collection_first :
  forall (scene_object : string) (collection : Collection),
    (forall c, In c (descendants collection) -> coll_name c <> "") ->
    get_parent_collection scene_object collection
    = hd_error (map coll_name
                  (filter (holds_object scene_object) (descendants collection))).
Proof.
  intros scene_object collection. pattern collection.
  apply Collection_forall_ind. clear collection.
  intros name objects children IH.
  induction IH as [|child rest Hchild _ IHrest]; intros Hnames; [reflexivity|].
  rewrite get_parent_collection_children, holders_children.
  assert (Hchild_names : forall c, In c (descendants child) -> coll_name c <> "").
  { intros c Hc. apply Hnames. cbn [descendants flat_map].
    apply in_or_app. left. right. exact Hc. }
  assert (Hrest_names : forall c, In c (descendants (Coll name objects rest)) ->
                                  coll_name c <> "").
  { intros c Hc. apply Hnames. cbn [descendants flat_map].
    apply in_or_app. right. exact Hc. }
  destruct (holds_object scene_object child); [reflexivity|].
  pose proof (Hchild Hchild_names) as Hc.
  cbn [app]. rewrite hd_error_app, <- Hc, <- (IHrest Hrest_names).
  destruct (get_parent_collection scene_object child) as [found|]; [|reflexivity].
  destruct (found =? "") eqn:Hempty; [|reflexivity].
  exfalso. apply String.eqb_eq in Hempty. subst found.
  destruct (filter (holds_object scene_object) (descendants child)) as [|c l] eqn:Hf;
    cbn [map hd_error] in Hc; [discriminate Hc|].
  injection Hc as Hname.
  apply (Hchild_names c); [|symmetry; exact Hname].
  assert (Hin : In c (filter (holds_object scene_object) (descendants child)))
    by (rewrite Hf; left; reflexivity).
  apply filter_In in Hin. tauto.
Qed.

(** The lamp is in [Props] and in [Spare]: the first one in the walk is
    returned; the camera, linked to the root only, has no parent. *)
Lemma get_parent_collection_first_witness :
  get_parent_collection "Lamp" scene_collection = Some "Props"
  /\ get_parent_collection "Table" scene_collection = Some "Spare"
  /\ get_parent_collection "Camera" scene_collection = None.
Proof.
  assert (Hnames : forall c, In c (descendants scene_collection) -> coll_name c <> "").
  { intros c Hc. cbn in Hc.
    destruct Hc as [<-|[<-|[<-|[<-|[]]]]]; discriminate. }
  split; [|split].
  - rewrite (get_parent_collection_first "Lamp" scene_collection Hnames). reflexivity.
  - rewrite (get_parent_collection_first "Table" scene_collection Hnames). reflexivity.
  - rewrite (get_parent_collection_first "Camera" scene_collection Hnames). reflexivity.
Defined.

(* ================================================================= *)
(** ** Asset ids *)

Module AssetIdFacts.
Import PyBytes.

Ltac euclid := zify; Z.to_euclidean_division_equations; lia.

Lemma b64_digit_nat : forall k : nat,
  (k < 64)%nat ->
  b64_value (b64_digit (N.of_nat k)) = Some (N.of_nat k)
  /\ (b64_digit (N.of_nat k) =? b64_pad)%N = false
  /\ (b64_digit (N.of_nat k) <? 128)%N = true
  /\ is_b64_char (ascii_of_N (b64_digit (N.of_nat k))) = true.
Proof.
  intros k Hk.
  do 64 (destruct k as [|k]; [vm_compute; repeat split; reflexivity|]).
  lia.
Qed.

Lemma b64_digit_facts : forall v : N,
  (v < 64)%N ->
  b64_value (b64_digit v) = Some v
  /\ (b64_digit v =? b64_pad)%N = false
  /\ (b64_digit v <? 128)%N = true
  /\ is_b64_char (ascii_of_N (b64_digit v)) = true.
Proof.
  intros v Hv. rewrite <- (N2Nat.id v). apply b64_digit_nat. lia.
Qed.

Lemma b64_pad_char :
  (b64_pad <? 128)%N = true /\ is_b64_char (ascii_of_N b64_pad) = true.
Proof. split; reflexivity. Qed.

(** Induction on a list, three elements at a time. *)
Lemma list_ind3 : forall (A : Type) (P : list A -> Prop),
  P [] -> (forall a, P [a]) -> (forall a b, P [a; b]) ->
  (forall a b c rest, P rest -> P (a :: b :: c :: rest)) ->
  forall l, P l.
Proof.
  intros A P H0 H1 H2 H3 l.
  assert (H : P l /\ (forall a, P (a :: l)) /\ (forall a b, P (a :: b :: l))).
  { induction l as [|c l (IH0 & IH1 & IH2)]; [auto|].
    split; [apply IH1|]. split; [intros a; apply IH2|].
    intros a b. apply H3, IH0. }
  apply H.
Qed.

Lemma decode_group_of_three : forall v0 v1 v2 v3 rest,
  (v0 < 64)%N -> (v1 < 64)%N -> (v2 < 64)%N -> (v3 < 64)%N ->
  b64decode (b64_digit v0 :: b64_digit v1 :: b64_digit v2 :: b64_digit v3 :: rest)
  = match b64decode rest with
    | Some tail =>
        let n := (v0 * 262144 + v1 * 4096 + v2 * 64 + v3)%N in
        Some ((n / 65536)%N :: (n / 256 mod 256)%N :: (n mod 256)%N :: tail)
    | None => None
    end.
Proof.
  intros v0 v1 v2 v3 rest H0 H1 H2 H3. cbn [b64decode].
  destruct (b64_digit_facts v0 H0) as (-> & _).
  destruct (b64_digit_facts v1 H1) as (-> & _).
  destruct (b64_digit_facts v2 H2) as (-> & -> & _).
  destruct (b64_digit_facts v3 H3) as (-> & -> & _).
  reflexivity.
Qed.

Lemma decode_group_of_two : forall v0 v1 v2,
  (v0 < 64)%N -> (v1 < 64)%N -> (v2 < 64)%N ->
  b64decode [b64_digit v0; b64_digit v1; b64_digit v2; b64_pad]
  = let n := ((v0 * 4096 + v1 * 64 + v2) / 4)%N in Some [(n / 256)%N; (n mod 256)%N].
Proof.
  intros v0 v1 v2 H0 H1 H2. cbn [b64decode].
  destruct (b64_digit_facts v0 H0) as (-> & _).
  destruct (b64_digit_facts v1 H1) as (-> & _).
  destruct (b64_digit_facts v2 H2) as (-> & -> & _).
  reflexivity.
Qed.

Lemma decode_group_of_one : forall v0 v1,
  (v0 < 64)%N -> (v1 < 64)%N ->
  b64decode [b64_digit v0; b64_digit v1; b64_pad; b64_pad]
  = Some [((v0 * 64 + v1) / 16)%N].
Proof.
  intros v0 v1 H0 H1. cbn [b64decode].
  destruct (b64_digit_facts v0 H0) as (-> & _).
  destruct (b64_digit_facts v1 H1) as (-> & _).
  reflexivity.
Qed.

(** Decoding the base64 text of some bytes gives the bytes back. *)
Lemma b64_round_trip : forall data,
  is_bytes data -> b64decode (b64encode data) = Some data.
Proof.
  unfold is_bytes.
  induction data as [|a|a b|a b c rest IH] using list_ind3; intros Hb.
  - reflexivity.
  - apply Forall_cons_iff in Hb as [Ha _].
    cbn [b64encode]. cbv zeta.
    rewrite decode_group_of_one by euclid. do 2 f_equal. euclid.
  - apply Forall_cons_iff in Hb as [Ha Hb]. apply Forall_cons_iff in Hb as [Hb _].
    cbn [b64encode]. cbv zeta.
    rewrite decode_group_of_two by euclid. cbv zeta.
    f_equal. f_equal; [euclid|]. f_equal. euclid.
  - apply Forall_cons_iff in Hb as [Ha Hb]. apply Forall_cons_iff in Hb as [Hb Hc].
    apply Forall_cons_iff in Hc as [Hc Hrest].
    cbn [b64encode]. cbv zeta.
    rewrite decode_group_of_three by euclid.
    rewrite (IH Hrest). cbv zeta.
    f_equal. f_equal; [euclid|]. f_equal; [euclid|]. f_equal. euclid.
Qed.

Lemma utf8_char_round_trip : forall c rest,
  utf8_decode (utf8_encode_char c ++ rest) = option_map (String c) (utf8_decode rest).
Proof. intros [[] [] [] [] [] [] [] []] rest; reflexivity. Qed.

Lemma utf8_char_bytes : forall c, is_bytes (utf8_encode_char c).
Proof.
  intros [[] [] [] [] [] [] [] []]; vm_compute; repeat constructor.
Qed.

(** Decoding the UTF-8 bytes of a string gives the string back. *)
Lemma utf8_round_trip : forall s, utf8_decode (utf8_encode s) = Some s.
Proof.
  induction s as [|c s IH]; [reflexivity|].
  cbn [utf8_encode]. rewrite utf8_char_round_trip, IH. reflexivity.
Qed.

Lemma utf8_encode_bytes : forall s, is_bytes (utf8_encode s).
Proof.
  induction s as [|c s IH]; [constructor|].
  cbn [utf8_encode]. apply Forall_app. split; [apply utf8_char_bytes|exact IH].
Qed.

(** The text that [b64encode] writes is made of characters below 128, and
    has four characters for every three bytes or part of it. *)
Lemma b64encode_text : forall data,
  is_bytes data ->
  is_ascii_text (b64encode data)
  /\ List.length (b64encode data) = 4 * ((List.length data + 2) / 3).
Proof.
  unfold is_bytes, is_ascii_text.
  assert (Hd : forall v, (v < 64)%N ->
                 (b64_digit v <? 128)%N = true
                 /\ is_b64_char (ascii_of_N (b64_digit v)) = true)
    by (intros v Hv; destruct (b64_digit_facts v Hv) as (_ & _ & H1 & H2); auto).
  induction data as [|a|a b|a b c rest IH] using list_ind3; intros Hb.
  - split; [constructor|reflexivity].
  - apply Forall_cons_iff in Hb as [Ha _].
    cbn [b64encode]. cbv zeta. split; [|reflexivity].
    repeat (apply Forall_cons; [try (apply Hd; euclid); apply b64_pad_char|]).
    constructor.
  - apply Forall_cons_iff in Hb as [Ha Hb]. apply Forall_cons_iff in Hb as [Hb _].
    cbn [b64encode]. cbv zeta. split; [|reflexivity].
    repeat (apply Forall_cons; [try (apply Hd; euclid); apply b64_pad_char|]).
    constructor.
  - apply Forall_cons_iff in Hb as [Ha Hb]. apply Forall_cons_iff in Hb as [Hb Hc].
    apply Forall_cons_iff in Hc as [Hc Hrest].
    destruct (IH Hrest) as [IHtext IHlen].
    cbn [b64encode]. cbv zeta. split.
    + do 4 (apply Forall_cons; [apply Hd; euclid|]). exact IHtext.
    + cbn [List.length]. rewrite IHlen.
      replace (S (S (S (List.length rest))) + 2) with (List.length rest + 2 + 1 * 3)
        by lia.
      rewrite Nat.div_add by lia. lia.
Qed.

(** Text below 128 decodes character by character. *)
Lemma utf8_decode_ascii : forall text,
  is_ascii_text text ->
  exists s,
    utf8_decode text = Some s
    /\ map N_of_ascii (list_ascii_of_string s) = text
    /\ all_b64 s = true.
Proof.
  unfold is_ascii_text.
  induction text as [|d text IH]; intros H.
  - exists EmptyString. repeat split.
  - apply Forall_cons_iff in H as [[Hd Hc] H].
    destruct (IH H) as (s & Hs & Hcodes & Hall).
    exists (String (ascii_of_N d) s). cbn [utf8_decode]. rewrite Hd, Hs.
    split; [reflexivity|]. split.
    + cbn [list_ascii_of_string map]. rewrite Hcodes, N_ascii_embedding; [reflexivity|].
      apply N.ltb_lt in Hd. lia.
    + cbn [all_b64]. rewrite Hc, Hall. reflexivity.
Qed.

End AssetIdFacts.

(** X14: [get_asset_id] returns for every file path; the id is made of
    characters of the base64 alphabet and of the padding character, and has
    four characters for every three bytes, or part of it, of the UTF-8
    encoding of the path. *)
Theorem get_asset_id_shape : forall file_path,
  exists asset_id,
    get_asset_id file_path = Some asset_id
    /\ PyBytes.all_b64 asset_id = true
    /\ String.length asset_id
       = 4 * ((List.length (PyBytes.utf8_encode file_path) + 2) / 3).
Proof.
  intros file_path. unfold get_asset_id.
  destruct (AssetIdFacts.b64encode_text _ (AssetIdFacts.utf8_encode_bytes file_path))
    as [Htext Hlen].
  destruct (AssetIdFacts.utf8_decode_ascii _ Htext) as (s & Hs & Hcodes & Hall).
  exists s. split; [exact Hs|]. split; [exact Hall|].
  rewrite <- Hlen, <- Hcodes, length_map.
  clear. induction s as [|c s IH]; cbn; [reflexivity|]. rewrite IH. reflexivity.
Qed.

(** X15: Two file paths with the same asset id are the same path. *)
Theorem get_asset_id_injective : forall file_path other_path,
  get_asset_id file_path = get_asset_id other_path -> file_path = other_path.
Proof.
  intros p q H. unfold get_asset_id in H.
  destruct (AssetIdFacts.b64encode_text _ (AssetIdFacts.utf8_encode_bytes p))
    as [Hp _].
  destruct (AssetIdFacts.b64encode_text _ (AssetIdFacts.utf8_encode_bytes q))
    as [Hq _].
  destruct (AssetIdFacts.utf8_decode_ascii _ Hp) as (s & Hs & Hcodes & _).
  destruct (AssetIdFacts.utf8_decode_ascii _ Hq) as (t & Ht & Hcodet & _).
  rewrite Hs, Ht in H. injection H as ->.
  assert (Htext : PyBytes.b64encode (PyBytes.utf8_encode p)
                  = PyBytes.b64encode (PyBytes.utf8_encode q)) by congruence.
  apply (f_equal PyBytes.b64decode) in Htext.
  rewrite !AssetIdFacts.b64_round_trip in Htext
    by apply AssetIdFacts.utf8_encode_bytes.
  injection Htext as Hbytes.
  apply (f_equal PyBytes.utf8_decode) in Hbytes.
  rewrite !AssetIdFacts.utf8_round_trip in Hbytes. congruence.
Qed.

(** Two paths that differ in the case of one letter get different ids. *)
Lemma get_asset_id_injective_witness :
  get_asset_id "Chair.fbx" = Some "Q2hhaXIuZmJ4"
  /\ get_asset_id "chair.fbx" = Some "Y2hhaXIuZmJ4"
  /\ (get_asset_id "Chair.fbx" = get_asset_id "Chair.fbx" -> "Chair.fbx" = "Chair.fbx").
Proof.
  split; [reflexivity|]. split; [reflexivity|].
  apply (get_asset_id_injective "Chair.fbx" "Chair.fbx").
Defined.

(* ================================================================= *)
(** ** The asset name of a file *)

Module PathFacts.
Import PosixPath.

Lemma rfind_absent : forall c s, contains c s = false -> rfind c s = (-1)%Z.
Proof.
  induction s as [|d s IH]; cbn; [reflexivity|].
  intros H. apply orb_false_iff in H as [Hd Hs].
  rewrite (IH Hs), Hd. reflexivity.
Qed.

(** The last [c] of [a ++ c :: b], when [b] has none, is right after [a]. *)
Lemma rfind_last : forall c a b,
  contains c b = false ->
  rfind c (a ++ String c b) = Z.of_nat (String.length a).
Proof.
  induction a as [|d a IH]; intros b Hb.
  - cbn. rewrite (rfind_absent c b Hb), Ascii.eqb_refl. reflexivity.
  - cbn [append rfind String.length]. rewrite (IH b Hb). cbv zeta.
    destruct (0 <=? Z.of_nat (String.length a))%Z eqn:E; [lia|].
    apply Z.leb_gt in E. lia.
Qed.

Lemma contains_app : forall c a b, contains c (a ++ b) = contains c a || contains c b.
Proof.
  induction a as [|d a IH]; intros b; cbn; [reflexivity|].
  rewrite IH. apply orb_assoc.
Qed.

Lemma drop_app : forall a b, PyStr.drop (String.length a) (a ++ b) = b.
Proof. induction a as [|c a IH]; intros b; cbn; [destruct b|]; auto. Qed.

Lemma take_app : forall a b, take (String.length a) (a ++ b) = a.
Proof. induction a as [|c a IH]; intros b; cbn; [reflexivity|]. now rewrite IH. Qed.

Lemma get_app : forall a c b, String.get (String.length a) (a ++ String c b) = Some c.
Proof. induction a as [|d a IH]; intros c b; cbn; [reflexivity|apply IH]. Qed.

Lemma name_before_dot_found : forall stem before rest,
  all_dots stem = false ->
  name_before_dot (before ++ stem ++ rest) (String.length before) (String.length stem)
  = true.
Proof.
  induction stem as [|c stem IH]; intros before rest H; [discriminate|].
  cbn [String.length name_before_dot append].
  rewrite get_app. cbn [all_dots] in H.
  destruct (c =? ".")%char eqn:Hc; [|reflexivity]. cbn [negb andb] in *.
  specialize (IH (before ++ String c "") rest H).
  rewrite PyStrFacts.append_assoc, ParseFacts.append_length in IH.
  cbn [append String.length] in IH.
  rewrite Nat.add_1_r in IH. exact IH.
Qed.

(** The base name of a path made of nothing or a directory and a slash,
    followed by a name without a slash. *)
Lemma basename_of_name : forall prefix name,
  prefix = "" \/ (exists dir, prefix = dir ++ "/") ->
  contains "/" name = false ->
  basename (prefix ++ name) = name.
Proof.
  intros prefix name [->|[dir ->]] Hname; unfold basename, slice_from; cbv zeta.
  - cbn [append]. rewrite (rfind_absent _ _ Hname). reflexivity.
  - rewrite PyStrFacts.append_assoc. cbn [append].
    rewrite (rfind_last _ dir name Hname).
    replace (Z.to_nat (Z.of_nat (String.length dir) + 1)) with (S (String.length dir))
      by lia.
    change (String "/" name) with ("/" ++ name).
    rewrite <- PyStrFacts.append_assoc.
    replace (S (String.length dir)) with (String.length (dir ++ "/"))
      by (rewrite ParseFacts.append_length; cbn; lia).
    apply drop_app.
Qed.

End PathFacts.

(** X16: On a path made of an optional directory, a file name that has a
    character other than a dot, and an extension without a dot,
    [get_asset_name_from_file_name] returns the file name, inner dots
    included; on a file name without any dot it returns the file name. *)
Theorem get_asset_name_from_file_name_stem :
  forall (prefix stem ext : string),
    prefix = "" \/ (exists dir, prefix = dir ++ "/") ->
    PosixPath.contains "/" stem = false ->
    all_dots stem = false ->
    PosixPath.contains "/" ext = false ->
    PosixPath.contains "." ext = false ->
    get_asset_name_from_file_name (prefix ++ stem ++ "." ++ ext) = Some stem
    /\ (PosixPath.contains "." stem = false ->
        get_asset_name_from_file_name (prefix ++ stem) = Some stem).
Proof.
  intros prefix stem ext Hprefix Hstem Hdots Hext_sep Hext_dot.
  assert (Hnonempty : forall rest, (prefix ++ stem ++ rest =? "") = false).
  { intros rest. destruct prefix; [|reflexivity].
    destruct stem; [discriminate|reflexivity]. }
  unfold get_asset_name_from_file_name. split.
  - rewrite Hnonempty. cbn [negb].
    rewrite PathFacts.basename_of_name;
      [|exact Hprefix
       |rewrite PathFacts.contains_app, Hstem; cbn; exact Hext_sep].
    unfold PosixPath.splitext. cbn [append].
    rewrite (PathFacts.rfind_last "." stem ext Hext_dot).
    rewrite PathFacts.rfind_absent
      by (rewrite PathFacts.contains_app, Hstem; cbn; exact Hext_sep).
    cbv zeta.
    destruct (-1 <? Z.of_nat (String.length stem))%Z eqn:E;
      [|apply Z.ltb_ge in E; lia].
    replace (Z.to_nat (Z.of_nat (String.length stem) - (-1 + 1)))
      with (String.length stem) by lia.
    change (Z.to_nat (-1 + 1)) with (String.length "").
    change (stem ++ String "." ext) with ("" ++ stem ++ String "." ext).
    rewrite PathFacts.name_before_dot_found by exact Hdots.
    cbn [fst append]. unfold PosixPath.slice_to.
    rewrite Nat2Z.id. f_equal. apply PathFacts.take_app.
  - intros Hnodot.
    specialize (Hnonempty ""). rewrite PyStrFacts.append_empty_r in Hnonempty.
    rewrite Hnonempty. cbn [negb].
    rewrite PathFacts.basename_of_name by assumption.
    unfold PosixPath.splitext.
    rewrite (PathFacts.rfind_absent "." stem Hnodot),
      (PathFacts.rfind_absent "/" stem Hstem).
    reflexivity.
Qed.

(** A file in a folder, and a name with the suffix that Blender gives to a
    duplicate. *)
Lemma get_asset_name_from_file_name_stem_witness :
  get_asset_name_from_file_name "/tmp/send2ue/Chair.001.fbx" = Some "Chair.001"
  /\ get_asset_name_from_file_name "Chair.001" = Some "Chair"
  /\ get_asset_name_from_file_name "/tmp/send2ue/Chair" = Some "Chair".
Proof.
  split; [|split].
  - apply (get_asset_name_from_file_name_stem "/tmp/send2ue/" "Chair.001" "fbx");
      try reflexivity.
    right. exists "/tmp/send2ue". reflexivity.
  - apply (get_asset_name_from_file_name_stem "" "Chair" "001"); try reflexivity.
    left. reflexivity.
  - apply (get_asset_name_from_file_name_stem "/tmp/send2ue/" "Chair" "fbx");
      try reflexivity.
    right. exists "/tmp/send2ue". reflexivity.
Defined.

(* ================================================================= *)
(** ** Asset names and groom names *)

Lemma lstrip_length : forall s,
  String.length (PyStr.lstrip s) <= String.length s.
Proof.
  induction s as [|c s IH]; cbn; [lia|].
  destruct (PyStr.is_space c); cbn; lia.
Qed.

Lemma rstrip_length : forall s,
  String.length (PyStr.rstrip s) <= String.length s.
Proof.
  induction s as [|c s IH]; cbn; [lia|].
  destruct (PyStr.rstrip s); [destruct (PyStr.is_space c)|]; cbn in *; lia.
Qed.

Lemma sub_invalid_runs_length : forall s in_run,
  String.length (sub_invalid_runs s in_run) <= String.length s.
Proof.
  induction s as [|c s IH]; intros in_run; cbn; [lia|].
  destruct (invalid_name_character c); [destruct in_run|]; cbn;
    match goal with |- context [sub_invalid_runs s ?b] => specialize (IH b) end; lia.
Qed.

Lemma replace_scan_delete_length : forall old s skip,
  String.length (PyStr.replace_scan old "" s skip) <= String.length s.
Proof.
  induction s as [|c s IH]; intros skip; cbn [PyStr.replace_scan String.length]; [lia|].
  destruct skip as [|k]; [|specialize (IH k); lia].
  destruct (PyStr.startswith (String c s) old); cbn [append String.length].
  - specialize (IH (String.length old - 1)). lia.
  - specialize (IH 0). lia.
Qed.

Lemma replace_delete_length : forall s old,
  String.length (PyStr.replace s old "") <= String.length s.
Proof.
  intros s [|c old]; unfold PyStr.replace.
  - rewrite PyStrFacts.interleave_empty. lia.
  - apply replace_scan_delete_length.
Qed.

Lemma normalized_length : forall s,
  String.length (sub_invalid_name_characters (PyStr.strip s)) <= String.length s.
Proof.
  intros s. unfold sub_invalid_name_characters, PyStr.strip.
  pose proof (sub_invalid_runs_length (PyStr.rstrip (PyStr.lstrip s)) false).
  pose proof (rstrip_length (PyStr.lstrip s)).
  pose proof (lstrip_length s). lia.
Qed.

(** X17: Whatever the engine, the pattern and the flag [lod], a name that
    [get_asset_name] returns is made of allowed characters only and is not
    longer than the name it was given; without LOD import the function
    returns, and the name is the stripped one with each run of characters
    that are not allowed turned into one underscore. *)
Theorem get_asset_name_returns_valid_name :
  forall (engine : ReEngine) (asset_name : string) (properties : PropertyData)
         (lod : bool),
    (forall r, get_asset_name asset_name properties lod = Returned r ->
               all_valid r = true /\ String.length r <= String.length asset_name)
    /\ (import_lods properties = false ->
        get_asset_name asset_name properties lod
        = Returned (sub_invalid_name_characters (PyStr.strip asset_name))).
Proof.
  intros engine asset_name properties lod. split.
  - intros r Hr. split; [eapply get_asset_name_valid; exact Hr|].
    unfold get_asset_name in Hr.
    pose proof (normalized_length asset_name) as Hlen.
    destruct (import_lods properties); [|injection Hr as <-; exact Hlen].
    destruct (_extract_regex_flags (lod_regex properties)) as [pattern flags].
    destruct (re_search _ _ flags) as [| |groups];
      try (injection Hr as <-; exact Hlen).
    destruct (negb lod); [|injection Hr as <-; exact Hlen].
    destruct groups as [|[g|] groups]; try discriminate.
    injection Hr as <-.
    pose proof (replace_delete_length
                  (sub_invalid_name_characters (PyStr.strip asset_name)) g).
    lia.
  - intros Hoff. unfold get_asset_name. rewrite Hoff. reflexivity.
Qed.

Section CurvesProperties.
Variable modifiers : BObject -> list Modifier.
Variable parent : BObject -> option BObject.
Variable MESH : string.

Lemma surface_deform_target_spec : forall ms,
  match surface_deform_target MESH ms with
  | Some target =>
      ob_type target = MESH
      /\ exists before modifier after,
           ms = (before ++ modifier :: after)%list
           /\ md_type modifier = "SURFACE_DEFORM"
           /\ md_target modifier = Some target
           /\ forall m t, In m before -> md_type m = "SURFACE_DEFORM" ->
                          md_target m = Some t -> ob_type t <> MESH
  | None =>
      forall m t, In m ms -> md_type m = "SURFACE_DEFORM" ->
                  md_target m = Some t -> ob_type t <> MESH
  end.
Proof.
  induction ms as [|m ms IH]; cbn [surface_deform_target].
  - intros m t [].
  - assert (Hskip :
        (forall t, md_type m = "SURFACE_DEFORM" -> md_target m = Some t ->
                   ob_type t <> MESH) ->
        match surface_deform_target MESH ms with
        | Some target =>
            ob_type target = MESH
            /\ exists before modifier after,
                 m :: ms = (before ++ modifier :: after)%list
                 /\ md_type modifier = "SURFACE_DEFORM"
                 /\ md_target modifier = Some target
                 /\ forall m0 t, In m0 before -> md_type m0 = "SURFACE_DEFORM" ->
                                 md_target m0 = Some t -> ob_type t <> MESH
        | None =>
            forall m0 t, In m0 (m :: ms) -> md_type m0 = "SURFACE_DEFORM" ->
                         md_target m0 = Some t -> ob_type t <> MESH
        end).
    { intros Hm. destruct (surface_deform_target MESH ms) as [target|].
      - destruct IH as (Hty & before & modifier & after & Hms & H1 & H2 & H3).
        split; [exact Hty|].
        exists (m :: before), modifier, after. rewrite Hms.
        repeat split; auto.
        intros m0 t [<-|Hin]; [apply Hm|apply H3, Hin].
      - intros m0 t [<-|Hin]; [apply Hm|apply IH, Hin]. }
    destruct (md_type m =? "SURFACE_DEFORM") eqn:Hty.
    + apply String.eqb_eq in Hty.
      destruct (md_target m) as [target|] eqn:Htarget.
      * destruct (ob_type target =? MESH) eqn:Hmesh.
        -- apply String.eqb_eq in Hmesh. split; [exact Hmesh|].
           exists [], m, ms. repeat split; try (intros m0 t []); auto.
        -- apply String.eqb_neq in Hmesh. apply Hskip.
           intros t _ Ht. injection Ht as <-. exact Hmesh.
      * apply Hskip. intros t _ Ht. discriminate.
    + apply String.eqb_neq in Hty. apply Hskip. intros t H. contradiction.
Qed.

(** X18: The object that [get_mesh_object_from_curves] returns is always a
    mesh: the target of the first surface deform modifier whose target is a
    mesh or, when no such modifier exists, the parent if that is a mesh.
    It returns [None] exactly when no surface deform modifier targets a
    mesh and the parent is not a mesh. *)
Theorem get_mesh_object_from_curves_spec : forall curves_object,
  match get_mesh_object_from_curves modifiers parent MESH curves_object with
  | Some mesh_object =>
      ob_type mesh_object = MESH
      /\ ((exists before modifier after,
              modifiers curves_object = (before ++ modifier :: after)%list
              /\ md_type modifier = "SURFACE_DEFORM"
              /\ md_target modifier = Some mesh_object
              /\ forall m t, In m before -> md_type m = "SURFACE_DEFORM" ->
                             md_target m = Some t -> ob_type t <> MESH)
          \/ ((forall m t, In m (modifiers curves_object) ->
                           md_type m = "SURFACE_DEFORM" ->
                           md_target m = Some t -> ob_type t <> MESH)
              /\ parent curves_object = Some mesh_object))
  | None =>
      (forall m t, In m (modifiers curves_object) -> md_type m = "SURFACE_DEFORM" ->
                   md_target m = Some t -> ob_type t <> MESH)
      /\ (forall p, parent curves_object = Some p -> ob_type p <> MESH)
  end.
Proof.
  intros o. unfold get_mesh_object_from_curves.
  pose proof (surface_deform_target_spec (modifiers o)) as Hloop.
  destruct (surface_deform_target MESH (modifiers o)) as [target|].
  - destruct Hloop as [Hty Hfirst]. split; [exact Hty|]. left. exact Hfirst.
  - destruct (parent o) as [p|] eqn:Hp.
    + destruct (ob_type p =? MESH) eqn:Hmesh.
      * apply String.eqb_eq in Hmesh. split; [exact Hmesh|]. right. auto.
      * apply String.eqb_neq in Hmesh. split; [exact Hloop|].
        intros p' Hp'. injection Hp' as <-. exact Hmesh.
    + split; [exact Hloop|]. intros p' Hp'. discriminate.
Qed.

End CurvesProperties.

(** The hair is bound to the head by its third surface deform modifier and
    the brows by parenting; a curves object without either has no mesh. *)
Lemma get_mesh_object_from_curves_spec_witness :
  get_mesh_object_from_curves hair_modifiers hair_parent "MESH" (curves "Hair")
  = Some (mesh "Head LOD0" true)
  /\ get_mesh_object_from_curves hair_modifiers hair_parent "MESH" (curves "Brows")
     = Some (mesh "Face" true)
  /\ forall p, hair_parent (curves "Beard") = Some p -> ob_type p <> "MESH".
Proof.
  split; [reflexivity|]. split; [reflexivity|].
  apply (get_mesh_object_from_curves_spec hair_modifiers hair_parent "MESH"
           (curves "Beard")).
Defined.

Lemma get_asset_name_returns_valid_name_witness :
  get_asset_name (engine := mini_engine) "  Chair top!_LOD2 " (lod_props true "(?i)(_LOD\d)")
    false = Returned "Chair_top_"
  /\ all_valid "Chair_top_" = true
  /\ get_asset_name (engine := mini_engine) "   " (lod_props false "") false = Returned "".
Proof.
  split; [reflexivity|]. split; [|reflexivity].
  apply (proj1 (get_asset_name_returns_valid_name mini_engine "  Chair top!_LOD2 "
                  (lod_props true "(?i)(_LOD\d)") false) "Chair_top_").
  reflexivity.
Defined.

(* ================================================================= *)
(** ** Restoring a context twice *)






(* ================================================================= *)
(** ** Whitespace around a name *)

Lemma lstrip_starts_clean : forall s, starts_clean (PyStr.lstrip s).
Proof.
  induction s as [|c s IH]; cbn; [exact I|].
  destruct (PyStr.is_space c) eqn:E; [exact IH|exact E].
Qed.

Lemma rstrip_starts_clean : forall s, starts_clean s -> starts_clean (PyStr.rstrip s).
Proof.
  intros [|c s] H; cbn; [exact I|]. cbn in H.
  destruct (PyStr.rstrip s); [rewrite H|]; exact H.
Qed.

Lemma lstrip_clean : forall s, starts_clean s -> PyStr.lstrip s = s.
Proof. intros [|c s] H; cbn in *; [reflexivity|]. rewrite H. reflexivity. Qed.

Lemma rstrip_cons : forall c s,
  PyStr.rstrip (String c s)
  = match PyStr.rstrip s with
    | EmptyString => if PyStr.is_space c then EmptyString else String c EmptyString
    | r => String c r
    end.
Proof. reflexivity. Qed.

Lemma rstrip_idempotent : forall s, PyStr.rstrip (PyStr.rstrip s) = PyStr.rstrip s.
Proof.
  induction s as [|c s IH]; [reflexivity|]. rewrite rstrip_cons.
  destruct (PyStr.rstrip s) as [|d r] eqn:E.
  - destruct (PyStr.is_space c) eqn:Hc; [reflexivity|].
    rewrite rstrip_cons. cbn [PyStr.rstrip]. rewrite Hc. reflexivity.
  - rewrite rstrip_cons, IH. reflexivity.
Qed.

Lemma strip_idempotent : forall s, PyStr.strip (PyStr.strip s) = PyStr.strip s.
Proof.
  intros s. unfold PyStr.strip.
  rewrite (lstrip_clean (PyStr.rstrip (PyStr.lstrip s)))
    by apply rstrip_starts_clean, lstrip_starts_clean.
  apply rstrip_idempotent.
Qed.

(** X20: Whitespace around a mesh name makes no difference to
    [is_collision_of], to [get_asset_name] or to [is_lod_of]: each gives on
    the stripped name what it gives on the name. *)
Theorem names_ignore_surrounding_whitespace :
  forall (engine : ReEngine) (asset_name name : string) (properties : PropertyData)
         (lod : bool),
    is_collision_of asset_name (PyStr.strip name) properties
    = is_collision_of asset_name name properties
    /\ get_asset_name (PyStr.strip name) properties lod
       = get_asset_name name properties lod
    /\ is_lod_of asset_name (PyStr.strip name) properties
       = is_lod_of asset_name name properties.
Proof.
  intros engine asset_name name properties lod.
  unfold is_collision_of, is_lod_of, get_asset_name.
  rewrite !strip_idempotent. repeat split.
Qed.
